(** * WinkWatcher: normalizers, metadata resolver, state store and
      floor/alert engine of [src/main.py], as a shallow embedding.

    Conventions of the embedding:
    - Python [float] is IEEE binary64: Rocq's primitive [float], whose
      operations are the same correctly rounded ones.
    - Python [str] is [string]; a character is read as the code point of
      the same number (U+0000 .. U+00FF).
    - Python [int] is [Z].
    - Loosely typed values ([Any], parsed JSON) are [json].
    - The two SQLite tables are finite maps keyed by their primary key.
    - A function that can raise returns [res]; network and the Bot API are
      an explicit [world] of replies, and observable effects are a list of
      [event]s in program order. *)

From Stdlib Require Import ZArith List String Ascii Bool Lia Floats.
From Stdlib Require Import DecimalString.
From Stdlib Require DecimalFacts DecimalPos DecimalN.
From stdpp Require Import base option gmap strings.

Set Warnings "-inexact-float,-register-all".
Local Open Scope string_scope.

(** ** Python string primitives used by the source *)

Module PyStr.

(** [str.isspace] on U+0000 .. U+00FF: TAB..CR, FS..US, SPACE, NEL, NBSP. *)
Definition is_space (c : ascii) : bool :=
  let n := nat_of_ascii c in
  (Nat.leb 9 n && Nat.leb n 13) || (Nat.leb 28 n && Nat.leb n 32)
  || Nat.eqb n 133 || Nat.eqb n 160.

(** The white space [int()] skips at either end: TAB..CR and SPACE, and
    NEL and NBSP, which it reads as spaces; FS..US are not skipped. *)
Definition is_int_space (c : ascii) : bool :=
  let n := nat_of_ascii c in
  (Nat.leb 9 n && Nat.leb n 13) || Nat.eqb n 32
  || Nat.eqb n 133 || Nat.eqb n 160.

Definition is_digit (c : ascii) : bool :=
  let n := nat_of_ascii c in Nat.leb 48 n && Nat.leb n 57.

Definition digit_val (c : ascii) : Z := Z.of_nat (nat_of_ascii c) - 48.

Fixpoint mem (c : ascii) (chars : string) : bool :=
  match chars with
  | EmptyString => false
  | String d chars' => Ascii.eqb c d || mem c chars'
  end.

Fixpoint lstrip_by (p : ascii -> bool) (s : string) : string :=
  match s with
  | EmptyString => EmptyString
  | String c s' => if p c then lstrip_by p s' else s
  end.

Fixpoint rstrip_by (p : ascii -> bool) (s : string) : string :=
  match s with
  | EmptyString => EmptyString
  | String c s' =>
      match rstrip_by p s' with
      | EmptyString => if p c then EmptyString else String c EmptyString
      | t => String c t
      end
  end.

Definition strip_by (p : ascii -> bool) (s : string) : string :=
  rstrip_by p (lstrip_by p s).

(** [s.strip()] *)
Definition strip (s : string) : string := strip_by is_space s.
(** [s.strip(chars)] *)
Definition strip_chars (chars s : string) : string :=
  strip_by (fun c => mem c chars) s.
(** [s.rstrip(chars)] *)
Definition rstrip_chars (chars s : string) : string :=
  rstrip_by (fun c => mem c chars) s.

Fixpoint drop (n : nat) (s : string) : string :=
  match n, s with
  | O, _ => s
  | S n', String _ s' => drop n' s'
  | S _, EmptyString => EmptyString
  end.

Fixpoint take (n : nat) (s : string) : string :=
  match n, s with
  | S n', String c s' => String c (take n' s')
  | _, _ => EmptyString
  end.

(** [s.startswith(p)] *)
Definition startswith (s p : string) : bool := String.prefix p s.

(** [s.removeprefix(p)] *)
Definition removeprefix (s p : string) : string :=
  if startswith s p then drop (String.length p) s else s.

(** [sub in s] *)
Definition contains (sub s : string) : bool :=
  match String.index 0 sub s with Some _ => true | None => false end.

(** [s.split(sep)[1]]; [None] is the IndexError of a one-element split. *)
Definition split_second (sep s : string) : option string :=
  match String.index 0 sep s with
  | None => None
  | Some i =>
      let rest := drop (i + String.length sep) s in
      match String.index 0 sep rest with
      | Some j => Some (take j rest)
      | None => Some rest
      end
  end.

Fixpoint repeat_char (c : ascii) (n : nat) : string :=
  match n with
  | O => EmptyString
  | S n' => String c (repeat_char c n')
  end.

(** [s.rjust(width, fill)] *)
Definition rjust (width : nat) (fill : ascii) (s : string) : string :=
  repeat_char fill (width - String.length s) +:+ s.

(** [s[:-d]] and [s[-d:]] for [d > 0] *)
Definition all_but_last (d : nat) (s : string) : string :=
  take (String.length s - d) s.
Definition last_n (d : nat) (s : string) : string :=
  drop (String.length s - d) s.

(** The capital of a letter: a..z, and U+00E0..U+00FE but for the
    division sign U+00F7. *)
Definition upper_char (c : ascii) : ascii :=
  let n := nat_of_ascii c in
  if (Nat.leb 97 n && Nat.leb n 122)
     || (Nat.leb 224 n && Nat.leb n 254 && negb (Nat.eqb n 247))
  then ascii_of_nat (n - 32) else c.
(** The small letter: A..Z, and U+00C0..U+00DE but for the multiplication
    sign U+00D7. *)
Definition lower_char (c : ascii) : ascii :=
  let n := nat_of_ascii c in
  if (Nat.leb 65 n && Nat.leb n 90)
     || (Nat.leb 192 n && Nat.leb n 222 && negb (Nat.eqb n 215))
  then ascii_of_nat (n + 32) else c.

Fixpoint map_chars (f : ascii -> ascii) (s : string) : string :=
  match s with
  | EmptyString => EmptyString
  | String c s' => String (f c) (map_chars f s')
  end.

(** [s.lower()] *)
Definition lower : string -> string := map_chars lower_char.

(** [s.upper()]: the sharp s (U+00DF) becomes "SS". The capitals of the
    micro sign (U+00B5) and of y with diaeresis (U+00FF) are U+039C and
    U+0178, beyond the characters a [string] holds; they are left as they
    are, which no comparison with a literal of the source can tell, and
    [capitals_in_range] excludes them where the capitals are returned. *)
Fixpoint upper (s : string) : string :=
  match s with
  | EmptyString => EmptyString
  | String c s' =>
      if Nat.eqb (nat_of_ascii c) 223 then String "S" (String "S" (upper s'))
      else String (upper_char c) (upper s')
  end.

Fixpoint capitals_in_range (s : string) : bool :=
  match s with
  | EmptyString => true
  | String c s' =>
      negb (Nat.eqb (nat_of_ascii c) 181 || Nat.eqb (nat_of_ascii c) 255)
      && capitals_in_range s'
  end.

(** [sys.int_max_str_digits], CPython's default. *)
Definition int_max_str_digits : nat := 4300.

(** The digits of an integer literal: decimal digits, single underscores
    allowed between two digits. Returns the value and the digit count. *)
Fixpoint parse_digits (acc : Z) (cnt : nat) (after_digit : bool) (s : string)
  : option (Z * nat) :=
  match s with
  | EmptyString => if after_digit then Some (acc, cnt) else None
  | String c s' =>
      if is_digit c then parse_digits (10 * acc + digit_val c) (S cnt) true s'
      else if Ascii.eqb c "_" && after_digit then parse_digits acc cnt false s'
      else None
  end.

Definition parse_unsigned (s : string) : option Z :=
  match parse_digits 0 0 false s with
  | Some (v, cnt) => if Nat.leb cnt int_max_str_digits then Some v else None
  | None => None
  end.

(** [int(s)] for a [str] in base 10; [None] is ValueError. *)
Definition py_int (s : string) : option Z :=
  match strip_by is_int_space s with
  | String "-" t => option_map Z.opp (parse_unsigned t)
  | String "+" t => parse_unsigned t
  | t => parse_unsigned t
  end.

(** The characters an integer literal is made of: digits, the signs, the
    underscore, and the white space [int()] skips. *)
Definition int_char (c : ascii) : bool :=
  is_digit c || is_int_space c || mem c "+-_".

(** Some character of the string is no [int_char]. *)
Fixpoint has_foreign_char (s : string) : bool :=
  match s with
  | EmptyString => false
  | String c s' => negb (int_char c) || has_foreign_char s'
  end.

(** [str(n)] for an [int]. *)
Definition str_of_int (n : Z) : string := NilZero.string_of_int (Z.to_int n).

Definition nonempty (s : string) : bool :=
  match s with EmptyString => false | _ => true end.

End PyStr.

(** ** Decimal/URI normalizers *)

Module Normalizers.
Import PyStr.

(** [_safe_decimal_str(value, decimals)]; [sv] is [str(value)]. *)
Definition _safe_decimal_str (sv : string) (decimals : Z) : option string :=
  match py_int sv with
  | None => None
  | Some raw =>
      if (decimals <=? 0)%Z then Some (str_of_int raw)
      else
        let d := Z.to_nat decimals in
        let s := rjust (d + 1) "0" (str_of_int raw) in
        let whole := match all_but_last d s with
                     | EmptyString => "0"
                     | w => w
                     end in
        let frac := rstrip_chars "0" (last_n d s) in
        Some (if nonempty frac then whole +:+ "." +:+ frac else whole)
  end.

(** Line 164: [uri.strip().strip("`").strip()] *)
Definition stripped (uri : string) : string :=
  strip (strip_chars "`" (strip uri)).

(** [_normalize_ipfs(uri)] *)
Definition _normalize_ipfs (uri : string) : string :=
  let s := stripped uri in
  if startswith s "ipfs://"
  then "https://ipfs.io/ipfs/" +:+ removeprefix s "ipfs://"
  else s.

End Normalizers.

(** ** Loosely typed values *)

Inductive json : Type :=
| JNull
| JBool (b : bool)
| JInt (z : Z)
| JFloat (f : float)
| JStr (s : string)
| JArr (items : list json)
| JObj (fields : list (string * json)).

(** The outcome of code that can raise. *)
Inductive res (A : Type) : Type :=
| Ok (a : A)
| Raised.
Arguments Ok {A} a.
Arguments Raised {A}.

Definition bind {A B : Type} (m : res A) (k : A -> res B) : res B :=
  match m with
  | Ok a => k a
  | Raised => Raised
  end.

Notation "'let*' x ':=' m 'in' k" := (bind m (fun x => k))
  (at level 10, x name, m at level 100, k at level 200).

Module Py.
Import PyStr.

(** Truth value of an object, as [if v] and [v or d] test it. *)
Definition truthy (v : json) : bool :=
  match v with
  | JNull => false
  | JBool b => b
  | JInt z => negb (z =? 0)%Z
  | JFloat f => negb (PrimFloat.eqb f 0)
  | JStr s => nonempty s
  | JArr l => match l with [] => false | _ => true end
  | JObj kv => match kv with [] => false | _ => true end
  end.

(** [a or b] *)
Definition or_else (a b : json) : json := if truthy a then a else b.

Fixpoint assoc (key : string) (kv : list (string * json)) : json :=
  match kv with
  | [] => JNull
  | (k, v) :: kv' => if String.eqb k key then v else assoc key kv'
  end.

(** [d.get(key)]: AttributeError unless [d] is a dict. *)
Definition get (d : json) (key : string) : res json :=
  match d with
  | JObj kv => Ok (assoc key kv)
  | _ => Raised
  end.

(** [v.upper()] / [v.lower()]: AttributeError unless [v] is a str. *)
Definition upper_of (v : json) : res string :=
  match v with JStr s => Ok (upper s) | _ => Raised end.
Definition lower_of (v : json) : res string :=
  match v with JStr s => Ok (lower s) | _ => Raised end.

(** [v if isinstance(v, str) else None] *)
Definition as_str (v : json) : option string :=
  match v with JStr s => Some s | _ => None end.

Definition is_str (v : json) : bool :=
  match v with JStr _ => true | _ => false end.

End Py.

(** ** Metadata resolver *)

Module Metadata.
Import PyStr Py Normalizers.

Section WithRepr.
(** [str(v)] of a value that is not a [str] (a number, a container). *)
Variable repr : json -> string.

Definition py_str (v : json) : string :=
  match v with JStr s => s | _ => repr v end.

(** The test of lines 199: content type IMAGE, the wanted size tag and
    a truthy url; evaluated left to right with short-circuit. *)
Definition media_matches (size : string) (m : json) : res bool :=
  let* ct := get m "contentType" in
  let* uct := upper_of (or_else ct (JStr "")) in
  if negb (String.eqb uct "IMAGE") then Ok false
  else
    let* st := get m "sizeType" in
    let* ust := upper_of (or_else st (JStr "")) in
    if negb (String.eqb ust size) then Ok false
    else
      let* u := get m "url" in
      Ok (truthy u).

(** The inner loop: the first entry of the given size, normalized. *)
Fixpoint first_of_size (size : string) (entries : list json)
  : res (option string) :=
  match entries with
  | [] => Ok None
  | m :: rest =>
      let* hit := media_matches size m in
      if hit then
        let* u := get m "url" in
        Ok (Some (_normalize_ipfs (py_str u)))
      else first_of_size size rest
  end.

(** The outer loop over the preferred sizes; it stops at the first
    size that left a truthy [image]. [image] is the value so far. *)
Fixpoint by_size (sizes : list string) (entries : list json)
         (image : option string) : res (option string) :=
  match sizes with
  | [] => Ok image
  | size :: sizes' =>
      let* found := first_of_size size entries in
      let image' := match found with Some u => Some u | None => image end in
      match image' with
      | Some u => if nonempty u then Ok image' else by_size sizes' entries image'
      | None => by_size sizes' entries image'
      end
  end.

Definition preferred : list string := ["ORIGINAL"; "BIG"; "PREVIEW"].

(** Lines 194-203. *)
Definition media_image (data : json) : res (option string) :=
  let* me := get data "mediaEntries" in
  match or_else me (JArr []) with
  | JArr (m :: rest) => by_size preferred (m :: rest) None
  | _ => Ok None
  end.

(** [for key in keys: v = data.get(key); if isinstance(v, str): ...; break] *)
Fixpoint first_str_key (keys : list string) (data : json)
  : res (option string) :=
  match keys with
  | [] => Ok None
  | key :: keys' =>
      let* v := get data key in
      match v with
      | JStr s => Ok (Some s)
      | _ => first_str_key keys' data
      end
  end.

Definition flat_image_keys : list string := ["image"; "image_url"; "imageURI"].

(** Lines 214-221. *)
Fixpoint rarity_attr (attrs : list json) : res (option string) :=
  match attrs with
  | [] => Ok None
  | a :: rest =>
      let* k := get a "key" in
      let* t := (if truthy k then Ok k else get a "trait_type") in
      let* lk := lower_of (or_else t (JStr "")) in
      if String.eqb lk "rarity" then
        let* rv := get a "value" in
        Ok (as_str rv)
      else rarity_attr rest
  end.

Record extracted := {
  ex_name : option string;
  ex_image_url : option string;
  ex_rarity : option string
}.

(** [extract_from_metadata], from the fetched [data] on (line 191). *)
Definition extract_from_metadata (data : json) : res extracted :=
  let* image0 := media_image data in
  let* name := first_str_key ["name"; "title"] data in
  let* flat := first_str_key flat_image_keys data in
  let image := match flat with
               | Some v => Some (_normalize_ipfs v)
               | None => image0
               end in
  let* at_ := get data "attributes" in
  let* rarity := match or_else at_ (JArr []) with
                 | JArr attrs => rarity_attr attrs
                 | _ => Ok None
                 end in
  Ok {| ex_name := name; ex_image_url := image; ex_rarity := rarity |}.

End WithRepr.

End Metadata.

(** ** Floating point helpers *)

Module PyFloat.

(** The integer nearest to [n / d] for [d > 0], ties to the even one. *)
Definition round_half_even (n d : Z) : Z :=
  let q := (n / d)%Z in
  match (2 * (n mod d) ?= d)%Z with
  | Lt => q
  | Gt => (q + 1)%Z
  | Eq => if Z.even q then q else (q + 1)%Z
  end.

(** [round(x, 2)] as CPython computes it: the exact binary value of [x]
    is rounded half-even to a multiple of 1/100, and the float nearest to
    that decimal is returned; NaN, the infinities and the zeros are
    returned as they are, and the sign survives a zero result. *)
Definition round2 (x : float) : float :=
  match Prim2SF x with
  | S754_finite s m e =>
      let n := if (0 <=? e)%Z
               then (Zpos m * 100 * 2 ^ e)%Z
               else round_half_even (Zpos m * 100) (2 ^ (- e)) in
      match n with
      | Zpos p =>
          SF2Prim (SFdiv prec emax (S754_finite s p 0) (S754_finite false 100 0))
      | _ => if s then (-0)%float else 0%float
      end
  | _ => x
  end.

(** [floor_price * (1 - th / 100.0)] *)
Definition limit (floor_price th : float) : float :=
  (floor_price * (1 - th / 100))%float.

End PyFloat.

(** ** State store *)

Module Store.

(** A row of [floors]: [price REAL], [updated_at TEXT],
    [threshold_percent REAL]; [None] is SQL NULL. *)
Record floor_row := {
  price : option float;
  updated_at : string;
  threshold_percent : option float
}.

(** A row of [notifications]. *)
Record notification_row := {
  last_price : option float;
  last_at : string
}.

Record db := {
  floors : gmap string floor_row;
  notifications : gmap string notification_row
}.

Definition empty_db : db := {| floors := ∅; notifications := ∅ |}.

(** A float bound to a statement parameter and read back from a REAL
    column: SQLite stores NaN as NULL, and a float without a fraction as
    an integer, so that -0.0 is read back as 0.0. *)
Definition sql_real (x : float) : option float :=
  if PrimFloat.is_nan x then None
  else if PrimFloat.eqb x 0 then Some 0%float
  else Some x.

(** [get_floor]: no row, or [float(None)] raising, give [None]. *)
Definition get_floor (d : db) (rarity : string) : option float :=
  match floors d !! rarity with
  | None => None
  | Some row => price row
  end.

(** [set_floor]: upsert of [price] and [updated_at]. *)
Definition set_floor (d : db) (rarity : string) (p : float) (ts : string) : db :=
  let v := sql_real (PyFloat.round2 p) in
  let row := match floors d !! rarity with
             | Some old => {| price := v; updated_at := ts;
                              threshold_percent := threshold_percent old |}
             | None => {| price := v; updated_at := ts;
                          threshold_percent := None |}
             end in
  {| floors := <[rarity := row]> (floors d); notifications := notifications d |}.

(** [get_notified] *)
Definition get_notified (d : db) (item_id : string) : option float :=
  match notifications d !! item_id with
  | None => None
  | Some row => last_price row
  end.

(** [set_notified]: upsert of [last_price] and [last_at]. *)
Definition set_notified (d : db) (item_id : string) (p : float) (ts : string) : db :=
  let row := {| last_price := sql_real (PyFloat.round2 p); last_at := ts |} in
  {| floors := floors d; notifications := <[item_id := row]> (notifications d) |}.

(** [get_threshold]: 50.0 when there is no row or the column is NULL. *)
Definition get_threshold (d : db) (rarity : string) : float :=
  match floors d !! rarity with
  | None => 50%float
  | Some row =>
      match threshold_percent row with
      | None => 50%float
      | Some t => t
      end
  end.

(** [set_threshold]: inserts [(rarity, NULL, "", percent)], or on
    conflict updates [threshold_percent] only. *)
Definition set_threshold (d : db) (rarity : string) (percent : float) : db :=
  let row := match floors d !! rarity with
             | Some old => {| price := price old; updated_at := updated_at old;
                              threshold_percent := sql_real percent |}
             | None => {| price := None; updated_at := "";
                          threshold_percent := sql_real percent |}
             end in
  {| floors := <[rarity := row]> (floors d); notifications := notifications d |}.

End Store.

(** ** Floor/alert engine: the decision pass of [run] *)

Module Engine.
Import PyStr Py Normalizers Store.
Local Open Scope list_scope.

(** The record [_enrich] returns for one item. *)
Record result := {
  r_image_url : option string;
  r_preview_url : option string;
  r_price : option string;
  r_currency : option string;
  r_rarible_url : option string;
  r_opensea_url : option string;
  r_token_id : json;      (* [it.get("tokenId")] *)
  r_item_id : json;       (* [it.get("id")] *)
  r_rarity : option string;
  r_price_usd : option float
}.

(** [BOT_TOKEN] and [CHANNEL_ID] of the environment. *)
Record config := {
  bot_token : option string;
  channel_id : option string
}.

(** [bot] is created when the token is a non-empty string. *)
Definition bot (cfg : config) : bool :=
  match bot_token cfg with Some t => nonempty t | None => false end.

(** What a GET of the image answers: an exception, or a status and the
    body ([None] when reading it raises). *)
Inductive http_reply :=
| HttpRaised
| HttpResponse (status : Z) (content : option string).

(** The environment a record meets: the clock, the answer to the image
    request of line 617, the answer to the second request of line 630
    (which may differ from the first even at the same address), and
    whether the Bot API call returns normally. *)
Record world := {
  now : string;                       (* the formatted clock *)
  http_get : string -> http_reply;    (* [session.get(img_url)] *)
  http_retry : string -> http_reply;  (* [session.get(alt)] *)
  bot_send : bool                     (* a Bot API call returns normally *)
}.

(** [price_str] of line 598. *)
Inductive price_display :=
| PriceUsd (p : float)
| PriceRaw (s : option string).

(** The arguments of [_format_caption]. *)
Record caption := {
  c_token_id : json;
  c_rarity : option string;
  c_price : price_display;
  c_floor_price : option float;
  c_rarible_url : option string;
  c_opensea_url : option string
}.

Inductive event :=
| LogCompare (rarity : option string) (price_cmp limit_cmp th : float)
| LogTrigger (rarity : option string) (price floor_price th : float)
| LogSending (rarity : option string) (channel : string)
| HttpGet (url : string)
| SendPhoto (channel content : string) (rarity : option string)
            (token_id : json) (cap : caption)
| SendMessage (channel : string) (cap : caption)
| LogSent
| LogFloorImmediate (rarity : string) (price : float)
| LogSendFailed
| LogFloorInit (rarity : string) (price : float)
| LogFloorUpdated (rarity : string) (price : float).

(** The condition of line 605. *)
Definition alert_fires (price_usd floor_price : option float) (th : float) : bool :=
  match price_usd, floor_price with
  | Some p, Some f =>
      PrimFloat.leb (PyFloat.round2 p) (PyFloat.round2 (PyFloat.limit f th))
  | _, _ => false
  end.

(** Lines 607-609. *)
Definition last_notified (d : db) (r : result) : option float :=
  match r_item_id r with
  | JStr item_id => get_notified d item_id
  | _ => None
  end.

(** Line 610; [price_usd] is a float where this is evaluated. *)
Definition should_notify (last_notified_price : option float) (price_usd : float) : bool :=
  match last_notified_price with
  | None => true
  | Some last => PrimFloat.ltb price_usd last
  end.

(** Lines 623-629. *)
Definition alt_url (img_url : string) : string :=
  if contains "ipfs.raribleuserdata.com/ipfs/" img_url || startswith img_url "ipfs://"
  then
    let cid := if contains "ipfs/" img_url
               then split_second "ipfs/" img_url
               else Some (removeprefix img_url "ipfs://") in
    match cid with
    | Some c => "https://ipfs.io/ipfs/" +:+ c
    | None => img_url
    end
  else img_url.

(** Lines 616-637: the body of the [try] up to the sends. The boolean
    tells whether it ran to its end without raising. *)
Definition deliver (w : world) (channel img_url : string)
           (rarity : option string) (token_id : json) (cap : caption)
  : bool * list event :=
  match http_get w img_url with
  | HttpRaised => (false, [HttpGet img_url])
  | HttpResponse st content =>
      if (st =? 200)%Z then
        match content with
        | None => (false, [HttpGet img_url])
        | Some c =>
            (bot_send w, [HttpGet img_url; SendPhoto channel c rarity token_id cap])
        end
      else
        let alt := alt_url img_url in
        match http_retry w alt with
        | HttpRaised => (false, [HttpGet img_url; HttpGet alt])
        | HttpResponse st' content' =>
            if (st' =? 200)%Z then
              match content' with
              | None => (false, [HttpGet img_url; HttpGet alt])
              | Some c =>
                  (bot_send w,
                   [HttpGet img_url; HttpGet alt;
                    SendPhoto channel c rarity token_id cap])
              end
            else
              (bot_send w,
               [HttpGet img_url; HttpGet alt; SendMessage channel cap])
        end
  end.

Definition truthy_str (o : option string) : option string :=
  match o with
  | Some s => if nonempty s then Some s else None
  | None => None
  end.

(** Lines 639-643: what follows a delivery that did not raise. *)
Definition commit (w : world) (d : db) (r : result) (p : float) : db * list event :=
  let '(d1, ev1) :=
    match r_rarity r with
    | Some ra => (set_floor d ra p (now w), [LogFloorImmediate ra (PyFloat.round2 p)])
    | None => (d, [])
    end in
  let d2 :=
    match r_item_id r with
    | JStr item_id => set_notified d1 item_id p (now w)
    | _ => d1
    end in
  (d2, ev1).

(** Lines 606-645: the body of the trigger branch. *)
Definition alert_branch (cfg : config) (w : world) (d : db) (r : result)
           (price_str : price_display) (p f th : float) : db * list event :=
  let rarity := r_rarity r in
  let trigger := LogTrigger rarity (PyFloat.round2 p) (PyFloat.round2 f)
                            (PyFloat.round2 th) in
  let last_notified_price := last_notified d r in
  if should_notify last_notified_price p && bot cfg then
    match truthy_str (channel_id cfg), truthy_str (r_image_url r) with
    | Some channel, Some image =>
        let cap := {| c_token_id := r_token_id r; c_rarity := rarity;
                      c_price := price_str; c_floor_price := Some f;
                      c_rarible_url := r_rarible_url r;
                      c_opensea_url := r_opensea_url r |} in
        let img_url := _normalize_ipfs
                         (match truthy_str (r_preview_url r) with
                          | Some u => u
                          | None => image
                          end) in
        let '(ok, sent) := deliver w channel img_url rarity (r_token_id r) cap in
        let pre := trigger :: LogSending rarity channel :: sent in
        if ok then
          let '(d2, ev1) := commit w d r p in
          (d2, pre ++ LogSent :: ev1)
        else (d, pre ++ [LogSendFailed])
    | _, _ => (d, [trigger])
    end
  else (d, [trigger]).

(** Lines 646-651: initialization on the first tick, refresh on every
    third one. *)
Definition cadence (w : world) (tick : Z) (d : db)
           (rarity : option string) (price_usd : option float) : db * list event :=
  let '(d2, ev2) :=
    match price_usd, rarity with
    | Some p, Some ra =>
        if (tick =? 1)%Z
        then (set_floor d ra p (now w), [LogFloorInit ra (PyFloat.round2 p)])
        else (d, [])
    | _, _ => (d, [])
    end in
  let '(d3, ev3) :=
    match price_usd, rarity with
    | Some p, Some ra =>
        if (tick mod 3 =? 0)%Z
        then (set_floor d2 ra p (now w), [LogFloorUpdated ra (PyFloat.round2 p)])
        else (d2, [])
    | _, _ => (d2, [])
    end in
  (d3, ev2 ++ ev3).

(** Line 599: [get_floor(conn, rarity) if isinstance(rarity, str) else None] *)
Definition floor_of (d : db) (r : result) : option float :=
  match r_rarity r with
  | Some ra => get_floor d ra
  | None => None
  end.

(** Line 600: [get_threshold(conn, rarity) if isinstance(rarity, str) else 50.0] *)
Definition threshold_of (d : db) (r : result) : float :=
  match r_rarity r with
  | Some ra => get_threshold d ra
  | None => 50%float
  end.

(** Line 598. *)
Definition price_str_of (r : result) : price_display :=
  match r_price_usd r with
  | Some p => PriceUsd p
  | None => PriceRaw (r_price r)
  end.

(** Lines 596-645: the comparison and, when it holds, the trigger branch. *)
Definition alert_step (cfg : config) (w : world) (d : db) (r : result)
  : db * list event :=
  let rarity := r_rarity r in
  let price_usd := r_price_usd r in
  let price_str := price_str_of r in
  let floor_price := floor_of d r in
  let th := threshold_of d r in
  match price_usd, floor_price with
  | Some p, Some f =>
      let compare := LogCompare rarity (PyFloat.round2 p)
                                (PyFloat.round2 (PyFloat.limit f th))
                                (PyFloat.round2 th) in
      if alert_fires price_usd floor_price th
      then let '(d1, ev1) := alert_branch cfg w d r price_str p f th in
           (d1, compare :: ev1)
      else (d, [compare])
  | _, _ => (d, [])
  end.

(** Lines 596-651: the body of [for r in results]. *)
Definition process_result (cfg : config) (w : world) (tick : Z) (d : db)
           (r : result) : db * list event :=
  let '(d1, ev1) := alert_step cfg w d r in
  let '(d3, ev23) := cadence w tick d1 (r_rarity r) (r_price_usd r) in
  (d3, ev1 ++ ev23).

(** One tick: the [for] loop over the enriched results, every record of
    the tick meeting the environment [w]. *)
Fixpoint run_tick (cfg : config) (w : world) (tick : Z) (d : db)
         (results : list result) : db * list event :=
  match results with
  | [] => (d, [])
  | r :: rest =>
      let '(d1, ev1) := process_result cfg w tick d r in
      let '(d2, ev2) := run_tick cfg w tick d1 rest in
      (d2, ev1 ++ ev2)
  end.

(** The [while True] loop on a finite prefix of observations: [tick] is
    the counter before [tick += 1]; the store after each tick is kept. *)
Fixpoint run (cfg : config) (tick : Z) (d : db)
         (obs : list (world * list result)) : list (db * list event) :=
  match obs with
  | [] => []
  | (w, results) :: obs' =>
      let tick' := (tick + 1)%Z in
      let '(d1, ev) := run_tick cfg w tick' d results in
      (d1, ev) :: run cfg tick' d1 obs'
  end.

End Engine.

(** ** Operator command [/set] *)

Module Commands.
Import PyStr Store.
Local Open Scope list_scope.

Definition rarities : list string :=
  ["Legendary"; "Epic"; "Rare"; "Uncommon"; "Common"].

(** [{r.lower(): r for r in rarities}.get(key)]: a later entry of the
    comprehension overrides an earlier one with the same key. *)
Fixpoint mapping_get (key : string) (rs : list string) : option string :=
  match rs with
  | [] => None
  | r :: rs' =>
      match mapping_get key rs' with
      | Some r' => Some r'
      | None => if String.eqb (lower r) key then Some r else None
      end
  end.

(** [s.split(sep)] for a one-character separator. *)
Fixpoint split_char (sep : ascii) (s : string) : list string :=
  match s with
  | EmptyString => [EmptyString]
  | String c s' =>
      match split_char sep s' with
      | [] => [EmptyString]
      | hd :: tl =>
          if Ascii.eqb c sep then EmptyString :: hd :: tl
          else String c hd :: tl
      end
  end.

(** [s.split()]: the maximal runs of characters that are not whitespace. *)
Fixpoint split_ws_aux (cur : string) (s : string) : list string :=
  match s with
  | EmptyString => if nonempty cur then [cur] else []
  | String c s' =>
      if is_space c
      then (if nonempty cur then cur :: split_ws_aux EmptyString s'
            else split_ws_aux EmptyString s')
      else split_ws_aux (cur +:+ String c EmptyString) s'
  end.
Definition split_ws (s : string) : list string := split_ws_aux EmptyString s.

Inductive reply_text :=
| UsageFormat                          (* "Use the format: /set Rarity, Percent" *)
| RarityOneOf                          (* "Rarity must be one of: ..." *)
| PercentBetween                       (* "Percent must be a number between 1 and 100" *)
| ThresholdUpdated (rarity : string) (percent : float).

Inductive cmd_event :=
| Reply (text : reply_text)
| LogSetError.

Section WithFloatParser.
(** [float(s)] for a [str]; [None] is ValueError. *)
Variable py_float : string -> option float.
(** Whether a Bot API call returns normally. *)
Variable bot_send : bool.

(** A [send_message] inside the [try]: when the call raises, the
    handler logs and sends the usage text from the [except] clause. *)
Definition send (text : reply_text) : list cmd_event :=
  if bot_send then [Reply text]
  else [Reply text; LogSetError; Reply UsageFormat].

(** Lines 488-504, from the two parts of the payload on. *)
Definition handle_parts (d : db) (part0 part1 : string) : db * list cmd_event :=
  let rarity_in := lower part0 in
  let percent_in := part1 in
  match mapping_get rarity_in rarities with
  | None => (d, send RarityOneOf)
  | Some rarity_norm =>
      if negb (nonempty rarity_norm) then (d, send RarityOneOf)
      else
        match py_float percent_in with
        | None => (d, send PercentBetween)
        | Some percent_val =>
            if negb (PrimFloat.ltb 0 percent_val && PrimFloat.leb percent_val 100)
            then (d, send PercentBetween)
            else (set_threshold d rarity_norm percent_val,
                  send (ThresholdUpdated rarity_norm percent_val))
        end
  end.

(** [_handle_set] for a message with the given [text]. *)
Definition _handle_set (d : db) (text : option string) : db * list cmd_event :=
  match text with
  | None => (d, [])
  | Some t =>
      if negb (nonempty t) then (d, [])
      else
        let txt := strip t in
        let payload := strip (drop 4 txt) in
        if negb (nonempty payload) then (d, send UsageFormat)
        else
          let by_comma :=
            filter (fun p => nonempty p) (map strip (split_char "," payload)) in
          let parts := if Nat.eqb (length by_comma) 2 then by_comma
                       else split_ws payload in
          match parts with
          | [part0; part1] => handle_parts d part0 part1
          | _ => (d, send UsageFormat)
          end
  end.

End WithFloatParser.

End Commands.

(** ** Observations on traces and strings used to state the properties *)

Module Obs.
Import Engine.

(** The "Trigger" line: the alert condition held. *)
Definition is_trigger (e : event) : bool :=
  match e with LogTrigger _ _ _ _ => true | _ => false end.
(** The comparison line of 604. *)
Definition is_compare (e : event) : bool :=
  match e with LogCompare _ _ _ _ => true | _ => false end.
(** The notification is attempted: line 612 is reached. *)
Definition is_sending (e : event) : bool :=
  match e with LogSending _ _ => true | _ => false end.
(** A message or a photo is handed to the Bot API. *)
Definition is_send (e : event) : bool :=
  match e with SendPhoto _ _ _ _ _ | SendMessage _ _ => true | _ => false end.
(** The delivery ran to its end: "Telegram message sent". *)
Definition is_sent (e : event) : bool :=
  match e with LogSent => true | _ => false end.
(** A floor write of rules 2 and 3 (initialization, periodic refresh). *)
Definition is_cadence_write (e : event) : bool :=
  match e with LogFloorInit _ _ | LogFloorUpdated _ _ => true | _ => false end.
(** Any floor write. *)
Definition is_floor_write (e : event) : bool :=
  match e with
  | LogFloorInit _ _ | LogFloorUpdated _ _ | LogFloorImmediate _ _ => true
  | _ => false
  end.

(** What the delivery itself emits: requests and Bot API calls. *)
Definition is_transport (e : event) : bool :=
  match e with
  | HttpGet _ | SendPhoto _ _ _ _ _ | SendMessage _ _ => true
  | _ => false
  end.

Definition triggered (evs : list event) : bool := existsb is_trigger evs.
Definition compared (evs : list event) : bool := existsb is_compare evs.
Definition attempted (evs : list event) : bool := existsb is_sending evs.
Definition sends (evs : list event) : bool := existsb is_send evs.
Definition completed (evs : list event) : bool := existsb is_sent evs.
Definition floor_written (evs : list event) : bool := existsb is_floor_write evs.

Definition first_char (s : string) : option ascii :=
  match s with
  | EmptyString => None
  | String c _ => Some c
  end.

Fixpoint last_char (s : string) : option ascii :=
  match s with
  | EmptyString => None
  | String c EmptyString => Some c
  | String _ s' => last_char s'
  end.

(** Neither the first nor the last character satisfies [p]. *)
Definition edge_free (p : ascii -> bool) (s : string) : Prop :=
  (forall c, first_char s = Some c -> p c = false)
  /\ (forall c, last_char s = Some c -> p c = false).

(** The string neither begins nor ends with a backtick. *)
Definition no_edge_backtick (s : string) : Prop :=
  first_char s <> Some "`"%char /\ last_char s <> Some "`"%char.

End Obs.

(** ** The ways the trigger branch can end *)

Module Outcome.
Import Engine Store Obs.
Local Open Scope list_scope.

(** [branch_outcome cfg w d r p d' evs]: the trigger branch, entered in
    store [d] for the record [r] at price [p], leaves the store [d'] and
    the trace [evs]. It is left at the gate of line 611, or by the
    [except] clause, or at the end of the [try]. *)
Inductive branch_outcome (cfg : config) (w : world) (d : db) (r : result)
          (p : float) : db -> list event -> Prop :=
| Gated trig :
    is_trigger trig = true ->
    (should_notify (last_notified d r) p && bot cfg = false
     \/ truthy_str (channel_id cfg) = None
     \/ truthy_str (r_image_url r) = None) ->
    branch_outcome cfg w d r p d [trig]
| Failed trig sending sent :
    is_trigger trig = true -> is_sending sending = true ->
    forallb is_transport sent = true ->
    should_notify (last_notified d r) p = true ->
    bot cfg = true ->
    branch_outcome cfg w d r p d (trig :: sending :: sent ++ [LogSendFailed])
| Delivered trig sending sent :
    is_trigger trig = true -> is_sending sending = true ->
    forallb is_transport sent = true ->
    should_notify (last_notified d r) p = true ->
    bot cfg = true ->
    branch_outcome cfg w d r p (fst (commit w d r p))
                   (trig :: sending :: sent ++ LogSent :: snd (commit w d r p)).

End Outcome.

(** ** The fixed-point string, following the words of the specification *)

Module FixedPoint.
Import PyStr.

(** The decimal string of a natural number. *)
Definition dec (n : N) : string := NilZero.string_of_uint (N.to_uint n).

(** The character of a decimal digit. *)
Definition digit_char (r : N) : ascii := ascii_of_N (48 + r).

(** The [k] low-order decimal digits of [n], most significant first. *)
Fixpoint low_digits (k : nat) (n : N) : string :=
  match k with
  | O => EmptyString
  | S k' => low_digits k' (n / 10) +:+ String (digit_char (n mod 10)) EmptyString
  end.

(** The integer is split at [k] digits into an integer part and a
    fraction part, trailing zeros of the fraction are dropped, and the
    point is written only before a fraction that is left. *)
Definition fixed_point (n : N) (k : nat) : string :=
  let whole := dec (n / 10 ^ N.of_nat k) in
  let frac := rstrip_chars "0" (low_digits k n) in
  if nonempty frac then whole +:+ "." +:+ frac else whole.

End FixedPoint.

(** ** Concrete stores, records and environments for the examples *)

Module Fixtures.
Import Engine Store.

Definition clock : string := "03.11.2026 12:00:00".

(** A configured bot and channel. *)
Definition cfg_on : config :=
  {| bot_token := Some "123:abc"; channel_id := Some "@winkwatcher" |}.

(** Every image is served and the Bot API answers. *)
Definition net_up : world :=
  {| now := clock;
     http_get := fun _ => HttpResponse 200 (Some "jpeg");
     http_retry := fun _ => HttpResponse 200 (Some "jpeg");
     bot_send := true |}.

(** The image is not found at first and served at the second request. *)
Definition net_retry : world :=
  {| now := clock;
     http_get := fun _ => HttpResponse 404 None;
     http_retry := fun _ => HttpResponse 200 (Some "jpeg");
     bot_send := true |}.

(** Every request raises. *)
Definition net_down : world :=
  {| now := clock;
     http_get := fun _ => HttpRaised;
     http_retry := fun _ => HttpRaised;
     bot_send := true |}.

(** The enriched record of an item with an image. *)
Definition listing (rarity : string) (item_id : json) (p : float) : result :=
  {| r_image_url := Some "https://img.example/1.png";
     r_preview_url := None;
     r_price := Some "0.03";
     r_currency := Some "ETH";
     r_rarible_url := None;
     r_opensea_url := None;
     r_token_id := JStr "1";
     r_item_id := item_id;
     r_rarity := Some rarity;
     r_price_usd := Some p |}.

(** The record of an item of [rarity] that is not for sale: no price. *)
Definition unpriced (rarity : string) (item_id : json) : result :=
  {| r_image_url := Some "https://img.example/2.png";
     r_preview_url := None;
     r_price := None;
     r_currency := None;
     r_rarible_url := None;
     r_opensea_url := None;
     r_token_id := JStr "2";
     r_item_id := item_id;
     r_rarity := Some rarity;
     r_price_usd := None |}.

(** A store whose only floor is [f] for [rarity] (threshold at its default). *)
Definition floor_only (rarity : string) (f : float) : db :=
  set_floor empty_db rarity f clock.

(** The same with an alert already recorded for [item_id] at [last]. *)
Definition floor_and_record (rarity : string) (f : float)
           (item_id : string) (last : float) : db :=
  set_notified (floor_only rarity f) item_id last clock.

End Fixtures.

(** ** Item extractors *)

Module Extractors.
Import PyStr Py Normalizers.
Local Open Scope list_scope.

Section WithRepr.
(** [str(v)] of a value that is not a [str]. *)
Variable repr : json -> string.

(** [d.get(key) or {}] *)
Definition get_or_obj (d : json) (key : string) : res json :=
  let* v := get d key in Ok (or_else v (JObj [])).

(** [d.get(key) or []] *)
Definition get_or_arr (d : json) (key : string) : res json :=
  let* v := get d key in Ok (or_else v (JArr [])).

(** Lines 89-92: [for rep in preferred_order: for m in entries: ... return]. *)
Fixpoint first_by_sizes (sizes : list string) (entries : list json)
  : res (option string) :=
  match sizes with
  | [] => Ok None
  | size :: sizes' =>
      let* found := Metadata.first_of_size repr size entries in
      match found with
      | Some u => Ok (Some u)
      | None => first_by_sizes sizes' entries
      end
  end.

(** Lines 93-96: the first entry whose url is a non-empty string. *)
Fixpoint first_str_url (entries : list json) : res (option string) :=
  match entries with
  | [] => Ok None
  | m :: rest =>
      let* u := get m "url" in
      match u with
      | JStr s => if nonempty s then Ok (Some (_normalize_ipfs s))
                  else first_str_url rest
      | _ => first_str_url rest
      end
  end.

(** Line 99: the contents whose [@type] is IMAGE. *)
Fixpoint image_contents (contents : list json) : res (list json) :=
  match contents with
  | [] => Ok []
  | c :: rest =>
      let* t := get c "@type" in
      let* ut := upper_of (or_else t (JStr "")) in
      let* kept := image_contents rest in
      Ok (if String.eqb ut "IMAGE" then c :: kept else kept)
  end.

(** The test of line 102. *)
Definition content_matches (rep : string) (c : json) : res bool :=
  let* r := get c "representation" in
  let* ur := upper_of (or_else r (JStr "")) in
  if negb (String.eqb ur rep) then Ok false
  else
    let* u := get c "url" in
    Ok (truthy u).

Fixpoint first_of_rep (rep : string) (cs : list json) : res (option string) :=
  match cs with
  | [] => Ok None
  | c :: rest =>
      let* hit := content_matches rep c in
      if hit then
        let* u := get c "url" in
        Ok (Some (_normalize_ipfs (Metadata.py_str repr u)))
      else first_of_rep rep rest
  end.

(** Lines 100-103. *)
Fixpoint first_by_reps (reps : list string) (cs : list json)
  : res (option string) :=
  match reps with
  | [] => Ok None
  | rep :: reps' =>
      let* found := first_of_rep rep cs in
      match found with
      | Some u => Ok (Some u)
      | None => first_by_reps reps' cs
      end
  end.

(** Lines 104-106: the first content with a truthy url. *)
Fixpoint first_any_url (contents : list json) : res (option string) :=
  match contents with
  | [] => Ok None
  | c :: rest =>
      let* u := get c "url" in
      if truthy u then Ok (Some (_normalize_ipfs (Metadata.py_str repr u)))
      else first_any_url rest
  end.

(** Lines 107-108. *)
Definition flat_uri (item meta : json) : res (option string) :=
  let* a := get meta "originalMetaUri" in
  let* uri := (if truthy a then Ok a
               else let* b := get item "image" in
                    if truthy b then Ok b else get item "preview") in
  Ok (match uri with
      | JStr s => Some (_normalize_ipfs s)
      | _ => None
      end).

(** Lines 97-108: what follows the media entries. A truthy [content] that
    is not a list is iterated by [for c in contents] and raises at its
    first element (or at once). *)
Definition from_meta (item : json) : res (option string) :=
  let* meta := get_or_obj item "meta" in
  let* contents := get_or_arr meta "content" in
  match contents with
  | JArr cs =>
      let* ics := image_contents cs in
      let* a := first_by_reps ["ORIGINAL"; "BIG"; "PREVIEW"; "PORTRAIT"] ics in
      match a with
      | Some u => Ok (Some u)
      | None =>
          let* b := first_any_url cs in
          match b with
          | Some u => Ok (Some u)
          | None => flat_uri item meta
          end
      end
  | _ => Raised
  end.

(** [extract_image_url(item)] *)
Definition extract_image_url (item : json) : res (option string) :=
  let* props := get_or_obj item "properties" in
  let* entries := get_or_arr props "mediaEntries" in
  let* a := match entries with
            | JArr (m :: rest) =>
                let* s := first_by_sizes ["ORIGINAL"; "BIG"; "PREVIEW"] (m :: rest) in
                match s with
                | Some u => Ok (Some u)
                | None => first_str_url (m :: rest)
                end
            | _ => Ok None
            end in
  match a with
  | Some u => Ok (Some u)
  | None => from_meta item
  end.

(** [extract_name(item)] *)
Definition extract_name (item : json) : res (option string) :=
  let* props := get_or_obj item "properties" in
  let* meta := get_or_obj item "meta" in
  let* a := get props "name" in
  let* name := (if truthy a then Ok a
                else let* b := get meta "name" in
                     if truthy b then Ok b
                     else let* c := get item "name" in
                          if truthy c then Ok c else get item "title") in
  Ok (as_str name).

(** The currency of lines 146-155. *)
Definition currency_symbol (item : json) (asset_class : string)
  : res (option string) :=
  if String.eqb asset_class "ETH" || String.eqb asset_class "NATIVE" then
    let* bc := get item "blockchain" in
    let* ubc := upper_of (or_else bc (JStr "")) in
    Ok (Some (if String.eqb ubc "POLYGON" then "MATIC" else "ETH"))
  else if String.eqb asset_class "ERC20" then Ok (Some "ERC20")
  else Ok (if nonempty asset_class then Some asset_class else None).

(** [extract_price(item)] *)
Definition extract_price (item : json) : res (option string * option string) :=
  let* o1 := get item "bestSellOrder" in
  let* order := (if truthy o1 then Ok o1
                 else let* o2 := get item "bestSell" in
                      Ok (or_else o2 (JObj []))) in
  let* ownership := get_or_obj item "ownership" in
  if negb (truthy order) && truthy ownership then
    let* p := get ownership "price" in
    let* last := get_or_obj item "lastSellPrice" in
    let* currency := get_or_obj last "currency" in
    let* sym := get currency "symbol" in
    Ok (match p with
        | JNull => None
        | _ => Some (Metadata.py_str repr p)
        end, as_str sym)
  else if negb (truthy order) then Ok (None, None)
  else
    let* p1 := get order "price" in
    let* price := (if truthy p1 then Ok p1
                   else let* p2 := get order "takePrice" in
                        if truthy p2 then Ok p2 else get order "makePrice") in
    let* take := get_or_obj order "take" in
    let* asset_type := get_or_obj take "assetType" in
    let* ac := get asset_type "assetClass" in
    let* asset_class := upper_of (or_else ac (JStr "")) in
    let* cur := currency_symbol item asset_class in
    match price with
    | JStr s => Ok (Some s, cur)
    | _ =>
        let* raw_value := get take "value" in
        Ok (_safe_decimal_str (Metadata.py_str repr raw_value) 18, cur)
    end.

(** [extract_preview_url(item, meta_extracted)]; [meta_image] is
    [meta_extracted.get("image_url")]. *)
Definition extract_preview_url (item : json) (meta_image : option string)
  : res (option string) :=
  let* props := get_or_obj item "properties" in
  let* entries := get_or_arr props "mediaEntries" in
  let* a := match entries with
            | JArr l => Metadata.first_of_size repr "PREVIEW" l
            | _ => Ok None
            end in
  Ok (match a with
      | Some u => Some u
      | None => meta_image
      end).

(** Lines 237-243: the loop over the attributes; [None] is the [break] or
    the end of the list, both followed by [return meta_rarity]. *)
Fixpoint rarity_of_attrs (attrs : list json) : res (option string) :=
  match attrs with
  | [] => Ok None
  | a :: rest =>
      let* key := get a "key" in
      match key with
      | JStr k =>
          if String.eqb (lower k) "rarity" then
            let* rv := get a "value" in
            Ok (as_str rv)
          else rarity_of_attrs rest
      | _ => rarity_of_attrs rest
      end
  end.

(** [extract_rarity(item, meta_rarity)] *)
Definition extract_rarity (item : json) (meta_rarity : option string)
  : res (option string) :=
  let* props := get_or_obj item "properties" in
  let* attrs := get_or_arr props "attributes" in
  let* a := match attrs with
            | JArr l => rarity_of_attrs l
            | _ => Ok None
            end in
  Ok (match a with
      | Some rv => Some rv
      | None => meta_rarity
      end).

End WithRepr.

End Extractors.

(** ** Outbound requests *)

Module Net.
Import Py.
Local Open Scope list_scope.

(** What one attempt meets: an exception, or a response with its status
    and parsed body ([None] when [resp.json()] raises). *)
Inductive reply :=
| ReplyRaised
| Reply (status : Z) (body : option json).

Inductive net_event :=
| Request (attempt : nat)
| Warn (attempt : nat)
| Sleep (seconds : nat).

(** The loop [for attempt in range(3)] of [fetch_json] and [post_json]: a
    200 response with a parsed body is returned, anything else is logged
    and followed by a sleep of [attempt + 1] seconds. *)
Fixpoint attempts (replies : nat -> reply) (todo : list nat) : json * list net_event :=
  match todo with
  | [] => (JObj [], [])
  | attempt :: rest =>
      let again :=
        let '(out, evs) := attempts replies rest in
        (out, Request attempt :: Warn attempt :: Sleep (attempt + 1) :: evs) in
      match replies attempt with
      | Reply status (Some body) =>
          if (status =? 200)%Z then (body, [Request attempt]) else again
      | _ => again
      end
  end.

(** [fetch_json(session, url, params)] *)
Definition fetch_json (replies : nat -> reply) : json * list net_event :=
  attempts replies [0; 1; 2].

(** [post_json(session, url, payload)] *)
Definition post_json (replies : nat -> reply) : json * list net_event :=
  attempts replies [0; 1; 2].

Definition is_request (e : net_event) : bool :=
  match e with Request _ => true | _ => false end.

Definition requests (evs : list net_event) : nat := length (filter is_request evs).

Fixpoint slept (evs : list net_event) : nat :=
  match evs with
  | [] => 0
  | Sleep s :: evs' => s + slept evs'
  | _ :: evs' => slept evs'
  end.

(** Whether the attempt ends the loop. *)
Definition good (r : reply) : bool :=
  match r with
  | Reply status (Some _) => (status =? 200)%Z
  | _ => false
  end.

(** What the three attempts come to: the body of the first good reply,
    after one request per attempt so far and a back-off of 1 + ... + k
    seconds; or the empty object after three requests and six seconds. *)
Definition retry_outcome (replies : nat -> reply) (res : json * list net_event) : Prop :=
  (exists k body,
      k < 3 /\ replies k = Reply 200 (Some body)
      /\ (forall j, j < k -> good (replies j) = false)
      /\ fst res = body
      /\ requests (snd res) = k + 1
      /\ slept (snd res) = k * (k + 1) / 2)
  \/ ((forall k, k < 3 -> good (replies k) = false)
      /\ fst res = JObj []
      /\ requests (snd res) = 3
      /\ slept (snd res) = 6).

(** [search_cheapest_by_rarity], from the answer [data] of [post_json] on:
    [data[:1]] of a list, else [(data.get("items") or [])[:1]], which is a
    list, a one-character string, or an error. *)
Definition search_cheapest_by_rarity (data : json) : res json :=
  match data with
  | JArr l => Ok (JArr (firstn 1 l))
  | _ =>
      let* items := Extractors.get_or_arr data "items" in
      match items with
      | JArr l => Ok (JArr (firstn 1 l))
      | JStr s => Ok (JStr (PyStr.take 1 s))
      | _ => Raised
      end
  end.

Fixpoint chars (s : string) : list json :=
  match s with
  | EmptyString => []
  | String c s' => JStr (String c EmptyString) :: chars s'
  end.

(** [items.extend(lst)], for what [search_cheapest_by_rarity] returns. *)
Definition extend (items : list json) (lst : json) : res (list json) :=
  match lst with
  | JArr l => Ok (items ++ l)
  | JStr s => Ok (items ++ chars s)
  | _ => Raised
  end.

End Net.

(** ** One iteration of the poll loop *)

Module Pipeline.
Import PyStr Py Normalizers Extractors Store Engine.
Local Open Scope list_scope.

Definition collection_hyphen : string :=
  "POLYGON-0xd8156606d2bf60c12d55f561395d29ba3c5ccc63".

Section WithOracles.
(** [str(v)] of a value that is not a [str]. *)
Variable repr : json -> string.
(** [float(s)] for a [str]; [None] is ValueError. *)
Variable py_float : string -> option float.
(** The GET of a metadata URL: the parsed body of a 200 response, [None]
    for any other status or an exception. *)
Variable meta_get : string -> option json.

(** [fetch_metadata(session, uri)] *)
Definition fetch_metadata (uri : json) : json :=
  match uri with
  | JStr u =>
      if nonempty u then
        match meta_get (_normalize_ipfs u) with
        | Some data => data
        | None => JObj []
        end
      else JObj []
  | _ => JObj []
  end.

(** [extract_from_metadata(session, item)]: lines 188-190, then the rest. *)
Definition metadata_of (item : json) : res Metadata.extracted :=
  let* meta_block := get_or_obj item "meta" in
  let* metadata_uri := get meta_block "metadataUri" in
  Metadata.extract_from_metadata repr (fetch_metadata metadata_uri).

(** [_parse_price(price_str)] *)
Definition _parse_price (price_str : option string) : option float :=
  match price_str with
  | None => None
  | Some s => py_float s
  end.

(** [_enrich(it, rate)] *)
Definition _enrich (it : json) (rate : option float) : res result :=
  let* image0 := extract_image_url repr it in
  let* meta_extracted := metadata_of it in
  let image_url := match truthy_str image0 with
                   | Some u => Some u
                   | None => Metadata.ex_image_url meta_extracted
                   end in
  let* preview0 := extract_preview_url repr it (Metadata.ex_image_url meta_extracted) in
  let preview_url := match truthy_str preview0 with
                     | Some u => Some u
                     | None => image_url
                     end in
  let* pc := extract_price repr it in
  let* token_id := get it "tokenId" in
  let* item_id := get it "id" in
  let rarible_url := match item_id with
                     | JStr s => Some ("https://og.rarible.com/token/" +:+ s)
                     | _ => None
                     end in
  let opensea_url := match token_id with
                     | JStr s => Some ("https://opensea.io/item/pol/"
                                       +:+ collection_hyphen +:+ "/" +:+ s)
                     | _ => None
                     end in
  let* rarity := extract_rarity it (Metadata.ex_rarity meta_extracted) in
  let price_val := _parse_price (fst pc) in
  let price_usd := match rate, price_val with
                   | Some rt, Some v => Some (v * rt)%float
                   | _, _ => None
                   end in
  Ok {| r_image_url := image_url;
        r_preview_url := preview_url;
        r_price := fst pc;
        r_currency := snd pc;
        r_rarible_url := rarible_url;
        r_opensea_url := opensea_url;
        r_token_id := token_id;
        r_item_id := item_id;
        r_rarity := rarity;
        r_price_usd := price_usd |}.

(** [asyncio.gather] of the enrichments: the first exception ends it. *)
Fixpoint enrich_all (items : list json) (rate : option float) : res (list result) :=
  match items with
  | [] => Ok []
  | it :: rest =>
      let* r := _enrich it rate in
      let* rs := enrich_all rest rate in
      Ok (r :: rs)
  end.

(** Lines 587-592: the answers of the five searches, joined. [found] gives
    the answer of [post_json] for a rarity. *)
Fixpoint collect (found : string -> json) (rarities : list string)
         (items : list json) : res (list json) :=
  match rarities with
  | [] => Ok items
  | r :: rest =>
      let* lst := Net.search_cheapest_by_rarity (found r) in
      let* items' := Net.extend items lst in
      collect found rest items'
  end.

(** Lines 581-651: one pass of the [while] body, [tick] already
    incremented. [Raised] is an exception that leaves [run]. *)
Definition iteration (cfg : config) (w : world) (rate : option float)
           (found : string -> json) (tick : Z) (d : db)
  : res (db * list event) :=
  let* items := collect found Commands.rarities [] in
  let* results := enrich_all items rate in
  Ok (run_tick cfg w tick d results).

End WithOracles.

End Pipeline.

(** ** Start-up migration and the [/current] command *)

Module Admin.
Import Store.
Local Open Scope list_scope.

(** The [UPDATE] of [ensure_threshold_column]:
    [threshold_percent = COALESCE(threshold_percent, 50)] on every row. *)
Definition ensure_threshold_column (d : db) : db :=
  {| floors :=
       (fun row => {| price := price row;
                      updated_at := updated_at row;
                      threshold_percent :=
                        Some (match threshold_percent row with
                              | Some t => t
                              | None => 50%float
                              end) |}) <$> floors d;
     notifications := notifications d |}.

Inductive current_event :=
| CurrentReply (lines : list (string * float))   (* one "name -> percent" line each *)
| FailedReply                                    (* "Failed to fetch current thresholds" *)
| LogFailed.

(** Lines 532-536: the lines of the answer. *)
Definition current_lines (d : db) : list (string * float) :=
  map (fun rname => (rname, get_threshold d rname)) Commands.rarities.

(** [_handle_current] for a message with the given [text]; [bot_send]
    tells whether a Bot API call returns normally. *)
Definition _handle_current (bot_send : bool) (d : db) (text : option string)
  : list current_event :=
  match text with
  | None => []
  | Some t =>
      if negb (PyStr.nonempty t) then []
      else if bot_send then [CurrentReply (current_lines d)]
           else [CurrentReply (current_lines d); LogFailed; FailedReply]
  end.

End Admin.

(** ** Sample marketplace data *)

Module Samples.

(** A listed item as the marketplace search returns it. *)
Definition item : json :=
  JObj [("id", JStr "POLYGON-0xd8:7"); ("tokenId", JStr "7");
        ("blockchain", JStr "POLYGON");
        ("meta", JObj [("content", JArr [JObj [("@type", JStr "IMAGE");
                                               ("representation", JStr "ORIGINAL");
                                               ("url", JStr "ipfs://QmA/7.png")]])]);
        ("properties", JObj [("attributes", JArr [JObj [("key", JStr "Rarity");
                                                        ("value", JStr "Rare")]])]);
        ("bestSellOrder",
         JObj [("take", JObj [("value", JStr "30000000000000000");
                              ("assetType", JObj [("assetClass", JStr "ETH")])])])].

(** The answers of the five searches: listings for "Rare" only. *)
Definition found (rarity : string) : json :=
  if String.eqb rarity "Rare" then JObj [("items", JArr [item; item])] else JObj [].

(** [float] on the literals that occur in the samples. *)
Definition py_float (s : string) : option float :=
  if String.eqb s "0.03" then Some 0.03%float
  else if String.eqb s "25" then Some 25%float
  else None.

End Samples.

(** ** Counting on traces *)

Module Count.
Import Engine.
Local Open Scope list_scope.

Definition is_http_get (e : event) : bool :=
  match e with HttpGet _ => true | _ => false end.
Definition is_text (e : event) : bool :=
  match e with SendMessage _ _ => true | _ => false end.

(** How many events of a trace satisfy [f]. *)
Fixpoint count (f : event -> bool) (evs : list event) : nat :=
  match evs with
  | [] => 0
  | e :: evs' => (if f e then 1 else 0) + count f evs'
  end.

(** The number of Bot API calls and of image requests in a trace. *)
Definition bot_calls (evs : list event) : nat := count Obs.is_send evs.
Definition image_requests (evs : list event) : nat := count is_http_get evs.
Definition text_messages (evs : list event) : nat := count is_text evs.

End Count.

(** ** Shapes of values used to state the further properties *)

Module Shape.

(** The string is a value of [_normalize_ipfs]. *)
Definition normalized (u : string) : Prop :=
  exists x, u = Normalizers._normalize_ipfs x.

(** No [ipfs://] scheme in front and no white space at either end. *)
Definition gateway_ready (u : string) : Prop :=
  PyStr.startswith u "ipfs://" = false /\ Obs.edge_free PyStr.is_space u.

(** The symbol lines 150-155 give for an asset class (in capitals) on a
    blockchain (in capitals). *)
Definition symbol_for (asset_class blockchain : string) : option string :=
  if String.eqb asset_class "ETH" || String.eqb asset_class "NATIVE"
  then Some (if String.eqb blockchain "POLYGON" then "MATIC" else "ETH")
  else if String.eqb asset_class "ERC20" then Some "ERC20"
  else if PyStr.nonempty asset_class then Some asset_class else None.

(** The record can only write to the [floors] rows [okf] and to the
    [notifications] records [oki]. *)
Definition writes_within (okf oki : string -> Prop) (r : Engine.result) : Prop :=
  (forall ra, Engine.r_rarity r = Some ra -> okf ra)
  /\ (forall i, Engine.r_item_id r = JStr i -> oki i).

(** What a trace puts on the wire, in the order of the trace: the image
    requests and the Bot API calls. *)
Definition on_wire (evs : list Engine.event) : list Engine.event :=
  List.filter Obs.is_transport evs.

(** The exchanges a record can have with the outside (lines 616-637), by
    the answers it gets: none; the image request alone, when it raises or
    its body cannot be read; the image request and the photo; the image
    request answered with a status other than 200 and the retry at the
    fallback address, alone, or followed by the photo, or, when the retry
    too is answered with a status other than 200, by the text message. *)
Inductive wire (w : Engine.world) : list Engine.event -> Prop :=
| WireNone : wire w []
| WireFailed u :
    Engine.http_get w u = Engine.HttpRaised
    \/ Engine.http_get w u = Engine.HttpResponse 200 None ->
    wire w [Engine.HttpGet u]
| WirePhoto u content ch ra tok cap :
    Engine.http_get w u = Engine.HttpResponse 200 (Some content) ->
    wire w [Engine.HttpGet u; Engine.SendPhoto ch content ra tok cap]
| WireRetryFailed u st c :
    Engine.http_get w u = Engine.HttpResponse st c -> st <> 200%Z ->
    Engine.http_retry w (Engine.alt_url u) = Engine.HttpRaised
    \/ Engine.http_retry w (Engine.alt_url u) = Engine.HttpResponse 200 None ->
    wire w [Engine.HttpGet u; Engine.HttpGet (Engine.alt_url u)]
| WireRetryPhoto u st c content ch ra tok cap :
    Engine.http_get w u = Engine.HttpResponse st c -> st <> 200%Z ->
    Engine.http_retry w (Engine.alt_url u) = Engine.HttpResponse 200 (Some content) ->
    wire w [Engine.HttpGet u; Engine.HttpGet (Engine.alt_url u);
            Engine.SendPhoto ch content ra tok cap]
| WireText u st c st' c' ch cap :
    Engine.http_get w u = Engine.HttpResponse st c -> st <> 200%Z ->
    Engine.http_retry w (Engine.alt_url u) = Engine.HttpResponse st' c' ->
    st' <> 200%Z ->
    wire w [Engine.HttpGet u; Engine.HttpGet (Engine.alt_url u);
            Engine.SendMessage ch cap].

(** No two records of the list have the same rarity. *)
Fixpoint distinct_rarities (rs : list Engine.result) : Prop :=
  match rs with
  | [] => True
  | r :: rs' =>
      Forall (fun r' => Engine.r_rarity r' = None
                        \/ Engine.r_rarity r' <> Engine.r_rarity r) rs'
      /\ distinct_rarities rs'
  end.

End Shape.

(** * Properties *)

(** ** Comparisons of floats *)

Lemma SFcompare_swap (x y : spec_float) :
  SFcompare y x = option_map CompOpp (SFcompare x y).
Proof.
  destruct x as [sx| sx | | sx mx ex], y as [sy | sy | | sy my ey]; simpl;
    try reflexivity;
    try (destruct sx; reflexivity); try (destruct sy; reflexivity);
    try (destruct sx, sy; reflexivity).
  change (Pos.compare_cont Eq my mx) with (my ?= mx)%positive.
  change (Pos.compare_cont Eq mx my) with (mx ?= my)%positive.
  rewrite (Z.compare_antisym ey ex), (Pos.compare_antisym my mx).
  destruct sx, sy; simpl; try reflexivity;
    destruct (ey ?= ex)%Z; simpl; rewrite ?CompOpp_involutive; reflexivity.
Qed.

Lemma leb_ltb_false (a b : float) :
  PrimFloat.leb a b = true -> PrimFloat.ltb b a = false.
Proof.
  rewrite FloatAxioms.leb_spec, FloatAxioms.ltb_spec. unfold SFleb, SFltb.
  rewrite (SFcompare_swap (Prim2SF a) (Prim2SF b)).
  destruct (SFcompare (Prim2SF a) (Prim2SF b)) as [[]|]; simpl; congruence.
Qed.

Lemma ltb_leb_false (a b : float) :
  PrimFloat.ltb a b = true -> PrimFloat.leb b a = false.
Proof.
  rewrite FloatAxioms.leb_spec, FloatAxioms.ltb_spec. unfold SFleb, SFltb.
  rewrite (SFcompare_swap (Prim2SF a) (Prim2SF b)).
  destruct (SFcompare (Prim2SF a) (Prim2SF b)) as [[]|]; simpl; congruence.
Qed.

Lemma SFcompare_refl (x : spec_float) :
  x <> S754_nan -> SFcompare x x = Some Eq.
Proof.
  destruct x as [s | s | | s m e]; simpl; intros H; try congruence.
  - now destruct s.
  - rewrite Z.compare_refl.
    change (Pos.compare_cont Eq m m) with (m ?= m)%positive.
    rewrite Pos.compare_refl. now destruct s.
Qed.

Lemma SFcompare_some_r (x y : spec_float) c :
  SFcompare x y = Some c -> y <> S754_nan.
Proof. destruct x, y; simpl; congruence. Qed.

Lemma SFcompare_some_l (x y : spec_float) c :
  SFcompare x y = Some c -> x <> S754_nan.
Proof. destruct x, y; simpl; congruence. Qed.

Lemma not_nan_of_SF (x : float) :
  Prim2SF x <> S754_nan -> PrimFloat.is_nan x = false.
Proof.
  intros H. unfold PrimFloat.is_nan. rewrite FloatAxioms.eqb_spec. unfold SFeqb.
  now rewrite SFcompare_refl.
Qed.

Lemma ltb_not_nan_r (a b : float) :
  PrimFloat.ltb a b = true -> PrimFloat.is_nan b = false.
Proof.
  rewrite FloatAxioms.ltb_spec. unfold SFltb. intros H. apply not_nan_of_SF.
  destruct (SFcompare (Prim2SF a) (Prim2SF b)) eqn:E; [|discriminate].
  eapply SFcompare_some_r; eauto.
Qed.

Lemma ltb_eqb_false (a b : float) :
  PrimFloat.ltb a b = true -> PrimFloat.eqb b a = false.
Proof.
  rewrite FloatAxioms.eqb_spec, FloatAxioms.ltb_spec. unfold SFeqb, SFltb.
  rewrite (SFcompare_swap (Prim2SF a) (Prim2SF b)).
  destruct (SFcompare (Prim2SF a) (Prim2SF b)) as [[]|]; simpl; congruence.
Qed.

Lemma sql_real_in_range (x : float) :
  PrimFloat.ltb 0 x = true -> Store.sql_real x = Some x.
Proof.
  intros H. unfold Store.sql_real.
  now rewrite (ltb_not_nan_r _ _ H), (ltb_eqb_false _ _ H).
Qed.

(** ** The engine: shape of a trace *)

Section EngineFacts.
Import Engine Store Obs Outcome.
Local Open Scope list_scope.

Variables (cfg : config) (w : world).

Lemma deliver_transport ch u ra tok cap :
  forallb is_transport (snd (deliver w ch u ra tok cap)) = true.
Proof.
  unfold deliver.
  repeat match goal with
         | |- context [match ?x with _ => _ end] => destruct x
         end; reflexivity.
Qed.

Lemma transport_quiet (f : event -> bool) (evs : list event) :
  (forall e, is_transport e = true -> f e = false) ->
  forallb is_transport evs = true -> existsb f evs = false.
Proof.
  intros Hf. induction evs as [|e evs IH]; simpl; [reflexivity|].
  intros H. apply andb_true_iff in H as [He Hevs].
  now rewrite (Hf e He), IH.
Qed.

Lemma transport_not_trigger e : is_transport e = true -> is_trigger e = false.
Proof. now destruct e. Qed.
Lemma transport_not_compare e : is_transport e = true -> is_compare e = false.
Proof. now destruct e. Qed.
Lemma transport_not_sending e : is_transport e = true -> is_sending e = false.
Proof. now destruct e. Qed.
Lemma transport_not_sent e : is_transport e = true -> is_sent e = false.
Proof. now destruct e. Qed.
Lemma transport_not_floor_write e : is_transport e = true -> is_floor_write e = false.
Proof. now destruct e. Qed.

Lemma alert_branch_outcome d r ps p f th :
  branch_outcome cfg w d r p (fst (alert_branch cfg w d r ps p f th))
                 (snd (alert_branch cfg w d r ps p f th)).
Proof.
  unfold alert_branch.
  destruct (should_notify (last_notified d r) p && bot cfg) eqn:Hgate.
  2:{ simpl. apply Gated; [reflexivity | now left]. }
  apply andb_true_iff in Hgate as [Hsn Hbot].
  destruct (truthy_str (channel_id cfg)) as [ch|] eqn:Hch.
  2:{ simpl. apply Gated; [reflexivity | right; now left]. }
  destruct (truthy_str (r_image_url r)) as [img|] eqn:Himg.
  2:{ simpl. apply Gated; [reflexivity | right; now right]. }
  match goal with
  | |- context [deliver ?a ?b ?c ?e ?g ?h] =>
      pose proof (deliver_transport b c e g h) as Ht;
      destruct (deliver a b c e g h) as [ok sent]
  end.
  simpl in Ht. destruct ok.
  - rewrite (surjective_pairing (commit w d r p)). simpl. now apply Delivered.
  - simpl. now apply Failed.
Qed.

End EngineFacts.

(** ** The state store *)

Section StoreFacts.
Import Store.

Lemma get_floor_set_floor d ra p ts :
  get_floor (set_floor d ra p ts) ra = sql_real (PyFloat.round2 p).
Proof.
  unfold get_floor, set_floor; simpl. rewrite lookup_insert_eq.
  now destruct (floors d !! ra).
Qed.

Lemma get_floor_set_floor_ne d ra ra' p ts :
  ra <> ra' -> get_floor (set_floor d ra p ts) ra' = get_floor d ra'.
Proof.
  intros Hne. unfold get_floor, set_floor; simpl.
  now rewrite lookup_insert_ne.
Qed.

Lemma floors_set_floor_ne d ra ra' p ts :
  ra <> ra' -> floors (set_floor d ra p ts) !! ra' = floors d !! ra'.
Proof. intros Hne. unfold set_floor; simpl. now rewrite lookup_insert_ne. Qed.

Lemma get_threshold_set_floor d ra ra' p ts :
  get_threshold (set_floor d ra p ts) ra' = get_threshold d ra'.
Proof.
  unfold get_threshold, set_floor; simpl.
  destruct (decide (ra = ra')) as [->|Hne].
  - rewrite lookup_insert_eq. now destruct (floors d !! ra').
  - now rewrite lookup_insert_ne.
Qed.

Lemma notifications_set_floor d ra p ts :
  notifications (set_floor d ra p ts) = notifications d.
Proof. reflexivity. Qed.

Lemma floors_set_notified d i p ts :
  floors (set_notified d i p ts) = floors d.
Proof. reflexivity. Qed.

Lemma get_floor_set_notified d i p ts ra :
  get_floor (set_notified d i p ts) ra = get_floor d ra.
Proof. reflexivity. Qed.

Lemma get_notified_set_notified d i p ts :
  get_notified (set_notified d i p ts) i = sql_real (PyFloat.round2 p).
Proof. unfold get_notified, set_notified; simpl. now rewrite lookup_insert_eq. Qed.

Lemma get_notified_set_floor d ra p ts i :
  get_notified (set_floor d ra p ts) i = get_notified d i.
Proof. reflexivity. Qed.

Lemma get_floor_set_threshold d ra ra' t :
  get_floor (set_threshold d ra t) ra' = get_floor d ra'.
Proof.
  unfold get_floor, set_threshold; simpl.
  destruct (decide (ra = ra')) as [->|Hne].
  - rewrite lookup_insert_eq. now destruct (floors d !! ra').
  - now rewrite lookup_insert_ne.
Qed.

Lemma get_threshold_set_threshold d ra t :
  get_threshold (set_threshold d ra t) ra =
  match sql_real t with Some v => v | None => 50%float end.
Proof.
  unfold get_threshold, set_threshold; simpl. rewrite lookup_insert_eq.
  now destruct (floors d !! ra).
Qed.

Lemma floors_set_threshold_ne d ra ra' t :
  ra <> ra' -> floors (set_threshold d ra t) !! ra' = floors d !! ra'.
Proof. intros Hne. unfold set_threshold; simpl. now rewrite lookup_insert_ne. Qed.

End StoreFacts.

(** ** The cadence of floor writes *)

Section CadenceFacts.
Import Engine Store Obs.
Local Open Scope list_scope.

Variable w : world.

Lemma cadence_absent tick d rarity price_usd :
  rarity = None \/ price_usd = None -> cadence w tick d rarity price_usd = (d, []).
Proof.
  unfold cadence. intros [-> | ->]; [now destruct price_usd | reflexivity].
Qed.

Lemma cadence_idle tick d rarity price_usd :
  tick <> 1%Z -> (tick mod 3 <> 0)%Z ->
  cadence w tick d rarity price_usd = (d, []).
Proof.
  intros H1 H3. unfold cadence.
  apply Z.eqb_neq in H1, H3. rewrite H1, H3.
  now destruct price_usd, rarity.
Qed.

Lemma cadence_sets tick d ra p :
  tick = 1%Z \/ (tick mod 3 = 0)%Z ->
  get_floor (fst (cadence w tick d (Some ra) (Some p))) ra
    = sql_real (PyFloat.round2 p)
  /\ existsb is_cadence_write (snd (cadence w tick d (Some ra) (Some p))) = true.
Proof.
  intros H. unfold cadence.
  destruct (tick =? 1)%Z eqn:E1, (tick mod 3 =? 0)%Z eqn:E3; simpl;
    rewrite ?get_floor_set_floor; auto.
  apply Z.eqb_neq in E1, E3. now destruct H.
Qed.

Lemma cadence_keeps tick d ra p :
  get_floor d ra = sql_real (PyFloat.round2 p) ->
  get_floor (fst (cadence w tick d (Some ra) (Some p))) ra
    = sql_real (PyFloat.round2 p).
Proof.
  intros H. unfold cadence.
  destruct (tick =? 1)%Z, (tick mod 3 =? 0)%Z; simpl;
    rewrite ?get_floor_set_floor; auto.
Qed.

Lemma cadence_notifications tick d rarity price_usd :
  notifications (fst (cadence w tick d rarity price_usd)) = notifications d.
Proof.
  unfold cadence.
  destruct price_usd, rarity, (tick =? 1)%Z, (tick mod 3 =? 0)%Z; reflexivity.
Qed.

Lemma cadence_quiet (f : event -> bool) tick d rarity price_usd :
  (forall e, is_cadence_write e = true -> f e = false) ->
  existsb f (snd (cadence w tick d rarity price_usd)) = false.
Proof.
  intros Hf. unfold cadence.
  destruct price_usd, rarity, (tick =? 1)%Z, (tick mod 3 =? 0)%Z; simpl;
    rewrite ?Hf; reflexivity.
Qed.

End CadenceFacts.

(** ** One record of one tick *)

Section StepFacts.
Import Engine Store Obs Outcome.
Local Open Scope list_scope.

Variables (cfg : config) (w : world).

Lemma alert_step_absent d r :
  r_price_usd r = None \/ floor_of d r = None -> alert_step cfg w d r = (d, []).
Proof.
  unfold alert_step. intros [-> | ->]; [reflexivity | now destruct (r_price_usd r)].
Qed.

Lemma alert_step_quiet d r p f :
  r_price_usd r = Some p -> floor_of d r = Some f ->
  alert_fires (Some p) (Some f) (threshold_of d r) = false ->
  exists cmp, is_compare cmp = true /\ alert_step cfg w d r = (d, [cmp]).
Proof.
  intros Hp Hf Hno. unfold alert_step. rewrite Hp, Hf, Hno.
  eexists; split; [|reflexivity]; reflexivity.
Qed.

Lemma alert_step_fired d r p f :
  r_price_usd r = Some p -> floor_of d r = Some f ->
  alert_fires (Some p) (Some f) (threshold_of d r) = true ->
  exists cmp d1 ev1,
    is_compare cmp = true
    /\ alert_step cfg w d r = (d1, cmp :: ev1)
    /\ branch_outcome cfg w d r p d1 ev1.
Proof.
  intros Hp Hf Hyes. unfold alert_step. rewrite Hp, Hf, Hyes.
  pose proof (alert_branch_outcome cfg w d r (price_str_of r) p f (threshold_of d r)) as Ho.
  destruct (alert_branch cfg w d r (price_str_of r) p f (threshold_of d r)) as [d1 ev1].
  simpl in Ho. eexists _, d1, ev1. repeat split; [reflexivity | exact Ho].
Qed.

Lemma process_result_unfold tick d r :
  process_result cfg w tick d r =
  (fst (cadence w tick (fst (alert_step cfg w d r)) (r_rarity r) (r_price_usd r)),
   snd (alert_step cfg w d r)
   ++ snd (cadence w tick (fst (alert_step cfg w d r)) (r_rarity r) (r_price_usd r))).
Proof.
  unfold process_result. destruct (alert_step cfg w d r) as [d1 ev1]; simpl.
  now destruct (cadence w tick d1 (r_rarity r) (r_price_usd r)).
Qed.

(** The commit after a delivery. *)
Lemma commit_floor d r p ra :
  r_rarity r = Some ra ->
  get_floor (fst (commit w d r p)) ra = sql_real (PyFloat.round2 p).
Proof.
  intros Hra. unfold commit. rewrite Hra.
  destruct (r_item_id r); simpl;
    rewrite ?get_floor_set_notified; apply get_floor_set_floor.
Qed.

Lemma commit_notified d r p item_id :
  r_item_id r = JStr item_id ->
  notifications (fst (commit w d r p))
  = <[item_id := {| last_price := sql_real (PyFloat.round2 p); last_at := now w |}]>
      (notifications d).
Proof. intros Hid. unfold commit. rewrite Hid. now destruct (r_rarity r). Qed.

Lemma commit_no_id d r p :
  Py.is_str (r_item_id r) = false ->
  notifications (fst (commit w d r p)) = notifications d.
Proof.
  intros Hid. unfold commit.
  destruct (r_item_id r); try discriminate; now destruct (r_rarity r).
Qed.

Lemma commit_quiet (f : event -> bool) d r p :
  (forall ra q, f (LogFloorImmediate ra q) = false) ->
  existsb f (snd (commit w d r p)) = false.
Proof.
  intros Hf. unfold commit. destruct (r_rarity r); simpl; rewrite ?Hf; reflexivity.
Qed.

(** Reading an outcome of the trigger branch off its trace. *)
Lemma outcome_triggered d r p d1 ev1 :
  branch_outcome cfg w d r p d1 ev1 -> triggered ev1 = true.
Proof.
  unfold triggered. destruct 1 as [t Ht ?| t s sent Ht | t s sent Ht ];
    simpl; now rewrite Ht.
Qed.

Lemma outcome_not_compared d r p d1 ev1 :
  branch_outcome cfg w d r p d1 ev1 -> compared ev1 = false.
Proof.
  unfold compared.
  destruct 1 as [t Ht ?| t s sent Ht Hs Hsent | t s sent Ht Hs Hsent]; simpl.
  - now destruct t.
  - rewrite existsb_app, (transport_quiet _ _ transport_not_compare Hsent).
    now destruct t, s.
  - rewrite existsb_app, (transport_quiet _ _ transport_not_compare Hsent).
    destruct t, s; try discriminate; simpl. now apply commit_quiet.
Qed.

Lemma outcome_suppressed d r p d1 ev1 :
  branch_outcome cfg w d r p d1 ev1 ->
  should_notify (last_notified d r) p = false ->
  d1 = d /\ attempted ev1 = false /\ sends ev1 = false /\ completed ev1 = false.
Proof.
  unfold attempted, sends, completed.
  destruct 1 as [t Ht ?| t s sent Ht Hs Hsent Hsn | t s sent Ht Hs Hsent Hsn];
    intros Hno; try congruence.
  simpl. now destruct t.
Qed.

Lemma outcome_attempted d r p d1 ev1 :
  branch_outcome cfg w d r p d1 ev1 ->
  attempted ev1 = true ->
  should_notify (last_notified d r) p = true /\ bot cfg = true.
Proof.
  unfold attempted.
  destruct 1 as [t Ht ?| t s sent Ht Hs Hsent Hsn | t s sent Ht Hs Hsent Hsn];
    intros Ha; auto.
  simpl in Ha. now destruct t.
Qed.

Lemma outcome_sends d r p d1 ev1 :
  branch_outcome cfg w d r p d1 ev1 ->
  sends ev1 = true -> attempted ev1 = true.
Proof.
  unfold sends, attempted.
  destruct 1 as [t Ht ?| t s sent Ht Hs Hsent Hsn | t s sent Ht Hs Hsent Hsn];
    intros Ha; simpl; rewrite ?Hs, ?orb_true_r; auto.
  simpl in Ha. now destruct t.
Qed.

Lemma outcome_completed d r p d1 ev1 :
  branch_outcome cfg w d r p d1 ev1 ->
  completed ev1 = true ->
  d1 = fst (commit w d r p) /\ attempted ev1 = true.
Proof.
  unfold completed, attempted.
  destruct 1 as [t Ht ?| t s sent Ht Hs Hsent Hsn | t s sent Ht Hs Hsent Hsn];
    intros Hc; simpl in *.
  - now destruct t.
  - rewrite existsb_app, (transport_quiet _ _ transport_not_sent Hsent) in Hc.
    now destruct t, s.
  - now rewrite Hs, orb_true_r.
Qed.

Lemma outcome_not_completed d r p d1 ev1 :
  branch_outcome cfg w d r p d1 ev1 ->
  completed ev1 = false -> d1 = d /\ floor_written ev1 = false.
Proof.
  unfold completed, floor_written.
  destruct 1 as [t Ht ?| t s sent Ht Hs Hsent Hsn | t s sent Ht Hs Hsent Hsn];
    intros Hc; simpl in *.
  - now destruct t.
  - rewrite existsb_app, (transport_quiet _ _ transport_not_floor_write Hsent).
    now destruct t, s.
  - rewrite existsb_app in Hc. simpl in Hc.
    now rewrite !orb_true_r in Hc.
Qed.

Lemma outcome_gate_open d r p d1 ev1 ch img :
  branch_outcome cfg w d r p d1 ev1 ->
  should_notify (last_notified d r) p = true -> bot cfg = true ->
  truthy_str (channel_id cfg) = Some ch -> truthy_str (r_image_url r) = Some img ->
  attempted ev1 = true.
Proof.
  unfold attempted.
  destruct 1 as [t Ht Hg| t s sent Ht Hs Hsent Hsn | t s sent Ht Hs Hsent Hsn];
    intros Hsn' Hbot Hch Himg; simpl; rewrite ?Hs, ?orb_true_r; auto.
  rewrite Hsn', Hbot in Hg. simpl in Hg. destruct Hg as [?|[?|?]]; congruence.
Qed.

End StepFacts.

Arguments outcome_triggered {cfg w d r p d1 ev1}.
Arguments outcome_not_compared {cfg w d r p d1 ev1}.
Arguments outcome_suppressed {cfg w d r p d1 ev1}.
Arguments outcome_attempted {cfg w d r p d1 ev1}.
Arguments outcome_sends {cfg w d r p d1 ev1}.
Arguments outcome_completed {cfg w d r p d1 ev1}.
Arguments outcome_not_completed {cfg w d r p d1 ev1}.
Arguments outcome_gate_open {cfg w d r p d1 ev1} ch img.

Section ResultFacts.
Import Engine Store Obs Outcome.
Local Open Scope list_scope.

Variables (cfg : config) (w : world).

(** The three ways one record is processed: nothing to compare, compared
    without a trigger, or compared and triggered. *)
Lemma process_result_cases tick d r :
  let c d1 := cadence w tick d1 (r_rarity r) (r_price_usd r) in
  ((r_price_usd r = None \/ floor_of d r = None)
   /\ process_result cfg w tick d r = c d)
  \/ (exists p f cmp,
         r_price_usd r = Some p /\ floor_of d r = Some f
         /\ alert_fires (Some p) (Some f) (threshold_of d r) = false
         /\ is_compare cmp = true
         /\ process_result cfg w tick d r = (fst (c d), cmp :: snd (c d)))
  \/ (exists p f cmp d1 ev1,
         r_price_usd r = Some p /\ floor_of d r = Some f
         /\ alert_fires (Some p) (Some f) (threshold_of d r) = true
         /\ is_compare cmp = true
         /\ branch_outcome cfg w d r p d1 ev1
         /\ process_result cfg w tick d r = (fst (c d1), cmp :: ev1 ++ snd (c d1))).
Proof.
  intros c. rewrite process_result_unfold. fold (c (fst (alert_step cfg w d r))).
  destruct (r_price_usd r) as [p|] eqn:Hp.
  2:{ left. split; [now left|].
      rewrite alert_step_absent by now left. simpl.
      symmetry. apply cadence_absent. now right. }
  destruct (floor_of d r) as [f|] eqn:Hf.
  2:{ left. split; [now right|].
      rewrite alert_step_absent by now right. simpl. now destruct (c d). }
  destruct (alert_fires (Some p) (Some f) (threshold_of d r)) eqn:Ha.
  - right; right.
    destruct (alert_step_fired cfg w d r p f Hp Hf Ha) as (cmp & d1 & ev1 & Hc & He & Ho).
    exists p, f, cmp, d1, ev1. rewrite He. simpl. repeat split; auto.
  - right; left.
    destruct (alert_step_quiet cfg w d r p f Hp Hf Ha) as (cmp & Hc & He).
    exists p, f, cmp. rewrite He. simpl. repeat split; auto.
Qed.

Lemma compare_not_trigger e : is_compare e = true -> is_trigger e = false.
Proof. now destruct e. Qed.
Lemma compare_not_sending e : is_compare e = true -> is_sending e = false.
Proof. now destruct e. Qed.
Lemma compare_not_send e : is_compare e = true -> is_send e = false.
Proof. now destruct e. Qed.
Lemma compare_not_sent e : is_compare e = true -> is_sent e = false.
Proof. now destruct e. Qed.
Lemma cadence_write_not_trigger e : is_cadence_write e = true -> is_trigger e = false.
Proof. now destruct e. Qed.
Lemma cadence_write_not_compare e : is_cadence_write e = true -> is_compare e = false.
Proof. now destruct e. Qed.
Lemma cadence_write_not_sending e : is_cadence_write e = true -> is_sending e = false.
Proof. now destruct e. Qed.
Lemma cadence_write_not_send e : is_cadence_write e = true -> is_send e = false.
Proof. now destruct e. Qed.
Lemma cadence_write_not_sent e : is_cadence_write e = true -> is_sent e = false.
Proof. now destruct e. Qed.

End ResultFacts.

Create HintDb trace.
#[export] Hint Resolve compare_not_trigger compare_not_sending compare_not_send
  compare_not_sent cadence_write_not_trigger cadence_write_not_compare
  cadence_write_not_sending cadence_write_not_send cadence_write_not_sent
  transport_not_trigger transport_not_compare transport_not_sending
  transport_not_sent transport_not_floor_write : trace.

(** C1. For a record with a converted price and a stored floor the
    comparison is made and the alert fires exactly when
    [round(price, 2) <= round(floor * (1 - threshold / 100), 2)]; when the
    price or the stored floor is absent nothing is compared and no alert
    fires. *)
Theorem alert_evaluation (cfg : Engine.config) (w : Engine.world) (tick : Z)
        (d : Store.db) (r : Engine.result) :
  let evs := snd (Engine.process_result cfg w tick d r) in
  match Engine.r_price_usd r, Engine.floor_of d r with
  | Some p, Some f =>
      Obs.compared evs = true
      /\ Obs.triggered evs
         = PrimFloat.leb (PyFloat.round2 p)
             (PyFloat.round2 (f * (1 - Engine.threshold_of d r / 100))%float)
  | _, _ => Obs.compared evs = false /\ Obs.triggered evs = false
  end.
Proof.
  intros evs. subst evs. unfold Obs.compared, Obs.triggered.
  destruct (process_result_cases cfg w tick d r)
    as [[Habs He] | [(p & f & cmp & Hp & Hf & Ha & Hc & He)
                    | (p & f & cmp & d1 & ev1 & Hp & Hf & Ha & Hc & Ho & He)]];
    rewrite He; simpl.
  - rewrite !cadence_quiet by auto with trace.
    destruct Habs as [-> | ->]; [easy | now destruct (Engine.r_price_usd r)].
  - rewrite Hp, Hf, Hc, (compare_not_trigger _ Hc). simpl.
    rewrite cadence_quiet by auto with trace.
    split; [reflexivity | exact (eq_sym Ha)].
  - rewrite Hp, Hf, Hc, (compare_not_trigger _ Hc). simpl.
    rewrite existsb_app. fold (Obs.triggered ev1).
    rewrite (outcome_triggered Ho). simpl.
    split; [reflexivity | exact (eq_sym Ha)].
Qed.

(** The examples of the specification: floor 100.00 and threshold 50 give
    the limit 50.00; the price 50.00 fires and 50.01 does not. *)
Example alert_at_the_limit :
  Obs.triggered (snd (Engine.process_result Fixtures.cfg_on Fixtures.net_up 2
                        (Fixtures.floor_only "Rare" 100)
                        (Fixtures.listing "Rare" (JStr "item-1") 50))) = true
  /\ Obs.triggered (snd (Engine.process_result Fixtures.cfg_on Fixtures.net_up 2
                           (Fixtures.floor_only "Rare" 100)
                           (Fixtures.listing "Rare" (JStr "item-1") 50.01))) = false.
Proof. split; vm_compute; reflexivity. Qed.

(** C2. When the alert fires for an item that has a NotificationRecord:
    a stored price [<=] the new price suppresses the alert (nothing is
    attempted or sent, the table is unchanged); a notification is attempted
    or sent only when the new price is strictly below the stored one; and
    the table changes only in that case, the record then holding the new
    price rounded to two decimals. *)
Theorem dedup_rule (cfg : Engine.config) (w : Engine.world) (tick : Z)
        (d : Store.db) (r : Engine.result) (item_id : string) (last p f : float) :
  Engine.r_item_id r = JStr item_id ->
  Store.get_notified d item_id = Some last ->
  Engine.r_price_usd r = Some p ->
  Engine.floor_of d r = Some f ->
  Engine.alert_fires (Some p) (Some f) (Engine.threshold_of d r) = true ->
  let d' := fst (Engine.process_result cfg w tick d r) in
  let evs := snd (Engine.process_result cfg w tick d r) in
  (PrimFloat.leb last p = true ->
   Obs.attempted evs = false /\ Obs.sends evs = false
   /\ Store.notifications d' = Store.notifications d)
  /\ (Obs.attempted evs = true -> PrimFloat.ltb p last = true)
  /\ (Obs.sends evs = true -> PrimFloat.ltb p last = true)
  /\ (Store.notifications d' = Store.notifications d
      \/ (PrimFloat.ltb p last = true
          /\ Store.notifications d'
             = <[item_id := {| Store.last_price := Store.sql_real (PyFloat.round2 p);
                               Store.last_at := Engine.now w |}]>
                 (Store.notifications d))).
Proof.
  intros Hid Hlast Hp Hf Ha d' evs. subst d' evs.
  assert (Hsn : Engine.should_notify (Engine.last_notified d r) p = PrimFloat.ltb p last).
  { unfold Engine.last_notified. now rewrite Hid, Hlast. }
  destruct (process_result_cases cfg w tick d r)
    as [[Habs He] | [(p' & f' & cmp & Hp' & Hf' & Ha' & Hc & He)
                    | (p' & f' & cmp & d1 & ev1 & Hp' & Hf' & Ha' & Hc & Ho & He)]].
  - destruct Habs; congruence.
  - congruence.
  - assert (p' = p) by congruence. subst p'. clear Hp' Hf' Ha' f'.
    rewrite He. simpl.
    unfold Obs.attempted, Obs.sends. simpl.
    rewrite !existsb_app, cadence_notifications.
    rewrite !cadence_quiet by auto with trace.
    rewrite (compare_not_sending _ Hc), (compare_not_send _ Hc), !orb_false_r. simpl.
    fold (Obs.attempted ev1) (Obs.sends ev1).
    repeat split.
    + apply (outcome_suppressed Ho).
      rewrite Hsn. now apply leb_ltb_false.
    + apply (outcome_suppressed Ho).
      rewrite Hsn. now apply leb_ltb_false.
    + f_equal. apply (outcome_suppressed Ho).
      rewrite Hsn. now apply leb_ltb_false.
    + intros Hatt. rewrite <- Hsn.
      apply (outcome_attempted Ho Hatt).
    + intros Hs. rewrite <- Hsn.
      apply (outcome_attempted Ho).
      now apply (outcome_sends Ho).
    + destruct (Obs.completed ev1) eqn:Hcomp.
      * right. destruct (outcome_completed Ho Hcomp) as [-> Hatt].
        split.
        -- rewrite <- Hsn. apply (outcome_attempted Ho Hatt).
        -- now apply commit_notified.
      * left. now destruct (outcome_not_completed Ho Hcomp) as [-> _].
Qed.

(** The example of the specification: with 40.00 recorded, an alert at
    45.00 is suppressed and one at 39.00 is sent and recorded as 39.00. *)
Example dedup_at_40 :
  let d := Fixtures.floor_and_record "Rare" 100 "item-1" 40 in
  let run p := Engine.process_result Fixtures.cfg_on Fixtures.net_up 2 d
                 (Fixtures.listing "Rare" (JStr "item-1") p) in
  (Obs.triggered (snd (run 45%float)) = true
   /\ Obs.sends (snd (run 45%float)) = false
   /\ Store.get_notified (fst (run 45%float)) "item-1" = Some 40%float)
  /\ (Obs.triggered (snd (run 39%float)) = true
      /\ Obs.sends (snd (run 39%float)) = true
      /\ Store.get_notified (fst (run 39%float)) "item-1" = Some 39%float).
Proof. intros d run. repeat split; vm_compute; reflexivity. Qed.

Lemma dedup_rule_witness :
  let d := Fixtures.floor_and_record "Rare" 100 "item-1" 40 in
  let r := Fixtures.listing "Rare" (JStr "item-1") 39 in
  let d' := fst (Engine.process_result Fixtures.cfg_on Fixtures.net_up 2 d r) in
  let evs := snd (Engine.process_result Fixtures.cfg_on Fixtures.net_up 2 d r) in
  (PrimFloat.leb 40 39 = true ->
   Obs.attempted evs = false /\ Obs.sends evs = false
   /\ Store.notifications d' = Store.notifications d)
  /\ (Obs.attempted evs = true -> PrimFloat.ltb 39 40 = true)
  /\ (Obs.sends evs = true -> PrimFloat.ltb 39 40 = true)
  /\ (Store.notifications d' = Store.notifications d
      \/ (PrimFloat.ltb 39 40 = true
          /\ Store.notifications d'
             = <["item-1" := {| Store.last_price := Store.sql_real (PyFloat.round2 39);
                                Store.last_at := Engine.now Fixtures.net_up |}]>
                 (Store.notifications d))).
Proof.
  intros d r.
  apply (dedup_rule Fixtures.cfg_on Fixtures.net_up 2 d r "item-1" 40 39 100);
    vm_compute; reflexivity.
Defined.




(** C4. For a record with a rarity and a converted price, the floor is set
    to the rounded price on tick 1 and on every tick divisible by 3,
    whether or not an alert fired; on any other tick on which no alert
    fires the store is unchanged and no floor is written. *)
Theorem floor_cadence (cfg : Engine.config) (w : Engine.world) (tick : Z)
        (d : Store.db) (r : Engine.result) (ra : string) (p : float) :
  Engine.r_rarity r = Some ra ->
  Engine.r_price_usd r = Some p ->
  let d' := fst (Engine.process_result cfg w tick d r) in
  let evs := snd (Engine.process_result cfg w tick d r) in
  (tick = 1%Z \/ (tick mod 3)%Z = 0%Z ->
   Store.get_floor d' ra = Store.sql_real (PyFloat.round2 p)
   /\ existsb Obs.is_cadence_write evs = true)
  /\ (tick <> 1%Z -> (tick mod 3)%Z <> 0%Z -> Obs.triggered evs = false ->
      d' = d /\ Obs.floor_written evs = false).
Proof.
  intros Hra Hp d' evs. subst d' evs.
  rewrite process_result_unfold, Hra, Hp. simpl. split.
  - intros Ht. rewrite existsb_app.
    destruct (cadence_sets w tick (fst (Engine.alert_step cfg w d r)) ra p Ht)
      as [Hfl Hev].
    rewrite Hfl, Hev. now rewrite orb_true_r.
  - intros H1 H3. rewrite cadence_idle by assumption. simpl.
    rewrite app_nil_r.
    destruct (Engine.floor_of d r) as [f|] eqn:Hf.
    2:{ rewrite alert_step_absent by now right. now intros _. }
    destruct (Engine.alert_fires (Some p) (Some f) (Engine.threshold_of d r)) eqn:Ha.
    + destruct (alert_step_fired cfg w d r p f Hp Hf Ha)
        as (cmp & d1 & ev1 & Hc & He & Ho).
      rewrite He. unfold Obs.triggered. simpl.
      fold (Obs.triggered ev1).
      rewrite (outcome_triggered Ho), orb_true_r. discriminate.
    + destruct (alert_step_quiet cfg w d r p f Hp Hf Ha) as (cmp & Hc & He).
      rewrite He. intros _. simpl. split; [reflexivity|].
      unfold Obs.floor_written. simpl. now destruct cmp.
Qed.

(** The example of the specification: prices 10 .. 15 on ticks 1 .. 6 and
    no alert; a floor is written on ticks 1, 3 and 6 only, and the stored
    floor after each tick is 10, 10, 12, 12, 12, 15. *)
Example cadence_six_ticks :
  let obs := map (fun p => (Fixtures.net_up,
                            [Fixtures.listing "Rare" (JStr "item-1") p]))
                 [10; 11; 12; 13; 14; 15]%float in
  let trace := Engine.run Fixtures.cfg_on 0 Store.empty_db obs in
  map (fun s => Obs.triggered (snd s)) trace
    = [false; false; false; false; false; false]
  /\ map (fun s => Obs.floor_written (snd s)) trace
     = [true; false; true; false; false; true]
  /\ map (fun s => Store.get_floor (fst s) "Rare") trace
     = [Some 10; Some 10; Some 12; Some 12; Some 12; Some 15]%float.
Proof. intros obs trace. repeat split; vm_compute; reflexivity. Qed.

Lemma floor_cadence_witness :
  let d := Fixtures.floor_only "Rare" 10 in
  let r := Fixtures.listing "Rare" (JStr "item-1") 12 in
  (Store.get_floor (fst (Engine.process_result Fixtures.cfg_on Fixtures.net_up 3 d r)) "Rare"
   = Some 12%float)
  /\ fst (Engine.process_result Fixtures.cfg_on Fixtures.net_up 4 d r) = d.
Proof.
  intros d r. split.
  - destruct (floor_cadence Fixtures.cfg_on Fixtures.net_up 3 d r "Rare" 12
                eq_refl eq_refl) as [Hset _].
    destruct Hset as [Hfl _]; [right; reflexivity | exact Hfl].
  - destruct (floor_cadence Fixtures.cfg_on Fixtures.net_up 4 d r "Rare" 12
                eq_refl eq_refl) as [_ Hidle].
    apply Hidle; [discriminate | discriminate | vm_compute; reflexivity].
Defined.

Section OpenGateFacts.
Import Engine Store Obs.
Local Open Scope list_scope.

Variables (cfg : config) (w : world).

(** The first request of a delivery is always made. *)
Lemma deliver_first_request ch u ra tok cap :
  In (HttpGet u) (snd (deliver w ch u ra tok cap)).
Proof.
  unfold deliver.
  repeat match goal with
         | |- context [match ?x with _ => _ end] => destruct x
         end; simpl; auto.
Qed.

(** An image served at once is sent as a photo. *)
Lemma deliver_photo ch u ra tok cap content :
  http_get w u = HttpResponse 200 (Some content) ->
  deliver w ch u ra tok cap
  = (bot_send w, [HttpGet u; SendPhoto ch content ra tok cap]).
Proof. intros H. unfold deliver. now rewrite H. Qed.

(** With the gate of line 611 open the trigger branch announces the
    notification and runs the delivery. *)
Lemma alert_branch_open d r ps p f th ch img :
  should_notify (last_notified d r) p = true -> bot cfg = true ->
  truthy_str (channel_id cfg) = Some ch ->
  truthy_str (r_image_url r) = Some img ->
  let u := Normalizers._normalize_ipfs
             (match truthy_str (r_preview_url r) with
              | Some v => v
              | None => img
              end) in
  let cap := {| c_token_id := r_token_id r; c_rarity := r_rarity r;
                c_price := ps; c_floor_price := Some f;
                c_rarible_url := r_rarible_url r;
                c_opensea_url := r_opensea_url r |} in
  exists trig post,
    snd (alert_branch cfg w d r ps p f th)
    = trig :: LogSending (r_rarity r) ch
           :: snd (deliver w ch u (r_rarity r) (r_token_id r) cap) ++ post
    /\ (fst (deliver w ch u (r_rarity r) (r_token_id r) cap) = true ->
        In LogSent post).
Proof.
  intros Hsn Hbot Hch Himg u cap. unfold alert_branch.
  rewrite Hsn, Hbot, Hch, Himg. cbn [andb]. fold u. fold cap.
  destruct (deliver w ch u (r_rarity r) (r_token_id r) cap) as [ok sent].
  destruct ok.
  - destruct (commit w d r p) as [d2 ev1]. cbn [fst snd].
    eexists _, (LogSent :: ev1). split; [reflexivity|]. intros _. now left.
  - cbn [fst snd]. eexists _, [LogSendFailed]. split; [reflexivity | discriminate].
Qed.

(** What the trigger branch emits is part of the trace of the record. *)
Lemma process_result_fired tick d r p f e :
  r_price_usd r = Some p -> floor_of d r = Some f ->
  alert_fires (Some p) (Some f) (threshold_of d r) = true ->
  In e (snd (alert_branch cfg w d r (price_str_of r) p f (threshold_of d r))) ->
  In e (snd (process_result cfg w tick d r)).
Proof.
  intros Hp Hf Ha Hin. rewrite process_result_unfold. cbn [snd].
  apply in_or_app. left. unfold alert_step. rewrite Hp, Hf, Ha.
  destruct (alert_branch cfg w d r (price_str_of r) p f (threshold_of d r)).
  right. exact Hin.
Qed.

End OpenGateFacts.




(** Four ticks: the floor is 100 after tick 1, an item at 40 alerts on
    tick 2, the refresh of tick 3 brings the floor back to 100 and the same
    item at the same price comes back on tick 4. Without an id it is sent
    again; with the id "a" the second alert is suppressed. *)
Example repeated_alert_without_id :
  let other := Fixtures.listing "Rare" (JStr "b") 100 in
  let obs id := [(Fixtures.net_up, [other]);
                 (Fixtures.net_up, [Fixtures.listing "Rare" id 40]);
                 (Fixtures.net_up, [other]);
                 (Fixtures.net_up, [Fixtures.listing "Rare" id 40])] in
  let sent id := map (fun s => Obs.sends (snd s))
                     (Engine.run Fixtures.cfg_on 0 Store.empty_db (obs id)) in
  sent JNull = [false; true; false; true]
  /\ sent (JStr "a") = [false; true; false; false].
Proof. intros other obs sent. split; vm_compute; reflexivity. Qed.

(** C5, at the input where the code and the rule part. The alert
    comparison and both writes round to two decimals, but the dedup
    comparison of line 610 takes the price as it is: with 40.00 recorded
    and the price 39.999 (which rounds to 40.00) the rounded comparison
    does not hold, the code's comparison does, and the alert is sent again
    and recorded again as 40.00. *)
Theorem dedup_compares_unrounded :
  let d := Fixtures.floor_and_record "Rare" 100 "item-1" 40 in
  let r := Fixtures.listing "Rare" (JStr "item-1") 39.999 in
  let d' := fst (Engine.process_result Fixtures.cfg_on Fixtures.net_up 2 d r) in
  let evs := snd (Engine.process_result Fixtures.cfg_on Fixtures.net_up 2 d r) in
  PyFloat.round2 39.999 = 40%float
  /\ Engine.last_notified d r = Some 40%float
  /\ PrimFloat.ltb (PyFloat.round2 39.999) 40 = false
  /\ Engine.should_notify (Engine.last_notified d r) 39.999 = true
  /\ Obs.sends evs = true
  /\ Store.get_notified d' "item-1" = Some 40%float.
Proof. intros d r d' evs. repeat split; vm_compute; reflexivity. Qed.

(** The parts of C5 the code does keep: the alert comparison is made on
    rounded values and both writes persist rounded values. *)
Lemma rounding_kept (d : Store.db) (key : string) (p f th : float) (ts : string) :
  Engine.alert_fires (Some p) (Some f) th
  = PrimFloat.leb (PyFloat.round2 p) (PyFloat.round2 (PyFloat.limit f th))
  /\ Store.get_floor (Store.set_floor d key p ts) key
     = Store.sql_real (PyFloat.round2 p)
  /\ Store.get_notified (Store.set_notified d key p ts) key
     = Store.sql_real (PyFloat.round2 p).
Proof.
  split; [reflexivity | split].
  - apply get_floor_set_floor.
  - apply get_notified_set_notified.
Qed.

(** ** The operator command *)

Lemma mapping_get_rarities (key r : string) :
  Commands.mapping_get key Commands.rarities = Some r ->
  In r Commands.rarities /\ PyStr.nonempty r = true.
Proof.
  unfold Commands.rarities. cbn -[String.eqb In].
  repeat match goal with
         | |- context [String.eqb ?a key] => destruct (String.eqb a key)
         end;
    intros H; inversion H; subst; simpl; intuition.
Qed.

(** C6. A threshold write with a percent [<= 0] or [> 100] leaves the
    store as it is and answers with the percent-range message; with a
    percent in (0, 100] it is accepted: the threshold of that rarity then
    reads as the new percent, whatever it was before, while every floor
    price, every other row and the notification table are unchanged. *)
Theorem threshold_write (py_float : string -> option float) (bot_send : bool)
        (d : Store.db) (part0 part1 rarity_norm : string) (percent : float) :
  Commands.mapping_get (PyStr.lower part0) Commands.rarities = Some rarity_norm ->
  py_float part1 = Some percent ->
  let d' := fst (Commands.handle_parts py_float bot_send d part0 part1) in
  let out := snd (Commands.handle_parts py_float bot_send d part0 part1) in
  (PrimFloat.leb percent 0 = true \/ PrimFloat.ltb 100 percent = true ->
   d' = d /\ out = Commands.send bot_send Commands.PercentBetween)
  /\ (PrimFloat.ltb 0 percent = true -> PrimFloat.leb percent 100 = true ->
      Store.get_threshold d' rarity_norm = percent
      /\ (forall ra, Store.get_floor d' ra = Store.get_floor d ra)
      /\ (forall ra, ra <> rarity_norm ->
                     Store.floors d' !! ra = Store.floors d !! ra)
      /\ Store.notifications d' = Store.notifications d
      /\ out = Commands.send bot_send
                 (Commands.ThresholdUpdated rarity_norm percent)).
Proof.
  intros Hmap Hparse d' out. subst d' out.
  unfold Commands.handle_parts. rewrite Hmap, Hparse.
  destruct (mapping_get_rarities _ _ Hmap) as [_ Hne]. rewrite Hne. simpl.
  split.
  - intros [Hle | Hgt].
    + rewrite (leb_ltb_false _ _ Hle). simpl. now split.
    + rewrite (ltb_leb_false _ _ Hgt), andb_false_r. simpl. now split.
  - intros Hlo Hhi. rewrite Hlo, Hhi. simpl.
    repeat split.
    + rewrite get_threshold_set_threshold. now rewrite (sql_real_in_range _ Hlo).
    + intros ra. apply get_floor_set_threshold.
    + intros ra Hra. apply floors_set_threshold_ne. congruence.
Qed.

(** A parser for the two literals of the examples. *)
Lemma threshold_write_witness :
  let py_float s := if String.eqb s "25" then Some 25%float
                    else if String.eqb s "0" then Some 0%float else None in
  let d := Store.set_threshold (Fixtures.floor_only "Epic" 120) "Epic" 40 in
  let d' := fst (Commands.handle_parts py_float true d "epic" "25") in
  Store.get_threshold d "Epic" = 40%float
  /\ Store.get_threshold d' "Epic" = 25%float
  /\ Store.get_floor d' "Epic" = Some 120%float
  /\ fst (Commands.handle_parts py_float true d "epic" "0") = d.
Proof.
  intros py_float d d'.
  destruct (threshold_write py_float true d "epic" "25" "Epic" 25 eq_refl eq_refl)
    as [_ Hacc].
  destruct Hacc as (Hth & Hfl & _); try (vm_compute; reflexivity).
  destruct (threshold_write py_float true d "epic" "0" "Epic" 0 eq_refl eq_refl)
    as [Hrej _].
  destruct Hrej as [Hsame _]; [left; vm_compute; reflexivity|].
  split; [vm_compute; reflexivity | split; [exact Hth | split]].
  - transitivity (Store.get_floor d "Epic");
      [exact (Hfl "Epic") | vm_compute; reflexivity].
  - exact Hsame.
Defined.

(** The whole handler on message texts. *)
Example set_command_texts :
  let py_float s := if String.eqb s "25" then Some 25%float
                    else if String.eqb s "150" then Some 150%float else None in
  let d := Fixtures.floor_only "Epic" 120 in
  let run t := Commands._handle_set py_float true d (Some t) in
  Store.get_threshold (fst (run "/set epic, 25")) "Epic" = 25%float
  /\ snd (run "/set Epic 25") = [Commands.Reply (Commands.ThresholdUpdated "Epic" 25)]
  /\ run "/set epic, 150" = (d, [Commands.Reply Commands.PercentBetween])
  /\ run "/set epic, many" = (d, [Commands.Reply Commands.PercentBetween])
  /\ run "/set mythic, 25" = (d, [Commands.Reply Commands.RarityOneOf])
  /\ run "/set" = (d, [Commands.Reply Commands.UsageFormat]).
Proof. intros py_float d run. repeat split; vm_compute; reflexivity. Qed.

(** ** Stripping *)

Section StripFacts.
Import PyStr Obs.

Variable p : ascii -> bool.

Lemma rstrip_by_keep c s :
  p c = false -> rstrip_by p (String c s) = String c (rstrip_by p s).
Proof. intros Hc. simpl. rewrite Hc. now destruct (rstrip_by p s). Qed.

Lemma lstrip_by_fixed s :
  (forall c, first_char s = Some c -> p c = false) -> lstrip_by p s = s.
Proof. destruct s as [|c s]; simpl; intros H; [reflexivity|]. now rewrite (H c). Qed.

Lemma rstrip_by_fixed s :
  (forall c, last_char s = Some c -> p c = false) -> rstrip_by p s = s.
Proof.
  induction s as [|c s IH]; intros H; [reflexivity|].
  destruct s as [|c' s'].
  - simpl. now rewrite (H c).
  - change (rstrip_by p (String c (String c' s')))
      with (match rstrip_by p (String c' s') with
            | EmptyString => if p c then EmptyString else String c EmptyString
            | t => String c t
            end).
    rewrite IH; [reflexivity|]. intros x Hx. apply H. exact Hx.
Qed.

Lemma first_lstrip_by s c :
  first_char (lstrip_by p s) = Some c -> p c = false.
Proof.
  induction s as [|a s IH]; simpl; [discriminate|].
  destruct (p a) eqn:Ha; [exact IH|]. simpl. congruence.
Qed.

Lemma first_rstrip_by s :
  (forall c, first_char s = Some c -> p c = false) ->
  forall c, first_char (rstrip_by p s) = Some c -> p c = false.
Proof.
  destruct s as [|a s]; intros H c; [discriminate|].
  rewrite rstrip_by_keep by now apply H. simpl. intros [= <-]. now apply H.
Qed.

Lemma last_rstrip_by s c :
  last_char (rstrip_by p s) = Some c -> p c = false.
Proof.
  revert c. induction s as [|a s IH]; intros c; simpl; [discriminate|].
  destruct (rstrip_by p s) as [|b t] eqn:Hr.
  - destruct (p a) eqn:Ha; simpl; [discriminate | congruence].
  - intros H. apply IH. exact H.
Qed.

Lemma strip_by_edge_free s : edge_free p (strip_by p s).
Proof.
  split.
  - apply first_rstrip_by. intros c. apply first_lstrip_by.
  - intros c. apply last_rstrip_by.
Qed.

Lemma strip_by_fixed s : edge_free p s -> strip_by p s = s.
Proof.
  intros [Hf Hl]. unfold strip_by. rewrite lstrip_by_fixed by exact Hf.
  now apply rstrip_by_fixed.
Qed.

Lemma strip_by_fixed_iff s : strip_by p s = s <-> edge_free p s.
Proof.
  split; [|apply strip_by_fixed].
  intros H. rewrite <- H. apply strip_by_edge_free.
Qed.

Lemma lstrip_by_shorter s :
  lstrip_by p s = s \/ String.length (lstrip_by p s) < String.length s.
Proof.
  induction s as [|c s IH]; simpl; [now left|].
  destruct (p c); [|now left]. right. destruct IH as [-> | IH]; lia.
Qed.

Lemma rstrip_by_shorter s :
  rstrip_by p s = s \/ String.length (rstrip_by p s) < String.length s.
Proof.
  induction s as [|c s IH]; [now left|].
  simpl. destruct IH as [-> | IH].
  - destruct s as [|c' s']; [|now left].
    destruct (p c); [right; simpl; lia | now left].
  - right. destruct (rstrip_by p s) as [|b t].
    + destruct (p c); simpl in *; lia.
    + simpl in *. lia.
Qed.

Lemma strip_by_shorter s :
  strip_by p s = s \/ String.length (strip_by p s) < String.length s.
Proof.
  unfold strip_by.
  destruct (lstrip_by_shorter s) as [-> | Hl]; [apply rstrip_by_shorter|].
  right. destruct (rstrip_by_shorter (lstrip_by p s)) as [-> | Hr]; lia.
Qed.

Lemma strip_by_length s : String.length (strip_by p s) <= String.length s.
Proof. destruct (strip_by_shorter s) as [-> | H]; lia. Qed.

End StripFacts.

(** ** The URI normalizer *)

Section NormalizeFacts.
Import PyStr Obs Normalizers.

Lemma prefix_split (q s : string) :
  String.prefix q s = true -> s = q +:+ drop (String.length q) s.
Proof.
  revert s. induction q as [|a q IH]; intros s; [reflexivity|].
  destruct s as [|b s]; simpl; [discriminate|].
  destruct (ascii_dec a b) as [-> | _]; [|discriminate].
  intros H.
  change (String b s = String b (q +:+ drop (String.length q) s)).
  f_equal. now apply IH.
Qed.

Lemma append_cons (c : ascii) (a t : string) :
  String c a +:+ t = String c (a +:+ t).
Proof. reflexivity. Qed.

Lemma append_nil_l (t : string) : EmptyString +:+ t = t.
Proof. reflexivity. Qed.

Lemma last_char_app (a t : string) :
  t <> EmptyString -> last_char (a +:+ t) = last_char t.
Proof.
  intros Ht. induction a as [|c a IH]; [reflexivity|].
  rewrite append_cons. simpl. rewrite IH.
  destruct (a +:+ t) eqn:E; [|reflexivity].
  destruct a; [rewrite append_nil_l in E; congruence|].
  rewrite append_cons in E. discriminate.
Qed.

Lemma stripped_edge_free uri : edge_free is_space (stripped uri).
Proof. apply strip_by_edge_free. Qed.

Lemma normalize_unfold uri :
  _normalize_ipfs uri =
  if startswith (stripped uri) "ipfs://"
  then "https://ipfs.io/ipfs/" +:+ drop 7 (stripped uri)
  else stripped uri.
Proof.
  unfold _normalize_ipfs, removeprefix.
  now destruct (startswith (stripped uri) "ipfs://").
Qed.

(** A normalized URI has no white space at either end ... *)
Lemma normalize_edge_free uri : edge_free is_space (_normalize_ipfs uri).
Proof.
  rewrite normalize_unfold.
  destruct (startswith (stripped uri) "ipfs://") eqn:Hpre;
    [|apply stripped_edge_free].
  destruct (stripped_edge_free uri) as [_ Hlast].
  apply prefix_split in Hpre. simpl String.length in Hpre.
  set (rest := drop 7 (stripped uri)) in *.
  split.
  - simpl. intros c [= <-]. reflexivity.
  - destruct rest as [|b rest'] eqn:Hrest.
    + simpl. intros c [= <-]. reflexivity.
    + intros c Hc. apply Hlast. rewrite Hpre.
      rewrite last_char_app in Hc by discriminate.
      now rewrite last_char_app by discriminate.
Qed.

(** ... and does not begin with the "ipfs://" scheme. *)
Lemma normalize_not_ipfs uri : startswith (_normalize_ipfs uri) "ipfs://" = false.
Proof.
  rewrite normalize_unfold.
  destruct (startswith (stripped uri) "ipfs://") eqn:Hpre; [reflexivity | exact Hpre].
Qed.

Lemma no_edge_backtick_edge_free s :
  no_edge_backtick s <-> edge_free (fun c => mem c "`") s.
Proof.
  unfold no_edge_backtick, edge_free. simpl.
  split.
  - intros [Hf Hl]. split; intros c Hc; rewrite orb_false_r;
      apply Ascii.eqb_neq; congruence.
  - intros [Hf Hl]. split; intros Hc.
    + specialize (Hf _ Hc). discriminate.
    + specialize (Hl _ Hc). discriminate.
Qed.

Lemma stripped_head_h (t : string) :
  startswith (stripped (String "h" t)) "ipfs://" = false.
Proof.
  unfold Normalizers.stripped, strip, strip_chars, strip_by.
  change (lstrip_by is_space (String "h" t)) with (String "h" t).
  rewrite rstrip_by_keep by reflexivity.
  change (lstrip_by (fun c => mem c "`") (String "h" (rstrip_by is_space t)))
    with (String "h" (rstrip_by is_space t)).
  rewrite rstrip_by_keep by reflexivity.
  match goal with
  | |- context [lstrip_by is_space (String "h" ?u)] =>
      change (lstrip_by is_space (String "h" u)) with (String "h" u)
  end.
  rewrite rstrip_by_keep by reflexivity. reflexivity.
Qed.

End NormalizeFacts.

(** C8, as written, at a concrete input: a backtick the strips leave at
    the end is removed by the second pass. *)
Lemma normalize_twice_differs :
  Normalizers._normalize_ipfs "ipfs://abc` `" = "https://ipfs.io/ipfs/abc`"
  /\ Normalizers._normalize_ipfs (Normalizers._normalize_ipfs "ipfs://abc` `")
     = "https://ipfs.io/ipfs/abc"
  /\ Normalizers._normalize_ipfs (Normalizers._normalize_ipfs "ipfs://abc` `")
     <> Normalizers._normalize_ipfs "ipfs://abc` `".
Proof. repeat split; try (vm_compute; reflexivity). vm_compute. discriminate. Qed.

(** C8, amended. Normalizing a second time changes nothing exactly when
    the first result neither begins nor ends with a backtick. *)
Theorem normalize_idempotent_iff (x : string) :
  Normalizers._normalize_ipfs (Normalizers._normalize_ipfs x)
  = Normalizers._normalize_ipfs x
  <-> Obs.no_edge_backtick (Normalizers._normalize_ipfs x).
Proof.
  set (r := Normalizers._normalize_ipfs x).
  pose proof (normalize_edge_free x) as Hws. fold r in Hws.
  pose proof (normalize_not_ipfs x) as Hscheme. fold r in Hscheme.
  rewrite no_edge_backtick_edge_free.
  assert (Hs1 : PyStr.strip r = r) by now apply strip_by_fixed.
  split.
  - intros Hfix. rewrite normalize_unfold in Hfix.
    destruct (PyStr.startswith (Normalizers.stripped r) "ipfs://") eqn:Hpre.
    + exfalso. rewrite <- Hfix in Hpre at 1.
      rewrite append_cons, stripped_head_h in Hpre. discriminate.
    + unfold Normalizers.stripped in Hfix. rewrite Hs1 in Hfix.
      apply strip_by_fixed_iff.
      destruct (strip_by_shorter (fun c => PyStr.mem c "`") r) as [Heq | Hlt];
        [exact Heq|].
      exfalso.
      pose proof (strip_by_length PyStr.is_space (PyStr.strip_chars "`" r)) as Hle.
      fold (PyStr.strip (PyStr.strip_chars "`" r)) in Hle.
      unfold PyStr.strip_chars in Hle, Hfix. rewrite Hfix in Hle. lia.
  - intros Hbt. rewrite normalize_unfold. unfold Normalizers.stripped.
    rewrite Hs1. unfold PyStr.strip_chars.
    rewrite (strip_by_fixed _ _ Hbt), Hs1, Hscheme. reflexivity.
Qed.

Lemma normalize_idempotent_iff_witness :
  Normalizers._normalize_ipfs
    (Normalizers._normalize_ipfs " `ipfs://QmHash/1.png` ")
  = Normalizers._normalize_ipfs " `ipfs://QmHash/1.png` ".
Proof.
  apply (proj2 (normalize_idempotent_iff " `ipfs://QmHash/1.png` ")).
  split; vm_compute; discriminate.
Defined.

(** ** The metadata resolver *)

Section MetadataFacts.
Import Py Metadata.

Variable repr : json -> string.

(** What [extract_from_metadata] returns as image: the first flat key that
    holds a string, normalized, and the media-entry match only when there
    is no such key. *)
Lemma extracted_image (data : json) (e : extracted) :
  extract_from_metadata repr data = Ok e ->
  exists media flat,
    media_image repr data = Ok media
    /\ first_str_key flat_image_keys data = Ok flat
    /\ ex_image_url e = match flat with
                        | Some v => Some (Normalizers._normalize_ipfs v)
                        | None => media
                        end.
Proof.
  unfold extract_from_metadata.
  destruct (media_image repr data) as [media|]; cbn [bind]; [|discriminate].
  destruct (first_str_key ["name"; "title"] data) as [name|]; cbn [bind]; [|discriminate].
  destruct (first_str_key flat_image_keys data) as [flat|]; cbn [bind]; [|discriminate].
  destruct (get data "attributes") as [at_|]; cbn [bind]; [|discriminate].
  match goal with
  | |- context [bind ?m _] => destruct m as [rarity|]; cbn [bind]; [|discriminate]
  end.
  intros [= <-]. now exists media, flat.
Qed.

End MetadataFacts.

(** C9, where the code parts from it: when a media entry matches by the
    size rule and one of the flat keys holds a string, the resolver
    returns the flat key's value, not the media-entry match. *)
Theorem flat_image_overrides_media (repr : json -> string) (data : json)
        (m v : string) (e : Metadata.extracted) :
  Metadata.media_image repr data = Ok (Some m) ->
  Metadata.first_str_key Metadata.flat_image_keys data = Ok (Some v) ->
  Metadata.extract_from_metadata repr data = Ok e ->
  Metadata.ex_image_url e = Some (Normalizers._normalize_ipfs v).
Proof.
  intros Hm Hv He.
  destruct (extracted_image repr data e He) as (media & flat & Hm' & Hv' & Himg).
  rewrite Hv in Hv'. injection Hv' as <-. exact Himg.
Qed.

(** A metadata document with an ORIGINAL image entry and an [image] key. *)
Lemma flat_image_overrides_media_witness :
  let entry := JObj [("contentType", JStr "IMAGE"); ("sizeType", JStr "ORIGINAL");
                     ("url", JStr "https://cdn.example/original.png")] in
  let data := JObj [("mediaEntries", JArr [entry]);
                    ("image", JStr "https://cdn.example/flat.png")] in
  Metadata.media_image (fun _ => "") data
  = Ok (Some "https://cdn.example/original.png")
  /\ exists e, Metadata.extract_from_metadata (fun _ => "") data = Ok e
               /\ Metadata.ex_image_url e = Some "https://cdn.example/flat.png".
Proof.
  intros entry data. split; [vm_compute; reflexivity|].
  eexists. split; [vm_compute; reflexivity|].
  apply (flat_image_overrides_media (fun _ => "") data
           "https://cdn.example/original.png" "https://cdn.example/flat.png");
    vm_compute; reflexivity.
Defined.

(** The size rule itself holds among the media entries: ORIGINAL is taken
    before BIG and BIG before PREVIEW, whatever their order in the list,
    and without a string flat key that match is the image. *)
Example media_size_priority :
  let entry sz url := JObj [("contentType", JStr "image"); ("sizeType", JStr sz);
                            ("url", JStr url)] in
  let data l := JObj [("mediaEntries", JArr l)] in
  Metadata.media_image (fun _ => "")
    (data [entry "PREVIEW" "p"; entry "big" "b"; entry "Original" "ipfs://o"])
  = Ok (Some "https://ipfs.io/ipfs/o")
  /\ Metadata.media_image (fun _ => "") (data [entry "PREVIEW" "p"; entry "BIG" "b"])
     = Ok (Some "b")
  /\ Metadata.media_image (fun _ => "") (data [entry "THUMB" "t"]) = Ok None.
Proof. intros entry data. repeat split; vm_compute; reflexivity. Qed.

(** ** Decimal strings *)

Section DecimalFacts.
Import PyStr FixedPoint Obs.
Local Open Scope N_scope.

Lemma small_cases (r : N) :
  r < 10 ->
  r = 0 \/ r = 1 \/ r = 2 \/ r = 3 \/ r = 4 \/ r = 5 \/ r = 6 \/ r = 7 \/ r = 8 \/ r = 9.
Proof. lia. Qed.

Ltac each_digit H :=
  destruct (small_cases _ H) as [->|[->|[->|[->|[->|[->|[->|[->|[->| ->]]]]]]]]].

Lemma dec_small r : r < 10 -> dec r = String (digit_char r) EmptyString.
Proof. intros H. each_digit H; reflexivity. Qed.

Lemma digit_char_digit r :
  r < 10 -> is_digit (digit_char r) = true /\ digit_val (digit_char r) = Z.of_N r.
Proof. intros H. each_digit H; split; reflexivity. Qed.

(** Digit lists: appending commutes with the head constructor. *)
Lemma uint_app_eq (a b c : Decimal.uint) :
  DecimalFacts.to_list c = (DecimalFacts.to_list a ++ DecimalFacts.to_list b)%list ->
  Decimal.app a b = c.
Proof.
  intros H. apply DecimalFacts.to_list_inj. now rewrite DecimalFacts.app_spec.
Qed.

Lemma string_of_uint_app (a b : Decimal.uint) :
  NilEmpty.string_of_uint (Decimal.app a b)
  = NilEmpty.string_of_uint a +:+ NilEmpty.string_of_uint b.
Proof.
  induction a as [|a IH|a IH|a IH|a IH|a IH|a IH|a IH|a IH|a IH|a IH].
  - now rewrite DecimalFacts.app_nil_l.
  - rewrite (uint_app_eq (Decimal.D0 a) b (Decimal.D0 (Decimal.app a b)))
      by (simpl; now rewrite DecimalFacts.app_spec).
    simpl. now rewrite IH.
  - rewrite (uint_app_eq (Decimal.D1 a) b (Decimal.D1 (Decimal.app a b)))
      by (simpl; now rewrite DecimalFacts.app_spec).
    simpl. now rewrite IH.
  - rewrite (uint_app_eq (Decimal.D2 a) b (Decimal.D2 (Decimal.app a b)))
      by (simpl; now rewrite DecimalFacts.app_spec).
    simpl. now rewrite IH.
  - rewrite (uint_app_eq (Decimal.D3 a) b (Decimal.D3 (Decimal.app a b)))
      by (simpl; now rewrite DecimalFacts.app_spec).
    simpl. now rewrite IH.
  - rewrite (uint_app_eq (Decimal.D4 a) b (Decimal.D4 (Decimal.app a b)))
      by (simpl; now rewrite DecimalFacts.app_spec).
    simpl. now rewrite IH.
  - rewrite (uint_app_eq (Decimal.D5 a) b (Decimal.D5 (Decimal.app a b)))
      by (simpl; now rewrite DecimalFacts.app_spec).
    simpl. now rewrite IH.
  - rewrite (uint_app_eq (Decimal.D6 a) b (Decimal.D6 (Decimal.app a b)))
      by (simpl; now rewrite DecimalFacts.app_spec).
    simpl. now rewrite IH.
  - rewrite (uint_app_eq (Decimal.D7 a) b (Decimal.D7 (Decimal.app a b)))
      by (simpl; now rewrite DecimalFacts.app_spec).
    simpl. now rewrite IH.
  - rewrite (uint_app_eq (Decimal.D8 a) b (Decimal.D8 (Decimal.app a b)))
      by (simpl; now rewrite DecimalFacts.app_spec).
    simpl. now rewrite IH.
  - rewrite (uint_app_eq (Decimal.D9 a) b (Decimal.D9 (Decimal.app a b)))
      by (simpl; now rewrite DecimalFacts.app_spec).
    simpl. now rewrite IH.
Qed.

Lemma to_uint_normal (q : N) : Decimal.unorm (N.to_uint q) = N.to_uint q.
Proof.
  rewrite <- (DecimalN.Unsigned.of_to q) at 2.
  now rewrite DecimalN.Unsigned.to_of.
Qed.

(** The digits of a positive number begin with a digit other than 0. *)
Lemma to_uint_head (q : N) :
  0 < q ->
  exists h t, DecimalFacts.to_list (N.to_uint q) = (h :: t)%list /\ h <> DecimalFacts.d0.
Proof.
  intros Hq. destruct q as [|p]; [lia|]. simpl N.to_uint.
  pose proof (to_uint_normal (Npos p)) as Hn. simpl N.to_uint in Hn.
  pose proof (DecimalPos.Unsigned.to_uint_nonzero p) as Hz.
  pose proof (DecimalPos.Unsigned.to_uint_nonnil p) as Hnil.
  destruct (Pos.to_uint p) as [|a|a|a|a|a|a|a|a|a|a];
    try (simpl; eexists _, _; split; [reflexivity | discriminate]).
  - congruence.
  - exfalso. rewrite DecimalFacts.unorm_D0 in Hn.
    unfold Decimal.unorm in Hn.
    destruct (Decimal.nzhead a) eqn:Ha;
      solve [ apply Hz; congruence
            | apply (DecimalFacts.nzhead_nonzero a a); congruence ].
Qed.

Lemma to_uint_app_normal (q : N) (b : Decimal.uint) :
  0 < q ->
  Decimal.unorm (Decimal.app (N.to_uint q) b) = Decimal.app (N.to_uint q) b.
Proof.
  intros Hq. destruct (to_uint_head q Hq) as (h & t & Hl & Hh).
  apply DecimalFacts.to_list_inj.
  rewrite DecimalFacts.unorm_spec, DecimalFacts.app_spec, Hl. simpl.
  unfold DecimalFacts.lunorm.
  now rewrite (DecimalFacts.lnzhead_head_nd0 h _ Hh).
Qed.

Lemma of_uint_snoc (a : Decimal.uint) (r : N) :
  r < 10 -> N.of_uint (Decimal.app a (N.to_uint r)) = 10 * N.of_uint a + r.
Proof.
  intros Hr. unfold N.of_uint.
  rewrite !DecimalPos.Unsigned.of_uint_alt.
  assert (Hrev : forall x : Decimal.uint,
             DecimalFacts.to_list x
             = (DecimalFacts.to_list (N.to_uint r) ++ DecimalFacts.to_list (Decimal.rev a))%list ->
             Decimal.rev (Decimal.app a (N.to_uint r)) = x).
  { intros x Hx. apply DecimalFacts.to_list_inj.
    rewrite DecimalFacts.rev_spec, DecimalFacts.app_spec, List.rev_app_distr, Hx.
    rewrite DecimalFacts.rev_spec. f_equal.
    each_digit Hr; reflexivity. }
  each_digit Hr;
    match goal with
    | |- context [N.to_uint ?k] =>
        let c := eval cbv in (N.to_uint k) in
        match c with
        | ?D Decimal.Nil => rewrite (Hrev (D (Decimal.rev a))) by reflexivity
        end
    end; simpl DecimalPos.Unsigned.of_lu; lia.
Qed.

(** The two equations of decimal notation. *)
Lemma to_uint_step (q r : N) :
  0 < q -> r < 10 ->
  N.to_uint (10 * q + r) = Decimal.app (N.to_uint q) (N.to_uint r).
Proof.
  intros Hq Hr.
  rewrite <- (to_uint_app_normal q (N.to_uint r) Hq).
  rewrite <- DecimalN.Unsigned.to_of. f_equal.
  now rewrite of_uint_snoc, DecimalN.Unsigned.of_to.
Qed.

Lemma nilzero_nilempty (u : Decimal.uint) :
  u <> Decimal.Nil -> NilZero.string_of_uint u = NilEmpty.string_of_uint u.
Proof. now destruct u. Qed.

Lemma to_uint_nonnil (q : N) : N.to_uint q <> Decimal.Nil.
Proof.
  destruct q; [discriminate | apply DecimalPos.Unsigned.to_uint_nonnil].
Qed.

Lemma dec_step (q r : N) :
  0 < q -> r < 10 ->
  dec (10 * q + r) = dec q +:+ String (digit_char r) EmptyString.
Proof.
  intros Hq Hr. unfold dec.
  rewrite !nilzero_nilempty by apply to_uint_nonnil.
  rewrite (to_uint_step q r Hq Hr), string_of_uint_app.
  f_equal. rewrite <- nilzero_nilempty by apply to_uint_nonnil.
  apply (dec_small r Hr).
Qed.

End DecimalFacts.

(** ** Parsing and slicing decimal strings *)

Section FixedPointFacts.
Import PyStr FixedPoint Obs.

Lemma append_length (a b : string) :
  String.length (a +:+ b) = String.length a + String.length b.
Proof.
  induction a as [|c a IH]; [reflexivity|].
  rewrite append_cons. simpl. now rewrite IH.
Qed.

Lemma append_snoc_length (t : string) (c : ascii) :
  String.length (t +:+ String c EmptyString) = S (String.length t).
Proof. rewrite append_length. simpl. lia. Qed.

Lemma append_nil_r (a : string) : a +:+ EmptyString = a.
Proof.
  induction a as [|c a IH]; [reflexivity|].
  rewrite append_cons. now rewrite IH.
Qed.

Lemma append_assoc (a b c : string) : (a +:+ b) +:+ c = a +:+ (b +:+ c).
Proof.
  induction a as [|x a IH]; [reflexivity|].
  rewrite !append_cons. now rewrite IH.
Qed.

Lemma first_char_app (a b : string) :
  a <> EmptyString -> first_char (a +:+ b) = first_char a.
Proof. destruct a; [congruence|]. now rewrite append_cons. Qed.

Lemma parse_digits_snoc (t : string) (r : N) :
  (r < 10)%N ->
  forall a c b v c',
    parse_digits a c b t = Some (v, c') ->
    parse_digits a c b (t +:+ String (digit_char r) EmptyString)
    = Some ((10 * v + Z.of_N r)%Z, S c').
Proof.
  intros Hr. destruct (digit_char_digit r Hr) as [Hd Hv].
  induction t as [|x t IH]; intros a c b v c' H.
  - rewrite append_nil_l. simpl in *. rewrite Hd, Hv.
    destruct b; [|discriminate]. now injection H as <- <-.
  - rewrite append_cons. simpl in *.
    destruct (is_digit x); [now apply IH|].
    destruct (Ascii.eqb x "_" && b); [now apply IH | discriminate].
Qed.

Lemma tens (n : N) :
  (10 <= n)%N ->
  (0 < n / 10)%N /\ (n mod 10 < 10)%N /\ n = (10 * (n / 10) + n mod 10)%N
  /\ (n / 10 < n)%N.
Proof.
  intros H.
  assert (Hq : (0 < n / 10)%N) by (apply N.div_str_pos; lia).
  assert (Hr : (n mod 10 < 10)%N) by (apply N.mod_lt; lia).
  assert (Hn : n = (10 * (n / 10) + n mod 10)%N) by (apply N.div_mod; lia).
  repeat split; try assumption.
  apply N.div_lt; lia.
Qed.

Lemma dec_unfold (n : N) :
  (10 <= n)%N ->
  dec n = dec (n / 10) +:+ String (digit_char (n mod 10)) EmptyString.
Proof.
  intros H. destruct (tens n H) as (Hq & Hr & Hn & _).
  rewrite Hn at 1. now apply dec_step.
Qed.

Lemma parse_dec (n : N) :
  parse_digits 0 0 false (dec n) = Some (Z.of_N n, String.length (dec n)).
Proof.
  induction n as [n IH] using (well_founded_induction N.lt_wf_0).
  destruct (N.lt_ge_cases n 10) as [Hs | Hb].
  - rewrite (dec_small n Hs). simpl.
    destruct (digit_char_digit n Hs) as [-> ->]. repeat f_equal; lia.
  - destruct (tens n Hb) as (Hq & Hr & Hn & Hlt).
    rewrite (dec_unfold n Hb), append_snoc_length.
    rewrite (parse_digits_snoc _ _ Hr _ _ _ _ _ (IH (n / 10)%N Hlt)).
    repeat f_equal; lia.
Qed.

Lemma dec_nonempty (n : N) : dec n <> EmptyString.
Proof.
  destruct (N.lt_ge_cases n 10) as [Hs | Hb].
  - now rewrite (dec_small n Hs).
  - rewrite (dec_unfold n Hb). destruct (dec (n / 10)); discriminate.
Qed.

Lemma dec_first_digit (n : N) :
  exists c, first_char (dec n) = Some c /\ is_digit c = true.
Proof.
  induction n as [n IH] using (well_founded_induction N.lt_wf_0).
  destruct (N.lt_ge_cases n 10) as [Hs | Hb].
  - rewrite (dec_small n Hs). eexists; split; [reflexivity|].
    apply (digit_char_digit n Hs).
  - destruct (tens n Hb) as (Hq & Hr & Hn & Hlt).
    rewrite (dec_unfold n Hb), first_char_app by apply dec_nonempty.
    apply IH. exact Hlt.
Qed.

Lemma dec_last_digit (n : N) :
  exists c, last_char (dec n) = Some c /\ is_digit c = true.
Proof.
  destruct (N.lt_ge_cases n 10) as [Hs | Hb].
  - rewrite (dec_small n Hs). eexists; split; [reflexivity|].
    apply (digit_char_digit n Hs).
  - destruct (tens n Hb) as (Hq & Hr & Hn & Hlt).
    rewrite (dec_unfold n Hb), last_char_app by discriminate.
    eexists; split; [reflexivity|]. apply (digit_char_digit _ Hr).
Qed.

Lemma digit_not_space (c : ascii) : is_digit c = true -> is_space c = false.
Proof.
  destruct c as [[] [] [] [] [] [] [] []]; intros H;
    solve [reflexivity | discriminate H].
Qed.

Lemma digit_not_int_space (c : ascii) : is_digit c = true -> is_int_space c = false.
Proof.
  destruct c as [[] [] [] [] [] [] [] []]; intros H;
    solve [reflexivity | discriminate H].
Qed.

Lemma digit_not_sign (c : ascii) :
  is_digit c = true -> c <> "-"%char /\ c <> "+"%char.
Proof.
  destruct c as [[] [] [] [] [] [] [] []]; intros H;
    solve [split; discriminate | discriminate H].
Qed.

Lemma py_int_dec (n : N) :
  String.length (dec n) <= int_max_str_digits ->
  py_int (dec n) = Some (Z.of_N n).
Proof.
  intros Hlen. unfold py_int.
  destruct (dec_first_digit n) as (c & Hc & Hdc).
  destruct (dec_last_digit n) as (l & Hl & Hdl).
  rewrite strip_by_fixed.
  2:{ split; intros x Hx; apply digit_not_int_space; congruence. }
  assert (Hp : parse_unsigned (dec n) = Some (Z.of_N n)).
  { unfold parse_unsigned. rewrite parse_dec.
    apply Nat.leb_le in Hlen. now rewrite Hlen. }
  rewrite <- Hp.
  destruct (dec n) as [|x t]; [discriminate|].
  simpl in Hc. injection Hc as ->.
  destruct c as [[] [] [] [] [] [] [] []]; try reflexivity; discriminate Hdc.
Qed.

Lemma str_of_int_dec (n : N) : str_of_int (Z.of_N n) = dec n.
Proof. now destruct n. Qed.

End FixedPointFacts.

Section SplitFacts.
Import PyStr FixedPoint Obs Normalizers.

Lemma repeat_char_snoc (c : ascii) (k : nat) :
  repeat_char c (S k) = repeat_char c k +:+ String c EmptyString.
Proof.
  induction k as [|k IH]; [reflexivity|].
  cbn [repeat_char]. rewrite append_cons. f_equal. exact IH.
Qed.

Lemma rjust_snoc (w : nat) (c d : ascii) (t : string) :
  rjust (S w) c (t +:+ String d EmptyString)
  = rjust w c t +:+ String d EmptyString.
Proof.
  unfold rjust. rewrite append_snoc_length. simpl Nat.sub.
  now rewrite append_assoc.
Qed.

Lemma rjust_one (c : ascii) (t : string) :
  t <> EmptyString -> rjust 1 c t = t.
Proof. unfold rjust. destruct t; [congruence|]. reflexivity. Qed.

Lemma take_app (a b : string) : take (String.length a) (a +:+ b) = a.
Proof.
  induction a as [|c a IH]; [now destruct b|].
  rewrite append_cons. simpl. now rewrite IH.
Qed.

Lemma drop_app (a b : string) : drop (String.length a) (a +:+ b) = b.
Proof.
  induction a as [|c a IH]; [reflexivity|].
  rewrite append_cons. simpl. exact IH.
Qed.

Lemma all_but_last_app (k : nat) (a b : string) :
  String.length b = k -> all_but_last k (a +:+ b) = a.
Proof.
  intros <-. unfold all_but_last. rewrite append_length.
  replace (String.length a + String.length b - String.length b)
    with (String.length a) by lia.
  apply take_app.
Qed.

Lemma last_n_app (k : nat) (a b : string) :
  String.length b = k -> last_n k (a +:+ b) = b.
Proof.
  intros <-. unfold last_n. rewrite append_length.
  replace (String.length a + String.length b - String.length b)
    with (String.length a) by lia.
  apply drop_app.
Qed.

Lemma low_digits_length (k : nat) (n : N) : String.length (low_digits k n) = k.
Proof.
  revert n. induction k as [|k IH]; intros n; [reflexivity|].
  simpl. now rewrite append_snoc_length, IH.
Qed.

(** Padded to [k + 1] digits, the decimal string of [n] is the string of
    [n / 10^k] followed by the [k] low-order digits of [n]. *)
Lemma rjust_dec_split (k : nat) (n : N) :
  rjust (S k) "0" (dec n) = dec (n / 10 ^ N.of_nat k) +:+ low_digits k n.
Proof.
  revert n. induction k as [|k IH]; intros n.
  - rewrite rjust_one by apply dec_nonempty.
    simpl. now rewrite N.div_1_r, append_nil_r.
  - assert (Hdiv : (n / 10 ^ N.of_nat (S k) = n / 10 / 10 ^ N.of_nat k)%N).
    { rewrite Nat2N.inj_succ, N.pow_succ_r', N.Div0.div_div. reflexivity. }
    rewrite Hdiv.
    change (low_digits (S k) n)
      with (low_digits k (n / 10) +:+ String (digit_char (n mod 10)) EmptyString).
    rewrite <- append_assoc, <- IH.
    destruct (N.lt_ge_cases n 10) as [Hs | Hb].
    + rewrite (N.div_small n 10 Hs), (N.mod_small n 10 Hs), (dec_small n Hs).
      change (dec 0) with (String "0" EmptyString).
      unfold rjust. simpl String.length.
      replace (S (S k) - 1) with (S k) by lia.
      replace (S k - 1) with k by lia.
      rewrite repeat_char_snoc. now rewrite !append_assoc.
    + rewrite (dec_unfold n Hb) at 1. apply rjust_snoc.
Qed.

End SplitFacts.

Section ParserFacts.
Import PyStr.

Lemma lstrip_by_foreign (s : string) :
  has_foreign_char (lstrip_by is_int_space s) = false -> has_foreign_char s = false.
Proof.
  induction s as [|c s IH]; simpl; [reflexivity|].
  destruct (is_int_space c) eqn:Ec; [|exact (fun H => H)].
  intros H. rewrite (IH H). unfold int_char. rewrite Ec.
  now rewrite orb_true_r.
Qed.

Lemma rstrip_by_foreign (s : string) :
  has_foreign_char (rstrip_by is_int_space s) = false -> has_foreign_char s = false.
Proof.
  induction s as [|c s IH]; simpl; [reflexivity|].
  destruct (rstrip_by is_int_space s) as [|c' t] eqn:Er.
  - rewrite (IH eq_refl), orb_false_r.
    destruct (is_int_space c) eqn:Ec; simpl.
    + intros _. unfold int_char. rewrite Ec. now rewrite orb_true_r.
    + now rewrite orb_false_r.
  - simpl. intros H. apply orb_false_elim in H as [Hc Ht].
    rewrite Hc. apply IH. exact Ht.
Qed.

Lemma parse_digits_foreign (s : string) acc cnt after v :
  parse_digits acc cnt after s = Some v -> has_foreign_char s = false.
Proof.
  revert acc cnt after. induction s as [|c s IH]; simpl; intros acc cnt after H;
    [reflexivity|].
  unfold int_char.
  destruct (is_digit c) eqn:Ed; [exact (IH _ _ _ H)|].
  destruct (Ascii.eqb c "_") eqn:Eu; simpl in H; [|discriminate H].
  destruct after; simpl in H; [|discriminate H].
  apply Ascii.eqb_eq in Eu. subst c. simpl. exact (IH _ _ _ H).
Qed.

Lemma parse_unsigned_foreign (s : string) v :
  parse_unsigned s = Some v -> has_foreign_char s = false.
Proof.
  unfold parse_unsigned.
  destruct (parse_digits 0 0 false s) as [[z cnt]|] eqn:E; [|discriminate].
  intros _. eapply parse_digits_foreign; eauto.
Qed.

(** The three ways [int()] reads what is left between the white space. *)
Lemma py_int_cases (s : string) :
  (exists t, strip_by is_int_space s = String "-" t
             /\ py_int s = option_map Z.opp (parse_unsigned t))
  \/ (exists t, strip_by is_int_space s = String "+" t
                /\ py_int s = parse_unsigned t)
  \/ py_int s = parse_unsigned (strip_by is_int_space s).
Proof.
  unfold py_int. destruct (strip_by is_int_space s) as [|c t];
    [right; right; reflexivity|].
  destruct c as [[] [] [] [] [] [] [] []];
    try (right; right; reflexivity);
    [right; left | left]; exists t; split; reflexivity.
Qed.

(** Only digits, signs, underscores and white space parse. *)
Lemma py_int_foreign (s : string) :
  has_foreign_char s = true -> py_int s = None.
Proof.
  intros Hf. destruct (py_int s) as [v|] eqn:Hv; [exfalso | reflexivity].
  assert (Hs : has_foreign_char (strip_by is_int_space s) = false).
  { destruct (py_int_cases s) as [(t & Ht & Hp) | [(t & Ht & Hp) | Hp]];
      rewrite Hp in Hv.
    - rewrite Ht. destruct (parse_unsigned t) eqn:E; [|discriminate Hv].
      simpl. eapply parse_unsigned_foreign; eauto.
    - rewrite Ht. simpl. eapply parse_unsigned_foreign; eauto.
    - eapply parse_unsigned_foreign; eauto. }
  unfold strip_by in Hs. apply rstrip_by_foreign, lstrip_by_foreign in Hs.
  congruence.
Qed.

End ParserFacts.




(** White space around the digits and underscores between them are
    accepted, as [int()] accepts them; the white space is that of [int()],
    which does not skip the separators U+001C..U+001F. *)
Example negative_amount :
  Normalizers._safe_decimal_str "-5" 18 = Some "0.0000000000000000-5"
  /\ Normalizers._safe_decimal_str " 42 " 0 = Some "42"
  /\ Normalizers._safe_decimal_str "1_000" 2 = Some "10"
  /\ Normalizers._safe_decimal_str (String (ascii_of_nat 31) "42") 18 = None.
Proof. repeat split; vm_compute; reflexivity. Qed.

(** ** The scenario of the specification *)

(** "Rare" has no floor; tick 1 sees 200.00: the floor is initialized and
    no alert fires. Tick 2 sees 90.00 at threshold 50: the limit is 100.00,
    the alert fires and is sent, the record is created at 90.00 and the
    floor is 90.00 at once. *)
Example end_to_end_rare :
  let obs := [(Fixtures.net_up, [Fixtures.listing "Rare" (JStr "item-1") 200]);
              (Fixtures.net_up, [Fixtures.listing "Rare" (JStr "item-1") 90])] in
  let trace := Engine.run Fixtures.cfg_on 0 Store.empty_db obs in
  map (fun s => Obs.triggered (snd s)) trace = [false; true]
  /\ map (fun s => Obs.sends (snd s)) trace = [false; true]
  /\ map (fun s => Store.get_floor (fst s) "Rare") trace
     = [Some 200; Some 90]%float
  /\ map (fun s => Store.get_notified (fst s) "item-1") trace
     = [None; Some 90%float].
Proof. intros obs trace. repeat split; vm_compute; reflexivity. Qed.

(** * Further properties of the code *)

(** ** The normalizers *)

(** X1. Whatever the input, a normalized URI does not begin with the
    "ipfs://" scheme, has no white space at either end, and is left alone
    by a further [strip()]. *)
Theorem normalize_result_shape (x : string) :
  PyStr.startswith (Normalizers._normalize_ipfs x) "ipfs://" = false
  /\ Obs.edge_free PyStr.is_space (Normalizers._normalize_ipfs x)
  /\ PyStr.strip (Normalizers._normalize_ipfs x) = Normalizers._normalize_ipfs x.
Proof.
  pose proof (normalize_edge_free x) as Hws.
  split; [apply normalize_not_ipfs | split; [exact Hws|]].
  now apply strip_by_fixed.
Qed.

Lemma last_char_snoc (s : string) (c : ascii) :
  Obs.last_char (s +:+ String c EmptyString) = Some c.
Proof. now rewrite last_char_app by discriminate. Qed.

(** X2. On an input that is already trimmed (no white space and no
    backtick at either end) the normalizer is the identity unless the
    input begins with "ipfs://", and then it replaces that scheme by the
    gateway prefix and keeps the rest. *)
Theorem normalize_trimmed (s : string) :
  Obs.edge_free PyStr.is_space s ->
  Obs.no_edge_backtick s ->
  Normalizers._normalize_ipfs s
  = if PyStr.startswith s "ipfs://"
    then "https://ipfs.io/ipfs/" +:+ PyStr.drop 7 s
    else s.
Proof.
  intros Hws Hbt. rewrite normalize_unfold. unfold Normalizers.stripped.
  apply no_edge_backtick_edge_free in Hbt.
  assert (Hs : PyStr.strip s = s) by now apply strip_by_fixed.
  assert (Hb : PyStr.strip_chars "`" s = s) by now apply strip_by_fixed.
  now rewrite Hs, Hb, Hs.
Qed.

Lemma normalize_trimmed_witness :
  Normalizers._normalize_ipfs "ipfs://QmHash/7.png"
  = "https://ipfs.io/ipfs/QmHash/7.png"
  /\ Normalizers._normalize_ipfs "https://cdn.example/7.png"
     = "https://cdn.example/7.png".
Proof.
  split.
  - rewrite (normalize_trimmed "ipfs://QmHash/7.png"); [reflexivity | |].
    + split; intros c H; vm_compute in H; injection H as <-; reflexivity.
    + split; vm_compute; discriminate.
  - rewrite (normalize_trimmed "https://cdn.example/7.png"); [reflexivity | |].
    + split; intros c H; vm_compute in H; injection H as <-; reflexivity.
    + split; vm_compute; discriminate.
Defined.

(** ** The fixed-point string *)

Section FractionFacts.
Import PyStr FixedPoint Obs.

Lemma rstrip_by_snoc_keep (p : ascii -> bool) (s : string) (c : ascii) :
  p c = false ->
  rstrip_by p (s +:+ String c EmptyString) = s +:+ String c EmptyString.
Proof.
  intros Hc. apply rstrip_by_fixed. intros x Hx.
  rewrite last_char_snoc in Hx. now injection Hx as <-.
Qed.

Lemma rstrip_by_snoc_drop (p : ascii -> bool) (s : string) (c : ascii) :
  p c = true -> rstrip_by p (s +:+ String c EmptyString) = rstrip_by p s.
Proof.
  intros Hc. induction s as [|x s IH].
  - rewrite append_nil_l. simpl. now rewrite Hc.
  - rewrite append_cons. simpl. now rewrite IH.
Qed.

Lemma digit_char_zero (r : N) :
  (r < 10)%N -> (mem (digit_char r) "0" = true <-> r = 0%N).
Proof.
  intros H.
  destruct (small_cases r H) as [->|[->|[->|[->|[->|[->|[->|[->|[->| ->]]]]]]]]];
    split; intros E; solve [reflexivity | discriminate E | lia].
Qed.

Lemma mod_pow_succ (n : N) (k : nat) :
  ((n mod 10 ^ N.of_nat (S k) = 0) <-> (n mod 10 = 0 /\ (n / 10) mod 10 ^ N.of_nat k = 0))%N.
Proof.
  rewrite Nat2N.inj_succ, N.pow_succ_r'.
  rewrite N.Div0.mod_mul_r.
  generalize (n mod 10)%N ((n / 10) mod 10 ^ N.of_nat k)%N. intros a b. lia.
Qed.

(** The fraction is empty exactly for a multiple of [10^k]. *)
Lemma fraction_empty_iff (k : nat) (n : N) :
  rstrip_chars "0" (low_digits k n) = EmptyString <-> (n mod 10 ^ N.of_nat k = 0)%N.
Proof.
  unfold rstrip_chars. revert n. induction k as [|k IH]; intros n.
  - simpl. rewrite N.mod_1_r. tauto.
  - rewrite mod_pow_succ.
    change (low_digits (S k) n)
      with (low_digits k (n / 10) +:+ String (digit_char (n mod 10)) EmptyString).
    assert (Hr : (n mod 10 < 10)%N) by (apply N.mod_lt; lia).
    destruct (mem (digit_char (n mod 10)) "0") eqn:Hz.
    + rewrite rstrip_by_snoc_drop by exact Hz.
      rewrite IH. apply (digit_char_zero _ Hr) in Hz. tauto.
    + rewrite rstrip_by_snoc_keep by exact Hz.
      split.
      * intros E. destruct (low_digits k (n / 10)); discriminate E.
      * intros [E _]. apply (digit_char_zero _ Hr) in E. congruence.
Qed.

(** What [_safe_decimal_str] returns on the decimal string of a natural
    number. *)
Lemma safe_decimal_str_of_nat (n : N) (k : nat) :
  0 < k ->
  String.length (dec n) <= int_max_str_digits ->
  Normalizers._safe_decimal_str (str_of_int (Z.of_N n)) (Z.of_nat k)
  = Some (fixed_point n k).
Proof.
  intros Hk Hlen.
  unfold Normalizers._safe_decimal_str, fixed_point.
  rewrite str_of_int_dec, (py_int_dec n Hlen), str_of_int_dec.
  destruct (Z.leb_spec (Z.of_nat k) 0) as [Hneg | _]; [lia|].
  rewrite Nat2Z.id, Nat.add_1_r, rjust_dec_split.
  rewrite all_but_last_app, last_n_app by apply low_digits_length.
  pose proof (dec_nonempty (n / 10 ^ N.of_nat k)) as Hne.
  destruct (dec (n / 10 ^ N.of_nat k)); [congruence | reflexivity].
Qed.

End FractionFacts.

(** X3. For the decimal string of a natural number [n] and [k > 0]
    decimals, the result has no fraction part exactly when [10^k] divides
    [n] (it is then the plain decimal string of the quotient); otherwise
    it is the quotient, a point and a non-empty fraction that does not end
    in the digit 0. *)
Theorem fixed_point_fraction (n : N) (k : nat) :
  0 < k ->
  String.length (FixedPoint.dec n) <= PyStr.int_max_str_digits ->
  let out := Normalizers._safe_decimal_str (PyStr.str_of_int (Z.of_N n)) (Z.of_nat k) in
  ((n mod 10 ^ N.of_nat k = 0)%N ->
   out = Some (FixedPoint.dec (n / 10 ^ N.of_nat k)))
  /\ ((n mod 10 ^ N.of_nat k <> 0)%N ->
      exists frac,
        out = Some (FixedPoint.dec (n / 10 ^ N.of_nat k) +:+ "." +:+ frac)
        /\ frac <> EmptyString
        /\ Obs.last_char frac <> Some "0"%char).
Proof.
  intros Hk Hlen out. subst out.
  rewrite (safe_decimal_str_of_nat n k Hk Hlen). unfold FixedPoint.fixed_point.
  pose proof (fraction_empty_iff k n) as Hiff.
  split.
  - intros Hdiv. apply Hiff in Hdiv. now rewrite Hdiv.
  - intros Hrem.
    exists (PyStr.rstrip_chars "0" (FixedPoint.low_digits k n)).
    assert (Hne : PyStr.rstrip_chars "0" (FixedPoint.low_digits k n) <> EmptyString)
      by (intros E; apply Hrem, Hiff, E).
    repeat split.
    + destruct (PyStr.rstrip_chars "0" (FixedPoint.low_digits k n));
        [congruence | reflexivity].
    + exact Hne.
    + intros Hlast. unfold PyStr.rstrip_chars in Hlast.
      apply last_rstrip_by in Hlast. discriminate Hlast.
Qed.

Lemma fixed_point_fraction_witness :
  Normalizers._safe_decimal_str (PyStr.str_of_int (Z.of_N 2000000000000000000)) 18
  = Some "2"
  /\ exists frac,
       Normalizers._safe_decimal_str (PyStr.str_of_int (Z.of_N 30000000000000000)) 18
       = Some ("0" +:+ "." +:+ frac)
       /\ frac <> EmptyString /\ Obs.last_char frac <> Some "0"%char.
Proof.
  split.
  - apply (fixed_point_fraction 2000000000000000000 18);
      [apply Nat.lt_0_succ | apply Nat.leb_le; vm_compute; reflexivity
      | vm_compute; reflexivity].
  - apply (fixed_point_fraction 30000000000000000 18);
      [apply Nat.lt_0_succ | apply Nat.leb_le; vm_compute; reflexivity
      | vm_compute; discriminate].
Defined.

(** ** The item extractors *)

Ltac unbind H :=
  repeat match type of H with
         | bind ?m _ = _ =>
             let E := fresh "E" in
             destruct m eqn:E; cbn [bind] in H; [|discriminate H]
         end.

Lemma normalized_ready (u : string) : Shape.normalized u -> Shape.gateway_ready u.
Proof.
  intros [x ->]. split; [apply normalize_not_ipfs | apply normalize_edge_free].
Qed.

Section ExtractorFacts.
Import Py Extractors Shape.

Variable repr : json -> string.

Lemma first_of_size_normalized size entries u :
  Metadata.first_of_size repr size entries = Ok (Some u) -> normalized u.
Proof.
  induction entries as [|m rest IH]; simpl; intros H; [discriminate|].
  unbind H. destruct a; [|now apply IH].
  unbind H. injection H as <-. now eexists.
Qed.

Lemma first_by_sizes_normalized sizes entries u :
  first_by_sizes repr sizes entries = Ok (Some u) -> normalized u.
Proof.
  induction sizes as [|size sizes IH]; simpl; intros H; [discriminate|].
  unbind H. destruct a as [v|]; [|now apply IH].
  injection H as <-. eapply first_of_size_normalized; eauto.
Qed.

Lemma first_str_url_normalized entries u :
  first_str_url entries = Ok (Some u) -> normalized u.
Proof.
  induction entries as [|m rest IH]; simpl; intros H; [discriminate|].
  unbind H. destruct a; try (now apply IH).
  destruct (PyStr.nonempty s); [|now apply IH].
  injection H as <-. now eexists.
Qed.

Lemma first_of_rep_normalized rep cs u :
  first_of_rep repr rep cs = Ok (Some u) -> normalized u.
Proof.
  induction cs as [|c rest IH]; simpl; intros H; [discriminate|].
  unbind H. destruct a; [|now apply IH].
  unbind H. injection H as <-. now eexists.
Qed.

Lemma first_by_reps_normalized reps cs u :
  first_by_reps repr reps cs = Ok (Some u) -> normalized u.
Proof.
  induction reps as [|rep reps IH]; simpl; intros H; [discriminate|].
  unbind H. destruct a as [v|]; [|now apply IH].
  injection H as <-. eapply first_of_rep_normalized; eauto.
Qed.

Lemma first_any_url_normalized cs u :
  first_any_url repr cs = Ok (Some u) -> normalized u.
Proof.
  induction cs as [|c rest IH]; simpl; intros H; [discriminate|].
  unbind H. destruct (truthy a); [|now apply IH].
  injection H as <-. now eexists.
Qed.

Lemma flat_uri_normalized item meta u :
  flat_uri item meta = Ok (Some u) -> normalized u.
Proof.
  unfold flat_uri. intros H. unbind H.
  destruct a0; try discriminate. injection H as <-. now eexists.
Qed.

Lemma from_meta_normalized item u :
  from_meta repr item = Ok (Some u) -> normalized u.
Proof.
  unfold from_meta. intros H. unbind H.
  destruct a0; try discriminate. unbind H.
  destruct a1 as [v|].
  - injection H as <-. eapply first_by_reps_normalized; eauto.
  - unbind H. destruct a1 as [v|].
    + injection H as <-. eapply first_any_url_normalized; eauto.
    + eapply flat_uri_normalized; eauto.
Qed.

Lemma extract_image_url_normalized item u :
  extract_image_url repr item = Ok (Some u) -> normalized u.
Proof.
  unfold extract_image_url. intros H. unbind H.
  destruct a1 as [v|].
  - injection H as <-.
    destruct a0; try discriminate.
    destruct items as [|m rest]; [discriminate|].
    unbind E1. destruct a0 as [w|].
    + injection E1 as <-. eapply first_by_sizes_normalized; eauto.
    + eapply first_str_url_normalized; eauto.
  - eapply from_meta_normalized; eauto.
Qed.

Lemma extract_preview_url_normalized item meta_image u :
  (forall v, meta_image = Some v -> normalized v) ->
  extract_preview_url repr item meta_image = Ok (Some u) -> normalized u.
Proof.
  intros Hm. unfold extract_preview_url. intros H. unbind H.
  injection H as H. destruct a1 as [v|].
  - injection H as <-. destruct a0; try discriminate.
    eapply first_of_size_normalized; eauto.
  - now apply Hm.
Qed.

Lemma by_size_normalized sizes entries image u :
  (forall v, image = Some v -> normalized v) ->
  Metadata.by_size repr sizes entries image = Ok (Some u) -> normalized u.
Proof.
  revert image. induction sizes as [|size sizes IH]; simpl; intros image Hi H.
  - injection H as ->. now apply Hi.
  - unbind H.
    assert (Hn : forall v, match a with Some w => Some w | None => image end = Some v ->
                           normalized v).
    { intros v Hv. destruct a as [w|]; [|now apply Hi].
      injection Hv as <-. eapply first_of_size_normalized; eauto. }
    destruct (match a with Some w => Some w | None => image end) as [w|] eqn:Ea.
    + destruct (PyStr.nonempty w).
      * injection H as <-. now apply Hn.
      * eapply IH; eauto.
    + eapply IH; eauto.
Qed.

Lemma media_image_normalized data u :
  Metadata.media_image repr data = Ok (Some u) -> normalized u.
Proof.
  unfold Metadata.media_image. intros H. unbind H.
  destruct (or_else a (JArr [])); try discriminate.
  destruct items as [|m rest]; [discriminate|].
  eapply by_size_normalized; eauto. discriminate.
Qed.

Lemma metadata_image_normalized data e u :
  Metadata.extract_from_metadata repr data = Ok e ->
  Metadata.ex_image_url e = Some u -> normalized u.
Proof.
  intros He Hu.
  destruct (extracted_image repr data e He) as (media & flat & Hm & _ & Himg).
  rewrite Himg in Hu. destruct flat as [v|].
  - injection Hu as <-. now eexists.
  - subst media. eapply media_image_normalized; eauto.
Qed.

End ExtractorFacts.

(** X4. Every URL [extract_image_url] returns, whichever of its sources
    it comes from (media entries by size, any media url, meta content by
    representation, any content url, the flat fields), has been through
    the normalizer: it does not begin with "ipfs://" and carries no white
    space at either end. *)
Theorem image_url_gateway_ready (repr : json -> string) (item : json) (u : string) :
  Extractors.extract_image_url repr item = Ok (Some u) ->
  Shape.gateway_ready u.
Proof.
  intros H. apply normalized_ready. eapply extract_image_url_normalized; eauto.
Qed.

Lemma image_url_gateway_ready_witness :
  Shape.gateway_ready "https://ipfs.io/ipfs/QmHash/1.png".
Proof.
  apply (image_url_gateway_ready (fun _ => "")
           (JObj [("meta", JObj [("content",
              JArr [JObj [("@type", JStr "IMAGE"); ("representation", JStr "BIG");
                          ("url", JStr " ipfs://QmHash/1.png ")]])])])).
  vm_compute. reflexivity.
Defined.

Section PriceFacts.
Import Py Extractors.

Lemma get_present (d : json) (key : string) (v : json) :
  get d key = Ok v -> truthy v = true -> truthy d = true.
Proof.
  destruct d; try discriminate. simpl. intros [= <-].
  destruct fields; [discriminate | reflexivity].
Qed.

Lemma get_total (d : json) (key : string) (v : json) (key' : string) :
  get d key = Ok v -> get d key' = Ok (match d with JObj kv => assoc key' kv | _ => JNull end).
Proof. destruct d; try discriminate. reflexivity. Qed.

Lemma currency_symbol_for (item : json) (asset_class bc : string) :
  get item "blockchain" = Ok (JStr bc) ->
  currency_symbol item asset_class
  = Ok (Shape.symbol_for asset_class (PyStr.upper bc)).
Proof.
  intros Hbc. unfold currency_symbol, Shape.symbol_for. rewrite Hbc. cbn [bind].
  destruct (String.eqb asset_class "ETH" || String.eqb asset_class "NATIVE").
  - unfold or_else. destruct bc; reflexivity.
  - now destruct (String.eqb asset_class "ERC20").
Qed.

End PriceFacts.

(** X5. For an item whose sell order carries no ready price, the price
    is derived from the order's take value: for the decimal string of a
    natural number of wei it is that amount as a fixed-point string with 18
    decimals, and the currency follows from the asset class and the
    blockchain (ETH and NATIVE read MATIC on POLYGON and ETH elsewhere,
    ERC20 reads ERC20, anything else is passed through in capitals). The
    asset class is one whose capitals stay within U+0000..U+00FF. *)
Theorem price_from_take_value (repr : json -> string) (item order take asset_type : json)
        (n : N) (asset_class bc : string) :
  Py.get item "bestSellOrder" = Ok order ->
  Py.get order "price" = Ok JNull ->
  Py.get order "takePrice" = Ok JNull ->
  Py.get order "makePrice" = Ok JNull ->
  Py.get order "take" = Ok take ->
  Py.get take "value" = Ok (JStr (FixedPoint.dec n)) ->
  Py.get take "assetType" = Ok asset_type ->
  Py.get asset_type "assetClass" = Ok (JStr asset_class) ->
  Py.get item "blockchain" = Ok (JStr bc) ->
  String.length (FixedPoint.dec n) <= PyStr.int_max_str_digits ->
  PyStr.capitals_in_range asset_class = true ->
  Extractors.extract_price repr item
  = Ok (Some (FixedPoint.fixed_point n 18),
        Shape.symbol_for (PyStr.upper asset_class) (PyStr.upper bc)).
Proof.
  intros Ho Hp1 Hp2 Hp3 Ht Hv Hat Hac Hbc Hlen _.
  assert (Hdec : PyStr.nonempty (FixedPoint.dec n) = true).
  { pose proof (dec_nonempty n). now destruct (FixedPoint.dec n). }
  assert (Htake : Py.truthy take = true)
    by (apply (get_present take "value" _ Hv); exact Hdec).
  assert (Horder : Py.truthy order = true)
    by (apply (get_present order "take" _ Ht); exact Htake).
  unfold Extractors.extract_price, Extractors.get_or_obj.
  rewrite Ho. cbn [bind]. rewrite Horder. cbn [bind].
  rewrite (get_total _ _ _ "ownership" Ho). cbn [bind].
  rewrite Horder. cbn [negb andb].
  rewrite Hp1. cbn [bind Py.truthy]. rewrite Hp2. cbn [bind Py.truthy].
  rewrite Hp3. cbn [bind]. rewrite Ht. cbn [bind].
  assert (Hor : Py.or_else take (JObj []) = take)
    by (unfold Py.or_else; now rewrite Htake).
  rewrite !Hor, Hat. cbn [bind].
  assert (Hasset : Py.get (Py.or_else asset_type (JObj [])) "assetClass"
                   = Ok (JStr asset_class)).
  { unfold Py.or_else. destruct (Py.truthy asset_type) eqn:E; [exact Hac|].
    destruct asset_type; try discriminate Hac.
    destruct fields; [discriminate Hac | discriminate E]. }
  rewrite Hasset. cbn [bind].
  assert (Hup : Py.upper_of (Py.or_else (JStr asset_class) (JStr ""))
                = Ok (PyStr.upper asset_class)).
  { unfold Py.or_else. now destruct asset_class. }
  rewrite Hup. cbn [bind].
  rewrite (currency_symbol_for item _ bc Hbc). cbn [bind].
  rewrite Hv. cbn [bind Metadata.py_str].
  rewrite <- str_of_int_dec.
  change 18%Z with (Z.of_nat 18).
  rewrite (safe_decimal_str_of_nat n 18); [reflexivity | apply Nat.lt_0_succ | exact Hlen].
Qed.

Lemma price_from_take_value_witness :
  let asset_type := JObj [("assetClass", JStr "eth")] in
  let take := JObj [("value", JStr "30000000000000000"); ("assetType", asset_type)] in
  let order := JObj [("take", take)] in
  let item := JObj [("bestSellOrder", order); ("blockchain", JStr "polygon")] in
  let other := JObj [("bestSellOrder",
                      JObj [("take", JObj [("value", JStr "30000000000000000");
                                           ("assetType",
                                            JObj [("assetClass",
                                                   JStr (String "w"
                                                           (String "e"
                                                              (String "i"
                                                                 (String "223"%char
                                                                    EmptyString)))))])])]);
                     ("blockchain", JStr "base")] in
  Extractors.extract_price (fun _ => "") item = Ok (Some "0.03", Some "MATIC")
  /\ Extractors.extract_price (fun _ => "") other = Ok (Some "0.03", Some "WEISS").
Proof.
  intros asset_type take order item other. split.
  - apply (price_from_take_value (fun _ => "") item order take asset_type
             30000000000000000 "eth" "polygon");
      try reflexivity.
    apply Nat.leb_le. vm_compute. reflexivity.
  - refine (eq_trans
              (price_from_take_value (fun _ => "") other _ _ _
                 30000000000000000 _ "base"
                 eq_refl eq_refl eq_refl eq_refl eq_refl eq_refl eq_refl eq_refl
                 eq_refl _ _) _).
    + apply Nat.leb_le. vm_compute. reflexivity.
    + vm_compute. reflexivity.
    + vm_compute. reflexivity.
Defined.

Section RarityFacts.
Import Py Extractors.

Lemma rarity_of_attrs_sound (attrs : list json) (v : string) :
  rarity_of_attrs attrs = Ok (Some v) ->
  exists a k, In a attrs /\ get a "key" = Ok (JStr k)
              /\ PyStr.lower k = "rarity" /\ get a "value" = Ok (JStr v).
Proof.
  induction attrs as [|a rest IH]; simpl; intros H; [discriminate|].
  unbind H.
  assert (Hrest : rarity_of_attrs rest = Ok (Some v) ->
                  exists a' k, (a = a' \/ In a' rest) /\ get a' "key" = Ok (JStr k)
                               /\ PyStr.lower k = "rarity" /\ get a' "value" = Ok (JStr v)).
  { intros Hr. destruct (IH Hr) as (a' & k & Hin & Hrestk).
    exists a', k. split; [now right | exact Hrestk]. }
  destruct a0; try (now apply Hrest).
  destruct (String.eqb (PyStr.lower s) "rarity") eqn:Hk; [|now apply Hrest].
  unbind H. injection H as H. destruct a0; try discriminate H.
  injection H as ->. apply String.eqb_eq in Hk.
  exists a, s. repeat split; auto.
Qed.

End RarityFacts.

(** X6. A rarity [extract_rarity] returns is never made up: it is the
    fallback taken from the metadata, or the string value of one of the
    item's own attributes whose key reads "rarity" in any letter case. *)
Theorem rarity_is_genuine (item : json) (meta_rarity : option string) (v : string) :
  Extractors.extract_rarity item meta_rarity = Ok (Some v) ->
  meta_rarity = Some v
  \/ exists props attrs a k,
       Py.get item "properties" = Ok props
       /\ Py.get props "attributes" = Ok (JArr attrs)
       /\ In a attrs
       /\ Py.get a "key" = Ok (JStr k)
       /\ PyStr.lower k = "rarity"
       /\ Py.get a "value" = Ok (JStr v).
Proof.
  unfold Extractors.extract_rarity, Extractors.get_or_obj, Extractors.get_or_arr.
  intros H.
  destruct (Py.get item "properties") as [p0|] eqn:Hp; cbn [bind] in H;
    [|discriminate H].
  destruct (Py.get (Py.or_else p0 (JObj [])) "attributes") as [at0|] eqn:Hat;
    cbn [bind] in H; [|discriminate H].
  destruct (Py.or_else at0 (JArr [])) as [| | | | | attrs |] eqn:Eattrs;
    cbn [bind] in H; try (injection H as H; now left).
  destruct (Extractors.rarity_of_attrs attrs) as [[rv|]|] eqn:Er;
    cbn [bind] in H; try discriminate H.
  2:{ injection H as H. now left. }
  injection H as ->. right.
  destruct (rarity_of_attrs_sound attrs v Er) as (x & k & Hin & Hk & Hl & Hv).
  assert (Ha1 : at0 = JArr attrs).
  { unfold Py.or_else in Eattrs. destruct (Py.truthy at0); [exact Eattrs|].
    injection Eattrs as <-. inversion Hin. }
  subst at0.
  assert (Hprops : Py.or_else p0 (JObj []) = p0).
  { unfold Py.or_else. destruct (Py.truthy p0) eqn:Et; [reflexivity|].
    exfalso. unfold Py.or_else in Hat. rewrite Et in Hat. simpl in Hat.
    injection Hat as Hat. destruct attrs; [inversion Hin | discriminate Hat]. }
  rewrite Hprops in Hat.
  exists p0, attrs, x, k. repeat split; auto.
Qed.

Lemma rarity_is_genuine_witness :
  let attr := JObj [("key", JStr "RARITY"); ("value", JStr "Epic")] in
  let item := JObj [("properties", JObj [("attributes", JArr [attr])])] in
  Some "Rare" = Some "Epic"
  \/ exists props attrs a k,
       Py.get item "properties" = Ok props
       /\ Py.get props "attributes" = Ok (JArr attrs)
       /\ In a attrs
       /\ Py.get a "key" = Ok (JStr k)
       /\ PyStr.lower k = "rarity"
       /\ Py.get a "value" = Ok (JStr "Epic").
Proof.
  intros attr item.
  apply (rarity_is_genuine item (Some "Rare") "Epic"). vm_compute. reflexivity.
Defined.

(** ** One iteration of the poll loop *)

Section PipelineFacts.
Import Py Extractors Store Engine Pipeline.

Variable repr : json -> string.
Variable py_float : string -> option float.
Variable meta_get : string -> option json.

(** The parts of an enrichment that the properties below look at. *)
Lemma enrich_inv (it : json) (rate : option float) (r : result) :
  _enrich repr py_float meta_get it rate = Ok r ->
  exists image0 meta preview0 pc,
    extract_image_url repr it = Ok image0
    /\ metadata_of repr meta_get it = Ok meta
    /\ extract_preview_url repr it (Metadata.ex_image_url meta) = Ok preview0
    /\ extract_price repr it = Ok pc
    /\ r_image_url r = match truthy_str image0 with
                       | Some u => Some u
                       | None => Metadata.ex_image_url meta
                       end
    /\ r_preview_url r = match truthy_str preview0 with
                         | Some u => Some u
                         | None => r_image_url r
                         end
    /\ r_price_usd r = match rate, _parse_price py_float (fst pc) with
                       | Some rt, Some v => Some (v * rt)%float
                       | _, _ => None
                       end
    /\ get it "id" = Ok (r_item_id r).
Proof.
  unfold _enrich. intros H.
  destruct (extract_image_url repr it) as [image0|] eqn:Ei; cbn [bind] in H; [|discriminate H].
  destruct (metadata_of repr meta_get it) as [meta|] eqn:Em; cbn [bind] in H; [|discriminate H].
  destruct (extract_preview_url repr it (Metadata.ex_image_url meta)) as [preview0|] eqn:Ep;
    cbn [bind] in H; [|discriminate H].
  destruct (extract_price repr it) as [pc|] eqn:Epc; cbn [bind] in H; [|discriminate H].
  destruct (get it "tokenId") as [token_id|] eqn:Et; cbn [bind] in H; [|discriminate H].
  destruct (get it "id") as [item_id|] eqn:Eid; cbn [bind] in H; [|discriminate H].
  destruct (extract_rarity it (Metadata.ex_rarity meta)) as [rarity|] eqn:Er;
    cbn [bind] in H; [|discriminate H].
  injection H as <-. exists image0, meta, preview0, pc. simpl. repeat split; assumption.
Qed.

Lemma truthy_str_some (o : option string) (u : string) :
  truthy_str o = Some u -> o = Some u.
Proof.
  destruct o as [s|]; simpl; [|discriminate].
  destruct (PyStr.nonempty s); [congruence | discriminate].
Qed.

Lemma metadata_of_normalized (it : json) (meta : Metadata.extracted) (u : string) :
  metadata_of repr meta_get it = Ok meta ->
  Metadata.ex_image_url meta = Some u -> Shape.normalized u.
Proof.
  unfold metadata_of. intros H Hu.
  destruct (get_or_obj it "meta") as [mb|]; cbn [bind] in H; [|discriminate H].
  destruct (get mb "metadataUri") as [uri|]; cbn [bind] in H; [|discriminate H].
  eapply metadata_image_normalized; eauto.
Qed.

Lemma process_result_no_price cfg w tick d r :
  r_price_usd r = None -> process_result cfg w tick d r = (d, []).
Proof.
  intros Hp. rewrite process_result_unfold.
  rewrite alert_step_absent by now left. simpl.
  rewrite cadence_absent by now right. reflexivity.
Qed.

Lemma run_tick_no_price cfg w tick d rs :
  Forall (fun r => r_price_usd r = None) rs -> run_tick cfg w tick d rs = (d, []).
Proof.
  induction 1 as [|r rs Hr _ IH]; [reflexivity|].
  simpl. rewrite (process_result_no_price _ _ _ _ _ Hr), IH. reflexivity.
Qed.

Lemma enrich_all_no_rate items rs :
  enrich_all repr py_float meta_get items None = Ok rs ->
  Forall (fun r => r_price_usd r = None) rs.
Proof.
  revert rs. induction items as [|it items IH]; simpl; intros rs H.
  - injection H as <-. constructor.
  - destruct (_enrich repr py_float meta_get it None) as [r|] eqn:Er;
      cbn [bind] in H; [|discriminate H].
    destruct (enrich_all repr py_float meta_get items None) as [rs'|];
      cbn [bind] in H; [|discriminate H].
    injection H as <-. constructor; [|now apply IH].
    destruct (enrich_inv _ _ _ Er) as (? & ? & ? & ? & _ & _ & _ & _ & _ & _ & Hp & _).
    exact Hp.
Qed.

End PipelineFacts.

(** X7. Without a conversion rate an iteration of the loop does nothing
    to the store and emits nothing: either an exception leaves it, or it
    ends with the store it started from and an empty trace, on any tick
    (the initialization of tick 1 and the refresh of every third tick
    included). *)
Theorem no_rate_no_change (repr : json -> string) (py_float : string -> option float)
        (meta_get : string -> option json) (cfg : Engine.config) (w : Engine.world)
        (found : string -> json) (tick : Z) (d : Store.db) :
  Pipeline.iteration repr py_float meta_get cfg w None found tick d = Raised
  \/ Pipeline.iteration repr py_float meta_get cfg w None found tick d = Ok (d, []).
Proof.
  unfold Pipeline.iteration.
  destruct (Pipeline.collect found Commands.rarities []) as [items|];
    cbn [bind]; [|now left].
  destruct (Pipeline.enrich_all repr py_float meta_get items None) as [rs|] eqn:Er;
    cbn [bind]; [|now left].
  right. f_equal. apply run_tick_no_price.
  eapply enrich_all_no_rate; eauto.
Qed.

(** X8. In an enriched record the image URL and the preview URL, from
    whichever extractor or fallback they come, are values of the
    normalizer: neither begins with "ipfs://" nor carries white space at
    an end. *)
Theorem enriched_urls_gateway_ready (repr : json -> string)
        (py_float : string -> option float) (meta_get : string -> option json)
        (it : json) (rate : option float) (r : Engine.result) :
  Pipeline._enrich repr py_float meta_get it rate = Ok r ->
  (forall u, Engine.r_image_url r = Some u -> Shape.gateway_ready u)
  /\ (forall u, Engine.r_preview_url r = Some u -> Shape.gateway_ready u).
Proof.
  intros H.
  destruct (enrich_inv _ _ _ _ _ _ H)
    as (image0 & meta & preview0 & pc & Hi & Hm & Hpv & _ & Himg & Hprev & _).
  assert (Himage : forall u, Engine.r_image_url r = Some u -> Shape.normalized u).
  { intros u Hu. rewrite Himg in Hu.
    destruct (Engine.truthy_str image0) as [v|] eqn:Ev.
    - injection Hu as <-. apply truthy_str_some in Ev. subst image0.
      eapply extract_image_url_normalized; eauto.
    - eapply metadata_of_normalized; eauto. }
  split; intros u Hu; apply normalized_ready; [now apply Himage|].
  rewrite Hprev in Hu.
  destruct (Engine.truthy_str preview0) as [v|] eqn:Ev; [|now apply Himage].
  injection Hu as <-. apply truthy_str_some in Ev. subst preview0.
  eapply extract_preview_url_normalized; [|exact Hpv].
  intros x Hx. eapply metadata_of_normalized; eauto.
Qed.

Lemma enriched_urls_gateway_ready_witness :
  Shape.gateway_ready "https://ipfs.io/ipfs/QmMeta/9.png".
Proof.
  pose (it := JObj [("meta", JObj [("metadataUri", JStr "ipfs://QmDoc")]);
                    ("id", JStr "POLYGON-0xd8:9")]).
  pose (meta_get := fun u : string =>
          if String.eqb u "https://ipfs.io/ipfs/QmDoc"
          then Some (JObj [("image", JStr " ipfs://QmMeta/9.png ")])
          else None).
  pose (r := {| Engine.r_image_url := Some "https://ipfs.io/ipfs/QmMeta/9.png";
                Engine.r_preview_url := Some "https://ipfs.io/ipfs/QmMeta/9.png";
                Engine.r_price := None; Engine.r_currency := None;
                Engine.r_rarible_url := Some "https://og.rarible.com/token/POLYGON-0xd8:9";
                Engine.r_opensea_url := None;
                Engine.r_token_id := JNull;
                Engine.r_item_id := JStr "POLYGON-0xd8:9";
                Engine.r_rarity := None; Engine.r_price_usd := None |}).
  assert (He : Pipeline._enrich (fun _ => "") (fun _ => None) meta_get it None = Ok r)
    by (vm_compute; reflexivity).
  destruct (enriched_urls_gateway_ready _ _ _ _ _ _ He) as [Himg _].
  apply Himg. reflexivity.
Defined.

(** ** What the poll loop keeps *)

Section InvariantFacts.
Import Store Engine Outcome.

(** A property of the store that the writes to the rows [okf] of
    [floors] and [oki] of [notifications] keep. *)
Variable Q : db -> Prop.
Variable okf oki : string -> Prop.
Hypothesis Q_floor : forall d ra p ts, okf ra -> Q d -> Q (set_floor d ra p ts).
Hypothesis Q_notified : forall d i p ts, oki i -> Q d -> Q (set_notified d i p ts).

Local Abbreviation allowed := (Shape.writes_within okf oki).

Lemma commit_inv w d r p : allowed r -> Q d -> Q (fst (commit w d r p)).
Proof.
  intros [Hf Hi] H. unfold commit.
  destruct (r_rarity r) as [ra|]; destruct (r_item_id r); simpl; auto.
Qed.

Lemma alert_branch_inv cfg w d r ps p f th :
  allowed r -> Q d -> Q (fst (alert_branch cfg w d r ps p f th)).
Proof.
  intros Ha H. pose proof (alert_branch_outcome cfg w d r ps p f th) as Ho.
  generalize dependent (snd (alert_branch cfg w d r ps p f th)).
  generalize (fst (alert_branch cfg w d r ps p f th)).
  intros d1 ev1 Ho. destruct Ho; auto using commit_inv.
Qed.

Lemma alert_step_inv cfg w d r : allowed r -> Q d -> Q (fst (alert_step cfg w d r)).
Proof.
  intros Ha H. unfold alert_step.
  destruct (r_price_usd r) as [p|]; [|exact H].
  destruct (floor_of d r) as [f|]; [|exact H].
  destruct (alert_fires _ _ _); [|exact H].
  pose proof (alert_branch_inv cfg w d r (price_str_of r) p f (threshold_of d r) Ha H).
  destruct (alert_branch _ _ _ _ _ _ _ _). assumption.
Qed.

Lemma cadence_inv w tick d rarity price_usd :
  (forall ra, rarity = Some ra -> okf ra) -> Q d ->
  Q (fst (cadence w tick d rarity price_usd)).
Proof.
  intros Hf H. unfold cadence.
  destruct price_usd as [p|]; [|exact H].
  destruct rarity as [ra|]; [|exact H].
  destruct (tick =? 1)%Z; destruct (tick mod 3 =? 0)%Z; simpl; auto.
Qed.

Lemma process_result_inv cfg w tick d r :
  allowed r -> Q d -> Q (fst (process_result cfg w tick d r)).
Proof.
  intros Ha H. rewrite process_result_unfold. simpl.
  apply cadence_inv; [apply Ha|]. now apply alert_step_inv.
Qed.

Lemma run_tick_inv cfg w tick d rs :
  Forall allowed rs -> Q d -> Q (fst (run_tick cfg w tick d rs)).
Proof.
  intros Hrs. revert d. induction Hrs as [|r rs Hr _ IH]; intros d H; [exact H|].
  simpl. pose proof (process_result_inv cfg w tick d r Hr H) as H1.
  destruct (process_result cfg w tick d r) as [d1 ev1]. simpl in H1.
  specialize (IH d1 H1).
  destruct (run_tick cfg w tick d1 rs) as [d2 ev2]. exact IH.
Qed.

Lemma run_inv cfg tick d obs :
  Forall (fun o => Forall allowed (snd o)) obs -> Q d ->
  Forall (fun s => Q (fst s)) (run cfg tick d obs).
Proof.
  intros Hobs. revert tick d.
  induction Hobs as [|[w rs] obs Hrs _ IH]; intros tick d H; [constructor|].
  simpl. pose proof (run_tick_inv cfg w (tick + 1) d rs Hrs H) as H1.
  destruct (run_tick cfg w (tick + 1) d rs) as [d1 ev]. simpl in H1.
  constructor; [exact H1 | now apply IH].
Qed.

End InvariantFacts.

Lemma Forall_results (Q : Engine.result -> Prop) (obs : list (Engine.world * list Engine.result)) :
  (forall r, Q r) -> Forall (fun o => Forall Q (snd o)) obs.
Proof.
  intros H. apply Forall_forall. intros o _. apply Forall_forall. intros r _. apply H.
Qed.

Lemma get_threshold_set_notified d i p ts ra :
  Store.get_threshold (Store.set_notified d i p ts) ra = Store.get_threshold d ra.
Proof. reflexivity. Qed.

(** X9. The poll loop never changes a threshold: after any number of
    ticks, whatever is listed and whatever the network answers, every
    rarity reads the threshold it had before the first tick. Only the
    [/set] command writes one. *)
Theorem polling_keeps_thresholds (cfg : Engine.config) (tick : Z) (d : Store.db)
        (obs : list (Engine.world * list Engine.result)) :
  Forall (fun s => forall ra, Store.get_threshold (fst s) ra = Store.get_threshold d ra)
         (Engine.run cfg tick d obs).
Proof.
  apply (run_inv (fun d' => forall ra, Store.get_threshold d' ra = Store.get_threshold d ra)
                 (fun _ => True) (fun _ => True)).
  - intros d0 ra p ts _ H ra'. rewrite get_threshold_set_floor. apply H.
  - intros d0 i p ts _ H ra'. rewrite get_threshold_set_notified. apply H.
  - apply Forall_results. intros r. split; intros; exact I.
  - reflexivity.
Qed.

(** X10. The poll loop deletes nothing: a rarity that has a row in
    [floors] and an item that has a record in [notifications] still have
    one after every later tick. *)
Theorem polling_deletes_no_row (cfg : Engine.config) (tick : Z) (d : Store.db)
        (obs : list (Engine.world * list Engine.result)) :
  Forall (fun s =>
            (forall ra, is_Some (Store.floors d !! ra) ->
                        is_Some (Store.floors (fst s) !! ra))
            /\ (forall i, is_Some (Store.notifications d !! i) ->
                          is_Some (Store.notifications (fst s) !! i)))
         (Engine.run cfg tick d obs).
Proof.
  apply (run_inv (fun d' =>
                    (forall ra, is_Some (Store.floors d !! ra) ->
                                is_Some (Store.floors d' !! ra))
                    /\ (forall i, is_Some (Store.notifications d !! i) ->
                                  is_Some (Store.notifications d' !! i)))
                 (fun _ => True) (fun _ => True)).
  - intros d0 ra p ts _ [Hf Hn]. split; [|exact Hn].
    intros ra' H. simpl. destruct (decide (ra = ra')) as [->|Hne].
    + rewrite lookup_insert_eq. eauto.
    + rewrite lookup_insert_ne by exact Hne. now apply Hf.
  - intros d0 i p ts _ [Hf Hn]. split; [exact Hf|].
    intros i' H. simpl. destruct (decide (i = i')) as [->|Hne].
    + rewrite lookup_insert_eq. eauto.
    + rewrite lookup_insert_ne by exact Hne. now apply Hn.
  - apply Forall_results. intros r. split; intros; exact I.
  - split; auto.
Qed.

(** X11. A record touches its own rows only: processing it leaves the
    [floors] row of every rarity other than its own, and the
    [notifications] record of every item other than its own, exactly as
    they were. *)
Theorem record_writes_own_rows (cfg : Engine.config) (w : Engine.world) (tick : Z)
        (d : Store.db) (r : Engine.result) :
  let d' := fst (Engine.process_result cfg w tick d r) in
  (forall ra, Engine.r_rarity r <> Some ra ->
              Store.floors d' !! ra = Store.floors d !! ra)
  /\ (forall i, Engine.r_item_id r <> JStr i ->
                Store.notifications d' !! i = Store.notifications d !! i).
Proof.
  intros d'. subst d'. split.
  - intros ra Hra.
    apply (process_result_inv
             (fun d' => Store.floors d' !! ra = Store.floors d !! ra)
             (fun x => x <> ra) (fun _ => True)).
    + intros d0 x p ts Hx H. rewrite floors_set_floor_ne by exact Hx. exact H.
    + intros d0 i p ts _ H. exact H.
    + split; [|intros; exact I]. intros x Hx ->. now apply Hra.
    + reflexivity.
  - intros i Hi.
    apply (process_result_inv
             (fun d' => Store.notifications d' !! i = Store.notifications d !! i)
             (fun _ => True) (fun x => x <> i)).
    + intros d0 x p ts _ H. exact H.
    + intros d0 x p ts Hx H. simpl. rewrite lookup_insert_ne by exact Hx. exact H.
    + split; [intros; exact I|]. intros x Hx ->. now apply Hi.
    + reflexivity.
Qed.

(** ** Requests and Bot API calls *)

Section TrafficFacts.
Import Store Engine Obs Count.
Local Open Scope list_scope.

Lemma count_app f a b : count f (a ++ b) = count f a + count f b.
Proof. induction a as [|e a IH]; simpl; [reflexivity | rewrite IH; lia]. Qed.

Lemma count_quiet f evs :
  (forall e, f e = true -> is_transport e = true) ->
  existsb is_transport evs = false -> count f evs = 0.
Proof.
  intros Hf. induction evs as [|e evs IH]; simpl; [reflexivity|].
  intros H. apply orb_false_elim in H as [He Hevs].
  destruct (f e) eqn:Efe; [apply Hf in Efe; congruence|]. now rewrite IH.
Qed.

Lemma send_transport e : is_send e = true -> is_transport e = true.
Proof. now destruct e. Qed.
Lemma http_get_transport e : is_http_get e = true -> is_transport e = true.
Proof. now destruct e. Qed.
Lemma text_transport e : is_text e = true -> is_transport e = true.
Proof. now destruct e. Qed.
Lemma cadence_write_not_transport e : is_cadence_write e = true -> is_transport e = false.
Proof. now destruct e. Qed.

(** What one delivery puts on the wire. *)
Lemma deliver_counts w ch u ra tok cap :
  let sent := snd (deliver w ch u ra tok cap) in
  bot_calls sent <= 1
  /\ 1 <= image_requests sent <= 2
  /\ (text_messages sent = 0 \/ text_messages sent = 1 /\ image_requests sent = 2
                                 /\ bot_calls sent = 1).
Proof.
  unfold deliver, bot_calls, image_requests, text_messages.
  destruct (http_get w u) as [|st [c|]]; [simpl; lia | |];
    (destruct (st =? 200)%Z; [simpl; lia|]);
    (destruct (http_retry w (alt_url u)) as [|st' [c'|]]; [simpl; lia | |]);
    destruct (st' =? 200)%Z; simpl; lia.
Qed.

(** The exchange of one delivery, by the answers it gets. *)
Lemma deliver_wire w ch u ra tok cap :
  Shape.wire w (snd (deliver w ch u ra tok cap)).
Proof.
  unfold deliver.
  destruct (http_get w u) as [|st c] eqn:E1;
    [apply Shape.WireFailed; now left|].
  destruct (Z.eqb_spec st 200) as [->|Hst].
  { destruct c as [content|];
      [now apply Shape.WirePhoto | apply Shape.WireFailed; now right]. }
  cbv zeta.
  destruct (http_retry w (alt_url u)) as [|st' c'] eqn:E2;
    [eapply Shape.WireRetryFailed; eauto|].
  destruct (Z.eqb_spec st' 200) as [->|Hst'].
  - destruct c' as [content|];
      [eapply Shape.WireRetryPhoto; eauto | eapply Shape.WireRetryFailed; eauto].
  - eapply Shape.WireText; eauto.
Qed.

Lemma on_wire_app a b : Shape.on_wire (a ++ b) = Shape.on_wire a ++ Shape.on_wire b.
Proof. apply List.filter_app. Qed.

Lemma on_wire_quiet evs : existsb is_transport evs = false -> Shape.on_wire evs = [].
Proof.
  induction evs as [|e evs IH]; simpl; [reflexivity|].
  intros H. apply orb_false_elim in H as [He Hevs]. now rewrite He, IH.
Qed.

Lemma on_wire_transport evs : forallb is_transport evs = true -> Shape.on_wire evs = evs.
Proof.
  induction evs as [|e evs IH]; simpl; [reflexivity|].
  intros H. apply andb_prop in H as [He Hevs]. now rewrite He, IH.
Qed.

(** The trace of a record: at most one delivery, between events that are
    neither requests nor Bot API calls. *)
Lemma process_result_traffic cfg w tick d r :
  exists pre sent post,
    snd (process_result cfg w tick d r) = pre ++ sent ++ post
    /\ existsb is_transport pre = false
    /\ existsb is_transport post = false
    /\ (sent = [] \/ exists ch u ra tok cap, sent = snd (deliver w ch u ra tok cap)).
Proof.
  rewrite process_result_unfold. cbn [snd].
  generalize (fst (alert_step cfg w d r)). intros d0.
  pose proof (cadence_quiet w is_transport tick d0 (r_rarity r) (r_price_usd r)
                            cadence_write_not_transport) as Hc.
  set (post := snd (cadence w tick d0 (r_rarity r) (r_price_usd r))) in *.
  unfold alert_step.
  destruct (r_price_usd r) as [p|];
    [|exists [], [], post; simpl; auto].
  destruct (floor_of d r) as [f|];
    [|exists [], [], post; simpl; auto].
  destruct (alert_fires _ _ _);
    [|eexists [_], [], post; simpl; auto].
  unfold alert_branch.
  destruct (should_notify _ _ && bot cfg);
    [|eexists [_; _], [], post; simpl; auto].
  destruct (truthy_str (channel_id cfg)) as [ch|];
    [|eexists [_; _], [], post; simpl; auto].
  destruct (truthy_str (r_image_url r)) as [img|];
    [|eexists [_; _], [], post; simpl; auto].
  match goal with
  | |- context [deliver w ch ?u ?ra ?tok ?cap] =>
      pose proof (eq_refl (snd (deliver w ch u ra tok cap))) as Hs;
      destruct (deliver w ch u ra tok cap) as [ok sent] eqn:Ed in Hs at 1 |- *
  end.
  cbn [snd] in Hs.
  destruct ok.
  - pose proof (commit_quiet w is_transport d r p (fun _ _ => eq_refl)) as Hq.
    destruct (commit w d r p) as [d2 ev1]. cbn [snd] in *.
    eexists [_; _; _], sent, (LogSent :: ev1 ++ post).
    split; [simpl; rewrite <- !app_assoc; reflexivity|].
    split; [reflexivity|]. split; [|right; eauto 10].
    change (existsb is_transport (ev1 ++ post) = false).
    rewrite existsb_app, Hq, Hc. reflexivity.
  - eexists [_; _; _], sent, (LogSendFailed :: post).
    split; [simpl; rewrite <- !app_assoc; reflexivity|].
    split; [reflexivity|]. split; [exact Hc | right; eauto 10].
Qed.

Lemma process_result_count f cfg w tick d r :
  (forall e, f e = true -> is_transport e = true) ->
  count f (snd (process_result cfg w tick d r)) = 0
  \/ exists ch u ra tok cap,
      count f (snd (process_result cfg w tick d r))
      = count f (snd (deliver w ch u ra tok cap)).
Proof.
  intros Hf.
  destruct (process_result_traffic cfg w tick d r)
    as (pre & sent & post & -> & Hpre & Hpost & Hsent).
  rewrite !count_app, (count_quiet f pre Hf Hpre), (count_quiet f post Hf Hpost).
  destruct Hsent as [->|(ch & u & ra & tok & cap & ->)]; [now left|].
  right. exists ch, u, ra, tok, cap. lia.
Qed.

Lemma process_result_counts cfg w tick d r :
  let evs := snd (process_result cfg w tick d r) in
  bot_calls evs <= 1 /\ image_requests evs <= 2
  /\ (text_messages evs = 0
      \/ text_messages evs = 1 /\ image_requests evs = 2 /\ bot_calls evs = 1).
Proof.
  intros evs. subst evs. unfold bot_calls, image_requests, text_messages.
  destruct (process_result_traffic cfg w tick d r)
    as (pre & sent & post & -> & Hpre & Hpost & Hsent).
  rewrite !count_app.
  rewrite (count_quiet is_send pre send_transport Hpre),
    (count_quiet is_send post send_transport Hpost),
    (count_quiet is_http_get pre http_get_transport Hpre),
    (count_quiet is_http_get post http_get_transport Hpost),
    (count_quiet is_text pre text_transport Hpre),
    (count_quiet is_text post text_transport Hpost).
  destruct Hsent as [->|(ch & u & ra & tok & cap & ->)]; [simpl; lia|].
  pose proof (deliver_counts w ch u ra tok cap) as Hd.
  unfold bot_calls, image_requests, text_messages in Hd. cbv zeta in Hd.
  rewrite !Nat.add_0_r. cbn [Nat.add].
  destruct Hd as (H1 & [_ H3] & H4). tauto.
Qed.

Lemma run_tick_counts cfg w tick d rs :
  bot_calls (snd (run_tick cfg w tick d rs)) <= length rs
  /\ image_requests (snd (run_tick cfg w tick d rs)) <= 2 * length rs.
Proof.
  revert d. induction rs as [|r rs IH]; intros d; [split; apply Nat.le_0_l|].
  simpl. pose proof (process_result_counts cfg w tick d r) as H1.
  destruct (process_result cfg w tick d r) as [d1 ev1].
  specialize (IH d1). destruct (run_tick cfg w tick d1 rs) as [d2 ev2].
  cbn [snd] in *. unfold bot_calls, image_requests in *. rewrite !count_app. lia.
Qed.

(** Without a bot or a channel the trigger branch ends at the test of
    line 611. *)
Lemma process_result_silent cfg w tick d r :
  bot cfg = false \/ truthy_str (channel_id cfg) = None ->
  fst (process_result cfg w tick d r)
  = fst (cadence w tick d (r_rarity r) (r_price_usd r))
  /\ existsb is_transport (snd (process_result cfg w tick d r)) = false
  /\ attempted (snd (process_result cfg w tick d r)) = false.
Proof.
  intros Hoff. rewrite process_result_unfold. cbn [fst snd].
  assert (Hb : forall ps p f th, exists trig,
               is_trigger trig = true
               /\ alert_branch cfg w d r ps p f th = (d, [trig])).
  { intros ps p f th. unfold alert_branch. eexists. split; [|
      destruct (should_notify _ _ && bot cfg) eqn:Eg; [|reflexivity];
      destruct Hoff as [Hoff|Hoff];
        [rewrite Hoff, andb_false_r in Eg; discriminate Eg
        |rewrite Hoff; reflexivity]].
    reflexivity. }
  assert (Hs : fst (alert_step cfg w d r) = d
               /\ existsb is_transport (snd (alert_step cfg w d r)) = false
               /\ attempted (snd (alert_step cfg w d r)) = false).
  { unfold alert_step.
    destruct (r_price_usd r) as [p|]; [|now repeat split].
    destruct (floor_of d r) as [f|]; [|now repeat split].
    destruct (alert_fires _ _ _); [|now repeat split].
    destruct (Hb (price_str_of r) p f (threshold_of d r)) as (trig & Ht & ->).
    destruct trig; try discriminate Ht. now repeat split. }
  destruct Hs as (-> & Hq & Ha). split; [reflexivity|].
  unfold attempted in *. rewrite !existsb_app, Hq, Ha. simpl.
  split; apply cadence_quiet; now intros [].
Qed.

End TrafficFacts.

(** X12. What one record puts on the wire, in order, is one of six
    exchanges: nothing; the image request alone; the image request and the
    photo; the image request and the retry; these two and the photo; these
    two and the text message. The photo follows an answer 200 whose body
    was read, from the first request or, after a first answer other than
    200, from the retry; the text message is the last resort and comes
    only after both requests were answered with a status other than 200.
    So a record causes at most one Bot API call and two image requests. *)
Theorem record_traffic (cfg : Engine.config) (w : Engine.world) (tick : Z)
        (d : Store.db) (r : Engine.result) :
  let evs := snd (Engine.process_result cfg w tick d r) in
  Shape.wire w (Shape.on_wire evs)
  /\ Count.bot_calls evs <= 1
  /\ Count.image_requests evs <= 2
  /\ (Count.text_messages evs = 0
      \/ Count.text_messages evs = 1 /\ Count.image_requests evs = 2
         /\ Count.bot_calls evs = 1).
Proof.
  intros evs. split; [|apply process_result_counts].
  subst evs.
  destruct (process_result_traffic cfg w tick d r)
    as (pre & sent & post & -> & Hpre & Hpost & Hsent).
  rewrite !on_wire_app, (on_wire_quiet pre Hpre), (on_wire_quiet post Hpost).
  rewrite app_nil_r. cbn [app].
  destruct Hsent as [->|(ch & u & ra & tok & cap & ->)]; [constructor|].
  rewrite on_wire_transport by apply deliver_transport.
  apply deliver_wire.
Qed.

(** The second request can succeed where the first did not, also at the
    same address: the photo is then sent after two requests, and no text. *)
Example photo_after_retry :
  let evs := snd (Engine.process_result Fixtures.cfg_on Fixtures.net_retry 2
                    (Fixtures.floor_only "Rare" 200)
                    (Fixtures.listing "Rare" (JStr "item-1") 90)) in
  map Count.is_http_get (Shape.on_wire evs) = [true; true; false]
  /\ Count.image_requests evs = 2
  /\ Count.bot_calls evs = 1
  /\ Count.text_messages evs = 0
  /\ Obs.completed evs = true.
Proof. intros evs. repeat split; vm_compute; reflexivity. Qed.

(** X13. Without a bot, or without a channel, the loop is silent
    whatever is listed: a tick makes no image request, calls no Bot API,
    attempts no notification and leaves the notification records as they
    were. *)
Theorem silent_without_bot (cfg : Engine.config) (w : Engine.world) (tick : Z)
        (d : Store.db) (rs : list Engine.result) :
  Engine.bot cfg = false \/ Engine.truthy_str (Engine.channel_id cfg) = None ->
  Store.notifications (fst (Engine.run_tick cfg w tick d rs)) = Store.notifications d
  /\ existsb Obs.is_transport (snd (Engine.run_tick cfg w tick d rs)) = false
  /\ Obs.attempted (snd (Engine.run_tick cfg w tick d rs)) = false.
Proof.
  intros Hoff. revert d. induction rs as [|r rs IH]; intros d; [now repeat split|].
  simpl. destruct (process_result_silent cfg w tick d r Hoff) as (Hd & Hq & Ha).
  destruct (Engine.process_result cfg w tick d r) as [d1 ev1]. cbn [fst snd] in *.
  destruct (IH d1) as (Hn & Hq2 & Ha2).
  destruct (Engine.run_tick cfg w tick d1 rs) as [d2 ev2]. cbn [fst snd] in *.
  unfold Obs.attempted in *. rewrite !existsb_app, Hq, Hq2, Ha, Ha2, Hn, Hd.
  now rewrite cadence_notifications.
Qed.

Lemma silent_without_bot_witness :
  let cfg := {| Engine.bot_token := None; Engine.channel_id := Some "@winks" |} in
  let d := Fixtures.floor_only "Rare" 200 in
  let rs := [Fixtures.listing "Rare" (JStr "item-1") 90] in
  Obs.triggered (snd (Engine.run_tick cfg Fixtures.net_up 2 d rs)) = true
  /\ existsb Obs.is_transport (snd (Engine.run_tick cfg Fixtures.net_up 2 d rs)) = false.
Proof.
  intros cfg d rs. split; [vm_compute; reflexivity|].
  apply (silent_without_bot cfg Fixtures.net_up 2 d rs). left. reflexivity.
Defined.

Section IterationFacts.
Import Py Extractors Net Pipeline.
Local Open Scope list_scope.

Lemma chars_length s : length (chars s) = String.length s.
Proof. induction s; simpl; congruence. Qed.

Lemma take_length_le n s : String.length (PyStr.take n s) <= n.
Proof.
  revert s. induction n as [|n IH]; intros [|c s]; simpl; try lia.
  specialize (IH s). lia.
Qed.

(** A search contributes at most one item. *)
Lemma search_extend_length data lst items items' :
  search_cheapest_by_rarity data = Ok lst ->
  extend items lst = Ok items' ->
  length items' <= length items + 1.
Proof.
  assert (Hl : forall l : list json, length (firstn 1 l) <= 1)
    by (intros l; rewrite length_firstn; lia).
  assert (Hgo : forall v, match v with
                          | JArr l => Ok (JArr (firstn 1 l))
                          | JStr s => Ok (JStr (PyStr.take 1 s))
                          | _ => Raised
                          end = Ok lst ->
                          extend items lst = Ok items' ->
                          length items' <= length items + 1).
  { intros v Hv He. destruct v as [| | | |s|l|]; try discriminate Hv; injection Hv as <-;
      simpl in He; injection He as <-; rewrite length_app.
    - rewrite chars_length. destruct s; simpl; lia.
    - specialize (Hl l). lia. }
  unfold search_cheapest_by_rarity. intros Hs He.
  destruct data as [| | | | |l|];
    try (destruct (get_or_arr _ _) as [v|]; cbn [bind] in Hs;
         [eapply Hgo; eauto | discriminate Hs]).
  injection Hs as <-. simpl in He. injection He as <-.
  rewrite length_app. specialize (Hl l). lia.
Qed.

Lemma collect_length found rs items items' :
  collect found rs items = Ok items' ->
  length items' <= length items + length rs.
Proof.
  revert items. induction rs as [|r rs IH]; simpl; intros items H.
  - injection H as <-. lia.
  - destruct (search_cheapest_by_rarity (found r)) as [lst|] eqn:Es;
      cbn [bind] in H; [|discriminate H].
    destruct (extend items lst) as [items1|] eqn:Ee; cbn [bind] in H; [|discriminate H].
    apply IH in H. pose proof (search_extend_length _ _ _ _ Es Ee). lia.
Qed.

Variable repr : json -> string.
Variable py_float : string -> option float.
Variable meta_get : string -> option json.

Lemma enrich_all_length items rate rs :
  enrich_all repr py_float meta_get items rate = Ok rs -> length rs = length items.
Proof.
  revert rs. induction items as [|it items IH]; simpl; intros rs H.
  - now injection H as <-.
  - destruct (_enrich repr py_float meta_get it rate); cbn [bind] in H; [|discriminate H].
    destruct (enrich_all repr py_float meta_get items rate) as [rs'|];
      cbn [bind] in H; [|discriminate H].
    injection H as <-. simpl. now rewrite (IH rs').
Qed.

End IterationFacts.

(** X14. One iteration of the loop that runs to its end has handled at
    most five records, one per rarity searched, whatever the marketplace
    answered: it made at most five Bot API calls and at most ten image
    requests. *)
Theorem iteration_traffic (repr : json -> string) (py_float : string -> option float)
        (meta_get : string -> option json) (cfg : Engine.config) (w : Engine.world)
        (rate : option float) (found : string -> json) (tick : Z)
        (d d' : Store.db) (evs : list Engine.event) :
  Pipeline.iteration repr py_float meta_get cfg w rate found tick d = Ok (d', evs) ->
  Count.bot_calls evs <= 5 /\ Count.image_requests evs <= 10.
Proof.
  unfold Pipeline.iteration. intros H.
  destruct (Pipeline.collect found Commands.rarities []) as [items|] eqn:Ec;
    cbn [bind] in H; [|discriminate H].
  destruct (Pipeline.enrich_all repr py_float meta_get items rate) as [rs|] eqn:Er;
    cbn [bind] in H; [|discriminate H].
  apply collect_length in Ec. apply enrich_all_length in Er. simpl in Ec.
  pose proof (run_tick_counts cfg w tick d rs) as Hc.
  injection H as H. rewrite H in Hc. cbn [snd] in Hc. lia.
Qed.

Lemma iteration_traffic_witness :
  exists d' evs,
    Pipeline.iteration (fun _ => "") Samples.py_float (fun _ => None)
                       Fixtures.cfg_on Fixtures.net_up (Some 3000%float)
                       Samples.found 2 (Fixtures.floor_only "Rare" 200)
    = Ok (d', evs)
    /\ Obs.sends evs = true
    /\ Count.bot_calls evs <= 5 /\ Count.image_requests evs <= 10.
Proof.
  destruct (Pipeline.iteration (fun _ => "") Samples.py_float (fun _ => None)
                               Fixtures.cfg_on Fixtures.net_up (Some 3000%float)
                               Samples.found 2 (Fixtures.floor_only "Rare" 200))
    as [[d' evs]|] eqn:E.
  - exists d', evs. split; [reflexivity|]. split.
    + vm_compute in E. injection E as _ <-. reflexivity.
    + exact (iteration_traffic _ _ _ _ _ _ _ _ _ _ _ E).
  - vm_compute in E. discriminate E.
Defined.

(** ** Start-up migration and operator commands *)

Section AdminFacts.
Import Store Commands Admin.
Local Open Scope list_scope.

Lemma ensure_lookup d ra :
  floors (ensure_threshold_column d) !! ra
  = (fun row => {| price := price row; updated_at := updated_at row;
                   threshold_percent :=
                     Some (match threshold_percent row with
                           | Some t => t
                           | None => 50%float
                           end) |}) <$> (floors d !! ra).
Proof. unfold ensure_threshold_column. simpl. apply lookup_fmap. Qed.

Lemma get_threshold_set_threshold_ne d ra ra' t :
  ra <> ra' -> get_threshold (set_threshold d ra t) ra' = get_threshold d ra'.
Proof.
  intros Hne. unfold get_threshold. now rewrite floors_set_threshold_ne.
Qed.

Variable py_float : string -> option float.
Variable bot_send : bool.

Lemma send_updated text r p :
  In (Reply (ThresholdUpdated r p)) (send bot_send text) ->
  text = ThresholdUpdated r p.
Proof.
  unfold send. destruct bot_send; simpl; intros H;
    repeat (destruct H as [H|H]; try discriminate H; try (injection H as ->; reflexivity));
    contradiction.
Qed.

(** What a [/set] message can do. *)
Lemma handle_parts_effect d part0 part1 :
  let d' := fst (handle_parts py_float bot_send d part0 part1) in
  let out := snd (handle_parts py_float bot_send d part0 part1) in
  (d' = d /\ forall r p, ~ In (Reply (ThresholdUpdated r p)) out)
  \/ (exists r p,
         In r rarities /\ PyStr.lower r = PyStr.lower part0
         /\ py_float part1 = Some p
         /\ PrimFloat.ltb 0 p = true /\ PrimFloat.leb p 100 = true
         /\ d' = set_threshold d r p
         /\ out = send bot_send (ThresholdUpdated r p)).
Proof.
  assert (Hno : forall text, (forall r p, text <> ThresholdUpdated r p) ->
                             forall r p, ~ In (Reply (ThresholdUpdated r p))
                                              (send bot_send text)).
  { intros text Ht r p Hin. apply send_updated in Hin. now apply (Ht r p). }
  intros d' out. subst d' out. unfold handle_parts.
  destruct (mapping_get (PyStr.lower part0) rarities) as [r|] eqn:Em;
    [|left; split; [reflexivity | now apply Hno]].
  destruct (negb (PyStr.nonempty r));
    [left; split; [reflexivity | now apply Hno]|].
  destruct (py_float part1) as [p|] eqn:Ep;
    [|left; split; [reflexivity | now apply Hno]].
  destruct (PrimFloat.ltb 0 p) eqn:Elo; destruct (PrimFloat.leb p 100) eqn:Ehi; simpl;
    try (left; split; [reflexivity | now apply Hno]).
  right. exists r, p.
  assert (Hr : In r rarities /\ PyStr.lower r = PyStr.lower part0).
  { revert Em. unfold rarities. cbn -[String.eqb In PyStr.lower].
    repeat match goal with
           | |- context [String.eqb ?a ?k] => destruct (String.eqb a k) eqn:?
           end;
      intros H; inversion H; subst;
      (split; [simpl; tauto | now apply String.eqb_eq]). }
  destruct Hr. repeat split; assumption.
Qed.

Lemma handle_set_effect d text :
  let d' := fst (_handle_set py_float bot_send d text) in
  let out := snd (_handle_set py_float bot_send d text) in
  (d' = d /\ forall r p, ~ In (Reply (ThresholdUpdated r p)) out)
  \/ (exists r p,
         In r rarities
         /\ PrimFloat.ltb 0 p = true /\ PrimFloat.leb p 100 = true
         /\ d' = set_threshold d r p
         /\ out = send bot_send (ThresholdUpdated r p)).
Proof.
  assert (Hno : forall r p, ~ In (Reply (ThresholdUpdated r p))
                                 (send bot_send UsageFormat)).
  { intros r p Hin. apply send_updated in Hin. discriminate Hin. }
  intros d' out. subst d' out. unfold _handle_set.
  destruct text as [t|]; [|left; split; [reflexivity | intros r p []]].
  destruct (negb (PyStr.nonempty t)); [left; split; [reflexivity | intros r p []]|].
  destruct (negb (PyStr.nonempty _)); [left; split; [reflexivity | exact Hno]|].
  match goal with
  | |- context [match ?parts with [] => _ | _ :: _ => _ end] =>
      destruct parts as [|part0 [|part1 [|part2 rest]]]
  end; try (left; split; [reflexivity | exact Hno]).
  destruct (handle_parts_effect d part0 part1)
    as [Hl | (r & p & Hin & _ & _ & Hlo & Hhi & Hd & Hout)]; [now left|].
  right. exists r, p. repeat split; assumption.
Qed.

Lemma current_lines_set d r p :
  PrimFloat.ltb 0 p = true ->
  current_lines (set_threshold d r p)
  = map (fun n => (n, if String.eqb n r then p else get_threshold d n)) rarities.
Proof.
  intros Hlo. unfold current_lines. apply map_ext. intros n.
  destruct (String.eqb n r) eqn:En.
  - apply String.eqb_eq in En. subst n.
    now rewrite get_threshold_set_threshold, (sql_real_in_range _ Hlo).
  - apply String.eqb_neq in En. rewrite get_threshold_set_threshold_ne; congruence.
Qed.

End AdminFacts.

(** X15. The start-up migration changes no reading: every threshold,
    every floor price and the notification records read the same before
    and after it, although no row is left with an empty threshold column;
    running it a second time changes nothing. *)
Theorem migration_keeps_readings (d : Store.db) :
  let d' := Admin.ensure_threshold_column d in
  (forall ra, Store.get_threshold d' ra = Store.get_threshold d ra)
  /\ (forall ra, Store.get_floor d' ra = Store.get_floor d ra)
  /\ Store.notifications d' = Store.notifications d
  /\ (forall ra row, Store.floors d' !! ra = Some row ->
                     is_Some (Store.threshold_percent row))
  /\ Admin.ensure_threshold_column d' = d'.
Proof.
  intros d'. subst d'. repeat split.
  - intros ra. unfold Store.get_threshold. rewrite ensure_lookup.
    destruct (Store.floors d !! ra) as [row|]; simpl; [|reflexivity].
    now destruct (Store.threshold_percent row).
  - intros ra. unfold Store.get_floor. rewrite ensure_lookup.
    now destruct (Store.floors d !! ra).
  - intros ra row. rewrite ensure_lookup.
    destruct (Store.floors d !! ra) as [row0|]; simpl; [|discriminate].
    intros H. injection H as <-. simpl. eauto.
  - unfold Admin.ensure_threshold_column. simpl. f_equal.
    apply map_eq. intros ra. rewrite !lookup_fmap.
    now destruct (Store.floors d !! ra).
Qed.

(** X16. Whatever text a [/set] message carries, it leaves the store as
    it was and acknowledges nothing, or it sets the threshold of one of
    the five rarities to a percent in (0, 100] and acknowledges exactly
    that rarity and percent. *)
Theorem set_command_effect (py_float : string -> option float) (bot_send : bool)
        (d : Store.db) (text : option string) :
  let d' := fst (Commands._handle_set py_float bot_send d text) in
  let out := snd (Commands._handle_set py_float bot_send d text) in
  (d' = d
   /\ forall r p, ~ In (Commands.Reply (Commands.ThresholdUpdated r p)) out)
  \/ (exists r p,
         In r Commands.rarities
         /\ PrimFloat.ltb 0 p = true /\ PrimFloat.leb p 100 = true
         /\ d' = Store.set_threshold d r p
         /\ out = Commands.send bot_send (Commands.ThresholdUpdated r p)).
Proof. apply handle_set_effect. Qed.

(** X17. [/set] followed by [/current]: once a [/set] message is
    acknowledged with "Threshold updated" for a rarity and a percent, the
    lines of [/current] show that percent for that rarity and, for each of
    the other four, the threshold it had before. *)
Theorem set_then_current (py_float : string -> option float) (bot_send : bool)
        (d : Store.db) (text : option string) (r : string) (p : float) :
  In (Commands.Reply (Commands.ThresholdUpdated r p))
     (snd (Commands._handle_set py_float bot_send d text)) ->
  Admin.current_lines (fst (Commands._handle_set py_float bot_send d text))
  = map (fun n => (n, if String.eqb n r then p else Store.get_threshold d n))
        Commands.rarities.
Proof.
  intros Hin.
  destruct (handle_set_effect py_float bot_send d text)
    as [[_ Hno] | (r' & p' & _ & Hlo & _ & -> & Hout)].
  - now apply Hno in Hin.
  - rewrite Hout in Hin. apply send_updated in Hin. injection Hin as -> ->.
    now apply current_lines_set.
Qed.

Lemma set_then_current_witness :
  let d := Fixtures.floor_only "Epic" 120 in
  Admin.current_lines
    (fst (Commands._handle_set Samples.py_float true d (Some "/set epic, 25")))
  = [("Legendary", 50%float); ("Epic", 25%float); ("Rare", 50%float);
     ("Uncommon", 50%float); ("Common", 50%float)].
Proof.
  intros d.
  rewrite (set_then_current Samples.py_float true d (Some "/set epic, 25") "Epic" 25).
  - vm_compute. reflexivity.
  - vm_compute. left. reflexivity.
Defined.

(** X18. The rarity named in a [/set] message is looked up without regard
    to letter case and matches exactly one of the five names: the lookup
    of a lower-cased word gives a rarity precisely when that rarity is one
    of the five and spells the word up to case. *)
Theorem rarity_lookup_ignores_case (s r : string) :
  Commands.mapping_get (PyStr.lower s) Commands.rarities = Some r
  <-> In r Commands.rarities /\ PyStr.lower r = PyStr.lower s.
Proof.
  split.
  - unfold Commands.rarities. cbn -[String.eqb In PyStr.lower].
    repeat match goal with
           | |- context [String.eqb ?a ?k] => destruct (String.eqb a k) eqn:?
           end;
      intros H; inversion H; subst;
      (split; [simpl; tauto | now apply String.eqb_eq]).
  - intros [Hin <-]. unfold Commands.rarities in Hin. simpl in Hin.
    destruct Hin as [<-|[<-|[<-|[<-|[<-|[]]]]]]; vm_compute; reflexivity.
Qed.

(** ** Retries *)

Section RetryFacts.
Import Net.
Local Open Scope list_scope.

Lemma good_reply r : good r = true -> exists body, r = Reply 200 (Some body).
Proof.
  destruct r as [|st [body|]]; simpl; try discriminate.
  intros H. apply Z.eqb_eq in H. subst st. eauto.
Qed.

Lemma attempts_bad replies attempt rest :
  good (replies attempt) = false ->
  attempts replies (attempt :: rest)
  = (fst (attempts replies rest),
     Request attempt :: Warn attempt :: Sleep (attempt + 1)
             :: snd (attempts replies rest)).
Proof.
  intros H. simpl. destruct (attempts replies rest) as [out evs].
  destruct (replies attempt) as [|st [body|]]; try reflexivity.
  simpl in H. now rewrite H.
Qed.

Lemma attempts_good replies attempt rest body :
  replies attempt = Reply 200 (Some body) ->
  attempts replies (attempt :: rest) = (body, [Request attempt]).
Proof. intros H. simpl. now rewrite H. Qed.

Lemma three_attempts replies : retry_outcome replies (attempts replies [0; 1; 2]).
Proof.
  unfold retry_outcome.
  destruct (good (replies 0)) eqn:G0.
  { destruct (good_reply _ G0) as [body Hb]. left. exists 0, body.
    rewrite (attempts_good _ _ _ _ Hb). repeat split; auto. intros j Hj. lia. }
  rewrite (attempts_bad _ _ _ G0).
  destruct (good (replies 1)) eqn:G1.
  { destruct (good_reply _ G1) as [body Hb]. left. exists 1, body.
    rewrite (attempts_good _ _ _ _ Hb). repeat split; auto.
    intros j Hj. assert (j = 0) as -> by lia. exact G0. }
  rewrite (attempts_bad _ _ _ G1).
  destruct (good (replies 2)) eqn:G2.
  { destruct (good_reply _ G2) as [body Hb]. left. exists 2, body.
    rewrite (attempts_good _ _ _ _ Hb). repeat split; auto.
    intros j Hj. assert (j = 0 \/ j = 1) as [-> | ->] by lia; assumption. }
  rewrite (attempts_bad _ _ _ G2). right. repeat split; auto.
  intros k Hk. assert (k = 0 \/ k = 1 \/ k = 2) as [-> | [-> | ->]] by lia; assumption.
Qed.

End RetryFacts.

(** X19. [fetch_json] and [post_json] make between one and three
    requests. They return the body of the first reply that has status 200
    and parses, having slept 1 s after the first failure and 2 s after the
    second; when all three attempts fail they return the empty object,
    after a third sleep of 3 s (six seconds in all). *)
Theorem retry_policy (replies : nat -> Net.reply) :
  Net.retry_outcome replies (Net.fetch_json replies)
  /\ Net.retry_outcome replies (Net.post_json replies).
Proof. split; apply three_attempts. Qed.

(** ** Across the records of a tick *)

Section TickFacts.
Import Store Engine Obs.
Local Open Scope list_scope.

Variables (cfg : config) (w : world).

Lemma run_tick_app tick d rs1 rs2 :
  run_tick cfg w tick d (rs1 ++ rs2)
  = (fst (run_tick cfg w tick (fst (run_tick cfg w tick d rs1)) rs2),
     snd (run_tick cfg w tick d rs1)
     ++ snd (run_tick cfg w tick (fst (run_tick cfg w tick d rs1)) rs2)).
Proof.
  revert d. induction rs1 as [|r rs1 IH]; intros d; simpl.
  - now destruct (run_tick cfg w tick d rs2).
  - destruct (process_result cfg w tick d r) as [d1 ev1]. rewrite IH.
    destruct (run_tick cfg w tick d1 rs1) as [d2 ev2]. simpl.
    now rewrite app_assoc.
Qed.

(** A record of another rarity, or without a price, leaves the floor of
    [ra] alone. *)
Lemma process_result_floor_frame tick d r ra :
  r_rarity r <> Some ra \/ r_price_usd r = None ->
  get_floor (fst (process_result cfg w tick d r)) ra = get_floor d ra.
Proof.
  intros [Hra | Hp].
  - apply (process_result_inv (fun d' => get_floor d' ra = get_floor d ra)
                              (fun x => x <> ra) (fun _ => True)).
    + intros d0 x p ts Hx H. now rewrite get_floor_set_floor_ne.
    + intros d0 i p ts _ H. now rewrite get_floor_set_notified.
    + split; [|intros; exact I]. intros x Hx ->. now apply Hra.
    + reflexivity.
  - now rewrite (process_result_no_price cfg w tick d r Hp).
Qed.

Lemma run_tick_floor_frame tick d rs ra :
  Forall (fun r => r_rarity r <> Some ra \/ r_price_usd r = None) rs ->
  get_floor (fst (run_tick cfg w tick d rs)) ra = get_floor d ra.
Proof.
  intros Hrs. revert d. induction Hrs as [|r rs Hr _ IH]; intros d; [reflexivity|].
  simpl. pose proof (process_result_floor_frame tick d r ra Hr) as H1.
  destruct (process_result cfg w tick d r) as [d1 ev1]. cbn [fst] in H1.
  specialize (IH d1). destruct (run_tick cfg w tick d1 rs) as [d2 ev2].
  cbn [fst] in *. congruence.
Qed.

(** Records of other items leave the record of [i] alone. *)
Lemma run_tick_notified_frame tick d rs i :
  Forall (fun r => r_item_id r <> JStr i) rs ->
  get_notified (fst (run_tick cfg w tick d rs)) i = get_notified d i.
Proof.
  intros Hrs.
  apply (run_tick_inv (fun d' => get_notified d' i = get_notified d i)
                      (fun _ => True) (fun x => x <> i)).
  - intros d0 x p ts _ H. now rewrite get_notified_set_floor.
  - intros d0 x p ts Hx H. unfold get_notified in *. simpl.
    now rewrite lookup_insert_ne.
  - eapply Forall_impl; [exact Hrs|]. intros r Hr.
    split; [intros; exact I|]. intros x Hx ->. now apply Hr.
  - reflexivity.
Qed.

Lemma process_result_suppressed tick d r i last p :
  r_item_id r = JStr i -> get_notified d i = Some last ->
  r_price_usd r = Some p -> PrimFloat.leb last p = true ->
  sends (snd (process_result cfg w tick d r)) = false
  /\ attempted (snd (process_result cfg w tick d r)) = false
  /\ notifications (fst (process_result cfg w tick d r)) = notifications d.
Proof.
  intros Hi Hlast Hp Hle.
  assert (Hno : should_notify (last_notified d r) p = false).
  { unfold last_notified. rewrite Hi, Hlast. simpl. now apply leb_ltb_false. }
  assert (Hcs : forall d0, sends (snd (cadence w tick d0 (r_rarity r) (r_price_usd r))) = false)
    by (intros d0; apply cadence_quiet; auto with trace).
  assert (Hca : forall d0, attempted (snd (cadence w tick d0 (r_rarity r) (r_price_usd r))) = false)
    by (intros d0; apply cadence_quiet; auto with trace).
  destruct (process_result_cases cfg w tick d r)
    as [[_ ->] | [(p' & f & cmp & _ & _ & _ & Hcmp & ->)
                 | (p' & f & cmp & d1 & ev1 & Hp' & _ & _ & Hcmp & Ho & ->)]].
  - repeat split; auto using cadence_notifications.
  - cbn [fst snd]. unfold sends, attempted in *. cbn [existsb].
    rewrite (compare_not_send _ Hcmp), (compare_not_sending _ Hcmp). cbn [orb].
    repeat split; auto using cadence_notifications.
  - assert (p' = p) as -> by congruence.
    destruct (outcome_suppressed Ho Hno) as (-> & Ha & Hs & _).
    cbn [fst snd]. unfold sends, attempted in *. cbn [existsb].
    rewrite !existsb_app, Ha, Hs, (compare_not_send _ Hcmp), (compare_not_sending _ Hcmp).
    cbn [orb]. repeat split; auto using cadence_notifications.
Qed.

End TickFacts.

(** X20. On a refresh tick the last priced listing of a rarity wins: on
    tick 1 and on every third tick, after all records are processed, the
    floor of a rarity is what the store reads back for the rounded price
    of the last record of that rarity that has a price (the records after
    it are of other rarities or have no price), whatever alerts were sent
    on the way. *)
Theorem refresh_last_listing_wins (cfg : Engine.config) (w : Engine.world) (tick : Z)
        (d : Store.db) (rs1 rs2 : list Engine.result) (r : Engine.result)
        (ra : string) (p : float) :
  tick = 1%Z \/ (tick mod 3)%Z = 0%Z ->
  Engine.r_rarity r = Some ra ->
  Engine.r_price_usd r = Some p ->
  Forall (fun r' => Engine.r_rarity r' <> Some ra \/ Engine.r_price_usd r' = None) rs2 ->
  Store.get_floor (fst (Engine.run_tick cfg w tick d (rs1 ++ r :: rs2))) ra
  = Store.sql_real (PyFloat.round2 p).
Proof.
  intros Htick Hra Hp Hrs2. rewrite run_tick_app. cbn [fst].
  generalize (fst (Engine.run_tick cfg w tick d rs1)). intros d1.
  change (r :: rs2) with ([r] ++ rs2)%list. rewrite run_tick_app. cbn [fst].
  rewrite run_tick_floor_frame by exact Hrs2.
  simpl. rewrite process_result_unfold, Hra, Hp. cbn [fst].
  now apply cadence_sets.
Qed.

Lemma refresh_last_listing_wins_witness :
  let rs := [Fixtures.listing "Rare" (JStr "item-1") 90;
             Fixtures.listing "Rare" (JStr "item-2") 95;
             Fixtures.unpriced "Rare" (JStr "item-4");
             Fixtures.listing "Epic" (JStr "item-3") 400] in
  Store.get_floor
    (fst (Engine.run_tick Fixtures.cfg_on Fixtures.net_up 3
                          (Fixtures.floor_only "Rare" 200) rs)) "Rare"
  = Some 95%float.
Proof.
  intros rs.
  refine (eq_trans
            (refresh_last_listing_wins Fixtures.cfg_on Fixtures.net_up 3
               (Fixtures.floor_only "Rare" 200)
               [Fixtures.listing "Rare" (JStr "item-1") 90]
               [Fixtures.unpriced "Rare" (JStr "item-4");
                Fixtures.listing "Epic" (JStr "item-3") 400]
               (Fixtures.listing "Rare" (JStr "item-2") 95) "Rare" 95 _ _ _ _) _).
  - right. reflexivity.
  - reflexivity.
  - reflexivity.
  - constructor; [right; reflexivity|].
    constructor; [left; discriminate | constructor].
  - vm_compute. reflexivity.
Defined.

(** X21. An item is not alerted again at the same or a higher price,
    whatever happened to other items in between: if an alert is on record
    for the item and the records processed since belong to other items,
    a listing of the item at a price not below the recorded one attempts
    no notification, calls no Bot API and leaves the record as it is. *)
Theorem no_repeat_after_others (cfg : Engine.config) (w w' : Engine.world)
        (tick tick' : Z) (d : Store.db) (rs : list Engine.result)
        (r : Engine.result) (i : string) (last p : float) :
  Store.get_notified d i = Some last ->
  Forall (fun r' => Engine.r_item_id r' <> JStr i) rs ->
  Engine.r_item_id r = JStr i ->
  Engine.r_price_usd r = Some p ->
  PrimFloat.leb last p = true ->
  let d1 := fst (Engine.run_tick cfg w tick d rs) in
  Obs.sends (snd (Engine.process_result cfg w' tick' d1 r)) = false
  /\ Obs.attempted (snd (Engine.process_result cfg w' tick' d1 r)) = false
  /\ Store.get_notified (fst (Engine.process_result cfg w' tick' d1 r)) i = Some last.
Proof.
  intros Hlast Hrs Hi Hp Hle d1.
  assert (H1 : Store.get_notified d1 i = Some last)
    by (subst d1; now rewrite run_tick_notified_frame).
  destruct (process_result_suppressed cfg w' tick' d1 r i last p Hi H1 Hp Hle)
    as (Hs & Ha & Hn).
  repeat split; try assumption.
  unfold Store.get_notified in *. now rewrite Hn.
Qed.

Lemma no_repeat_after_others_witness :
  let d := Fixtures.floor_and_record "Rare" 200 "item-1" 90 in
  let rs := [Fixtures.listing "Rare" (JStr "item-2") 80] in
  let d1 := fst (Engine.run_tick Fixtures.cfg_on Fixtures.net_up 2 d rs) in
  Obs.sends (snd (Engine.run_tick Fixtures.cfg_on Fixtures.net_up 2 d rs)) = true
  /\ Obs.sends (snd (Engine.process_result Fixtures.cfg_on Fixtures.net_up 4 d1
                       (Fixtures.listing "Rare" (JStr "item-1") 90))) = false.
Proof.
  intros d rs d1. split; [vm_compute; reflexivity|].
  apply (no_repeat_after_others Fixtures.cfg_on Fixtures.net_up Fixtures.net_up 2 4
           d rs (Fixtures.listing "Rare" (JStr "item-1") 90) "item-1" 90 90).
  - vm_compute. reflexivity.
  - repeat constructor. discriminate.
  - reflexivity.
  - reflexivity.
  - vm_compute. reflexivity.
Defined.

(** X22. The retry of the image request: the address asked first is a
    value of the normalizer, so the [ipfs://] case of the fallback never
    applies; unless the address is on the [ipfs.raribleuserdata.com]
    gateway, the second request goes to the very same address. *)
Theorem fallback_repeats_address (w : Engine.world) (channel x : string)
        (rarity : option string) (token_id : json) (cap : Engine.caption) :
  PyStr.contains "ipfs.raribleuserdata.com/ipfs/" (Normalizers._normalize_ipfs x) = false ->
  Engine.alt_url (Normalizers._normalize_ipfs x) = Normalizers._normalize_ipfs x
  /\ forall u', In (Engine.HttpGet u')
                   (snd (Engine.deliver w channel (Normalizers._normalize_ipfs x)
                                        rarity token_id cap)) ->
                u' = Normalizers._normalize_ipfs x.
Proof.
  generalize (normalize_not_ipfs x). generalize (Normalizers._normalize_ipfs x).
  intros u Hn Hc.
  assert (Ha : Engine.alt_url u = u).
  { unfold Engine.alt_url. now rewrite Hc, Hn. }
  split; [exact Ha|].
  intros u'. unfold Engine.deliver. rewrite Ha.
  repeat match goal with
         | |- context [match ?x with _ => _ end] => destruct x
         end;
    simpl; intros H;
    repeat (destruct H as [H|H]; [try discriminate H; injection H as <-; reflexivity|]);
    contradiction.
Qed.

Lemma fallback_repeats_address_witness :
  Normalizers._normalize_ipfs " ipfs://QmA/7.png " = "https://ipfs.io/ipfs/QmA/7.png"
  /\ Engine.alt_url "https://ipfs.io/ipfs/QmA/7.png" = "https://ipfs.io/ipfs/QmA/7.png".
Proof.
  split; [vm_compute; reflexivity|].
  refine (proj1 (fallback_repeats_address Fixtures.net_up "@winkwatcher"
                   " ipfs://QmA/7.png " None JNull
                   {| Engine.c_token_id := JNull; Engine.c_rarity := None;
                      Engine.c_price := Engine.PriceRaw None;
                      Engine.c_floor_price := None;
                      Engine.c_rarible_url := None;
                      Engine.c_opensea_url := None |} _)).
  vm_compute. reflexivity.
Defined.

Section ColdStartFacts.
Import Store Engine Obs.
Local Open Scope list_scope.

Variables (cfg : config) (w : world).

(** A record whose rarity has no floor is only subject to the cadence. *)
Lemma process_result_no_floor tick d r :
  floor_of d r = None ->
  process_result cfg w tick d r = cadence w tick d (r_rarity r) (r_price_usd r).
Proof.
  intros Hf. rewrite process_result_unfold.
  rewrite alert_step_absent by now right. simpl.
  now destruct (cadence w tick d (r_rarity r) (r_price_usd r)).
Qed.

Lemma floor_of_frame tick d r r' :
  r_rarity r' = None \/ r_rarity r' <> r_rarity r ->
  floor_of (fst (cadence w tick d (r_rarity r) (r_price_usd r))) r' = floor_of d r'.
Proof.
  intros H. unfold floor_of. destruct (r_rarity r') as [ra'|] eqn:E'; [|reflexivity].
  destruct H as [H|H]; [discriminate H|].
  apply (cadence_inv (fun d' => get_floor d' ra' = get_floor d ra')
                     (fun x => x <> ra')).
  - intros d0 x p ts Hx Hq. now rewrite get_floor_set_floor_ne.
  - intros x Hx ->. now apply H.
  - reflexivity.
Qed.

Lemma run_tick_cold tick d rs :
  Forall (fun r => floor_of d r = None) rs ->
  Shape.distinct_rarities rs ->
  forallb is_cadence_write (snd (run_tick cfg w tick d rs)) = true
  /\ notifications (fst (run_tick cfg w tick d rs)) = notifications d.
Proof.
  intros Hrs. revert d Hrs. induction rs as [|r rs IH]; intros d Hrs Hd.
  - now repeat split.
  - apply Forall_cons in Hrs as [Hr Hrs]. destruct Hd as [Hne Hd].
    simpl. rewrite (process_result_no_floor tick d r Hr).
    assert (Hrs' : Forall (fun r' => floor_of (fst (cadence w tick d (r_rarity r)
                                                            (r_price_usd r))) r' = None) rs).
    { rewrite Forall_forall in *. intros r' Hin.
      rewrite floor_of_frame; [now apply Hrs | now apply Hne]. }
    assert (Hc : forallb is_cadence_write
                   (snd (cadence w tick d (r_rarity r) (r_price_usd r))) = true).
    { unfold cadence. destruct (r_price_usd r); [|reflexivity].
      destruct (r_rarity r); [|reflexivity].
      now destruct (tick =? 1)%Z; destruct (tick mod 3 =? 0)%Z. }
    pose proof (cadence_notifications w tick d (r_rarity r) (r_price_usd r)) as Hn.
    destruct (cadence w tick d (r_rarity r) (r_price_usd r)) as [d1 ev1].
    cbn [fst snd] in *.
    destruct (IH d1 Hrs' Hd) as (Hall & Hnot).
    destruct (run_tick cfg w tick d1 rs) as [d2 ev2]. cbn [fst snd] in *.
    rewrite forallb_app, Hc, Hall. split; [reflexivity | congruence].
Qed.

Lemma cadence_only_quiet (f : event -> bool) evs :
  (forall e, is_cadence_write e = true -> f e = false) ->
  forallb is_cadence_write evs = true -> existsb f evs = false.
Proof.
  intros Hf. induction evs as [|e evs IH]; simpl; [reflexivity|].
  intros H. apply andb_prop in H as [He Hevs]. now rewrite (Hf e He), IH.
Qed.

End ColdStartFacts.

(** X23. A rarity without a floor cannot alert. When no floor is on
    record for the rarities listed and no two records of the tick share a
    rarity, the tick compares nothing, triggers nothing and sends nothing,
    and the notification records stay as they are: the only events are
    floor writes of the cadence. *)
Theorem cold_start_is_silent (cfg : Engine.config) (w : Engine.world) (tick : Z)
        (d : Store.db) (rs : list Engine.result) :
  Forall (fun r => Engine.floor_of d r = None) rs ->
  Shape.distinct_rarities rs ->
  let evs := snd (Engine.run_tick cfg w tick d rs) in
  forallb Obs.is_cadence_write evs = true
  /\ Obs.compared evs = false /\ Obs.triggered evs = false
  /\ Obs.sends evs = false
  /\ Store.notifications (fst (Engine.run_tick cfg w tick d rs)) = Store.notifications d.
Proof.
  intros Hrs Hd evs. subst evs.
  destruct (run_tick_cold cfg w tick d rs Hrs Hd) as (Hall & Hn).
  repeat split; try assumption;
    apply cadence_only_quiet; auto with trace.
Qed.

Lemma cold_start_is_silent_witness :
  let rs := [Fixtures.listing "Rare" (JStr "item-1") 90;
             Fixtures.listing "Epic" (JStr "item-2") 400] in
  Store.get_floor (fst (Engine.run_tick Fixtures.cfg_on Fixtures.net_up 1
                                        Store.empty_db rs)) "Rare" = Some 90%float
  /\ Obs.sends (snd (Engine.run_tick Fixtures.cfg_on Fixtures.net_up 1
                                     Store.empty_db rs)) = false.
Proof.
  intros rs. split; [vm_compute; reflexivity|].
  apply (cold_start_is_silent Fixtures.cfg_on Fixtures.net_up 1 Store.empty_db rs).
  - repeat constructor.
  - simpl. split; [|split; [constructor | exact I]].
    constructor; [right; discriminate | constructor].
Defined.

Section WriteFacts.
Import Store.

Lemma db_eq (d1 d2 : db) :
  floors d1 = floors d2 -> notifications d1 = notifications d2 -> d1 = d2.
Proof. destruct d1, d2. simpl. now intros -> ->. Qed.

(** A threshold write and a floor write commute, on the same row or on
    different ones, whether or not the rows exist. *)
Lemma set_threshold_set_floor d ra ra' p ts t :
  set_threshold (set_floor d ra p ts) ra' t = set_floor (set_threshold d ra' t) ra p ts.
Proof.
  apply db_eq; [|reflexivity]. unfold set_threshold, set_floor. cbn [floors].
  destruct (decide (ra = ra')) as [<-|Hne].
  - rewrite !lookup_insert_eq, !insert_insert_eq.
    now destruct (floors d !! ra).
  - rewrite !lookup_insert_ne by congruence.
    now rewrite insert_insert_ne by congruence.
Qed.

End WriteFacts.

(** X24. The writes of the operator command and of the poll loop, which
    run side by side, do not depend on their order: a threshold write and
    a floor write leave the same store whichever comes first, on the same
    rarity or on different ones, with or without a row before; so do a
    threshold write and a notification write. After both, the floor reads
    back as the store returns the rounded price and, for a percent above
    zero, the threshold reads back as the percent: neither write undoes
    the other. *)
Theorem store_writes_commute (d : Store.db) (ra ra' i ts : string) (p t : float) :
  Store.set_threshold (Store.set_floor d ra p ts) ra' t
  = Store.set_floor (Store.set_threshold d ra' t) ra p ts
  /\ Store.set_threshold (Store.set_notified d i p ts) ra' t
     = Store.set_notified (Store.set_threshold d ra' t) i p ts
  /\ Store.get_floor (Store.set_threshold (Store.set_floor d ra p ts) ra' t) ra
     = Store.sql_real (PyFloat.round2 p)
  /\ (PrimFloat.ltb 0 t = true ->
      Store.get_threshold (Store.set_floor (Store.set_threshold d ra' t) ra p ts) ra' = t).
Proof.
  split; [apply set_threshold_set_floor|].
  split; [reflexivity|].
  split; [now rewrite get_floor_set_threshold, get_floor_set_floor|].
  intros Ht.
  now rewrite get_threshold_set_floor, get_threshold_set_threshold,
    (sql_real_in_range _ Ht).
Qed.
